(** * FreeRCT viewport: projection, voxel collection, picking, panning

    A shallow embedding of [src/viewport.cpp].  The C++ classes
    [VoxelCollector], [SpriteCollector], [PixelFinder] and [Viewport]
    become records; their methods become functions that pass the object
    explicitly and return the updated object.

    Integers.  C++ [int]/[int32] values are modelled as [Z] with the
    two's-complement wrap-around written out by [int32]; narrowing stores
    into [int16], [uint16] and [uint8] fields use [int16], [uint16] and
    [uint8].  C++ [/] truncates toward zero ([Z.quot]), [%] is [Z.rem] and
    [>>] on a signed value is the arithmetic shift ([Z.shiftr]).  Signed
    overflow is undefined behaviour in C++; statements that compare the code
    with an overflow-free formula carry the range condition explicitly. *)

From Stdlib Require Import ZArith Lia List Bool Sorted Permutation.
Import ListNotations.
Local Open Scope Z_scope.

(** ** Machine integers *)

Module MachineInt.

  (** Value of [v] after conversion to a signed integer of [bits] bits. *)
Definition wrap_signed (bits v : Z) : Z :=
    (v + 2 ^ (bits - 1)) mod 2 ^ bits - 2 ^ (bits - 1).

Definition int32 (v : Z) : Z := wrap_signed 32 v.
Definition int16 (v : Z) : Z := wrap_signed 16 v.
Definition uint16 (v : Z) : Z := v mod 2 ^ 16.
Definition uint8 (v : Z) : Z := v mod 2 ^ 8.

Definition INT32_MIN : Z := - 2 ^ 31.
Definition INT32_MAX : Z := 2 ^ 31 - 1.

Definition in_int32 (v : Z) : Prop := INT32_MIN <= v <= INT32_MAX.

  (** [int] arithmetic: the mathematical result, converted back to 32 bits. *)
Definition add32 (a b : Z) : Z := int32 (a + b).
Definition sub32 (a b : Z) : Z := int32 (a - b).
Definition mul32 (a b : Z) : Z := int32 (a * b).
Definition neg32 (a : Z) : Z := int32 (- a).
Definition div32 (a b : Z) : Z := int32 (Z.quot a b).
Definition rem32 (a b : Z) : Z := int32 (Z.rem a b).
Definition sar32 (a n : Z) : Z := Z.shiftr a n.

End MachineInt.
Import MachineInt.

Declare Scope int32_scope.
Delimit Scope int32_scope with i32.
Arguments add32 (a b)%_int32_scope.
Arguments sub32 (a b)%_int32_scope.
Arguments mul32 (a b)%_int32_scope.
Arguments neg32 a%_int32_scope.
Arguments div32 (a b)%_int32_scope.
Arguments sar32 a%_int32_scope n%_Z_scope.
Infix "+" := add32 : int32_scope.
Infix "-" := sub32 : int32_scope.
Infix "*" := mul32 : int32_scope.
Infix "/" := div32 : int32_scope.
Infix ">>" := sar32 (at level 30, no associativity) : int32_scope.
Notation "- x" := (neg32 x) : int32_scope.

(** ** Orientation *)

Inductive ViewOrientation : Type :=
  | VOR_NORTH
  | VOR_EAST
  | VOR_SOUTH
  | VOR_WEST.

(** Modelled from the spec: [orientation.h], which declares the enum
    [ViewOrientation], is not among the sources.  The spec lists the four
    compass directions as N/E/S/W and says that rotation advances the
    orientation by one modulo 4; the enumerators are numbered in that
    order, with [VOR_NUM_ORIENT] the number of orientations. *)
Definition orient_val (o : ViewOrientation) : Z :=
  match o with
  | VOR_NORTH => 0
  | VOR_EAST => 1
  | VOR_SOUTH => 2
  | VOR_WEST => 3
  end.

Definition VOR_NUM_ORIENT : Z := 4.

(** The cast [(ViewOrientation)v].  Values outside [0..3] name no
    orientation; [Rotate] never produces one (lemma [Rotate_val_range]). *)
Definition orient_of_val (v : Z) : ViewOrientation :=
  if v =? 1 then VOR_EAST
  else if v =? 2 then VOR_SOUTH
  else if v =? 3 then VOR_WEST
  else VOR_NORTH.

Definition orient_eqb (a b : ViewOrientation) : bool :=
  orient_val a =? orient_val b.

(** ** Geometry, voxels, sprites: the collaborators' data

    [geometry.h], [map.h] and [sprite_store.h] are not among the sources.
    What [viewport.cpp] reads from them is kept, and what it cannot see is
    left open: the coordinate type of [Point] ([to_coord] below), the value
    of [GTP_INVALID], the voxel kinds other than [VT_SURFACE]. *)

Record Point : Type := mkPoint { px : Z; py : Z }.

Record Rectangle : Type := mkRectangle {
  base : Point;
  width : Z;
  height : Z
}.

(** Ground of a surface voxel: [svd->ground.type], [svd->ground.slope]. *)
Record SurfaceVoxelData : Type := mkSurface {
  ground_type : Z;
  ground_slope : Z
}.

(** A voxel is a tagged union; [GetType()] is [VT_SURFACE] for the first
    constructor and some other tag for the second. *)
Inductive Voxel : Type :=
  | SurfaceVoxel (svd : SurfaceVoxelData)
  | OtherVoxel (tag : Z).

(** [VoxelStack]: [voxels] is a C array reached through a pointer, read at
    index [count] without a bounds check. *)
Record VoxelStack : Type := mkStack {
  voxels : Z -> Voxel;
  stack_base : Z;
  stack_height : Z
}.

(** The global [_world]. *)
Record World : Type := mkWorld {
  GetXSize : Z;
  GetYSize : Z;
  GetStack : Z -> Z -> VoxelStack
}.

(** Modelled from the spec: [sprite_store.h] is not among the sources.  A
    sprite is an image handle with an origin offset, a width, a height and a
    pixel-sample operation; the sprite provider returns an optional sprite
    for a ground type, slope, tile width and orientation, and an optional
    cursor sprite for a slope, tile width and orientation. *)
Record Sprite : Type := mkSprite {
  spr_xoffset : Z;
  spr_yoffset : Z;
  spr_width : Z;
  spr_height : Z;
  GetPixel : Z -> Z -> Z
}.

Record SpriteStore : Type := mkSpriteStore {
  GetSurfaceSprite : Z -> Z -> Z -> ViewOrientation -> option Sprite;
  GetCursorSprite : Z -> Z -> ViewOrientation -> option Sprite
}.

(** ** The voxel collector and the coordinate projector *)

Record VoxelCollector : Type := mkVoxelCollector {
  xview : Z;
  yview : Z;
  zview : Z;
  tile_width : Z;
  tile_height : Z;
  orient : ViewOrientation;
  rect : Rectangle
}.

(** [VoxelCollector::ComputeX]. *)
Definition ComputeX (vc : VoxelCollector) (x y : Z) : Z :=
  let tw := tile_width vc in
  (match orient vc with
   | VOR_NORTH => ((y - x) * tw / 2) >> 8
   | VOR_WEST => ((- (x + y)) * tw / 2) >> 8
   | VOR_SOUTH => ((x - y) * tw / 2) >> 8
   | VOR_EAST => ((x + y) * tw / 2) >> 8
   end)%i32.

(** [VoxelCollector::ComputeY]. *)
Definition ComputeY (vc : VoxelCollector) (x y z : Z) : Z :=
  let tw := tile_width vc in
  let th := tile_height vc in
  (match orient vc with
   | VOR_NORTH => ((x + y) * tw / 4 - z * th) >> 8
   | VOR_WEST => ((y - x) * tw / 4 - z * th) >> 8
   | VOR_SOUTH => ((- (x + y)) * tw / 4 - z * th) >> 8
   | VOR_EAST => ((x - y) * tw / 4 - z * th) >> 8
   end)%i32.

(** [VoxelCollector::VoxelCollector]: the constructor leaves [rect] unset;
    [SetWindowSize] writes it before [Collect] reads it. *)
Definition new_VoxelCollector (xv yv zv tw th : Z) (o : ViewOrientation)
  : VoxelCollector :=
  mkVoxelCollector (int32 xv) (int32 yv) (int32 zv) (uint16 tw) (uint16 th) o
                   (mkRectangle (mkPoint 0 0) 0 0).

Definition set_rect (vc : VoxelCollector) (r : Rectangle) : VoxelCollector :=
  mkVoxelCollector (xview vc) (yview vc) (zview vc)
                   (tile_width vc) (tile_height vc) (orient vc) r.

(** The abstract base class: a collector is any object that contains a
    [VoxelCollector] and implements the virtual [CollectVoxel]. *)
Class Collector (S : Type) : Type := {
  collector_base : S -> VoxelCollector;
  with_base : VoxelCollector -> S -> S;
  CollectVoxel : S -> Voxel -> Z -> Z -> Z -> Z -> Z -> S
}.

(** Outcome of the two window tests on one voxel of a column. *)
Inductive VoxelTest : Type :=
  | BelowWindow   (* continue *)
  | AboveWindow   (* break *)
  | InWindow.     (* CollectVoxel is called *)

Section Model.

  (** Conversion of an [int] to the coordinate type of [Point]. *)
Variable to_coord : Z -> Z.
  (** The enumerator [GTP_INVALID]. *)
Variable GTP_INVALID : Z.
  (** The globals [_world] and [_sprite_store]. *)
Variable _world : World.
Variable _sprite_store : SpriteStore.

  (** [VoxelCollector::SetWindowSize]. *)
Definition SetWindowSize (vc : VoxelCollector) (xpos ypos w h : Z)
    : VoxelCollector :=
    let bx := to_coord (ComputeX vc (xview vc) (yview vc) + int16 xpos)%i32 in
    let by_ :=
      to_coord (ComputeY vc (xview vc) (yview vc) (zview vc) + int16 ypos)%i32 in
    set_rect vc (mkRectangle (mkPoint bx by_) (uint16 w) (uint16 h)).

  (** *** [VoxelCollector::Collect] *)

Definition dir_offset (b : bool) : Z := if b then 1 else 0.

Definition world_x_of (vc : VoxelCollector) (xpos : Z) : Z :=
    ((xpos + dir_offset (orient_eqb (orient vc) VOR_SOUTH
                         || orient_eqb (orient vc) VOR_WEST)) * 256)%i32.

Definition world_y_of (vc : VoxelCollector) (ypos : Z) : Z :=
    ((ypos + dir_offset (orient_eqb (orient vc) VOR_SOUTH
                         || orient_eqb (orient vc) VOR_EAST)) * 256)%i32.

  (** The two column tests of the [ypos] loop: the column is skipped when it
      lies left or right of the window. *)
Definition column_left_of_window (vc : VoxelCollector) (north_x : Z) : bool :=
    (north_x + tile_width vc / 2)%i32 <=? int32 (px (base (rect vc))).

Definition column_right_of_window (vc : VoxelCollector) (north_x : Z) : bool :=
    (north_x - tile_width vc / 2)%i32
    >=? int32 (px (base (rect vc)) + width (rect vc))%i32.

  (** The two voxel tests of the [count] loop. *)
Definition voxel_below_window (vc : VoxelCollector) (north_y : Z) : bool :=
    (north_y - tile_height vc)%i32
    >=? int32 (py (base (rect vc)) + height (rect vc))%i32.

Definition voxel_above_window (vc : VoxelCollector) (north_y : Z) : bool :=
    (north_y + tile_width vc / 2 + tile_height vc)%i32
    <=? int32 (py (base (rect vc))).

Definition voxel_test (vc : VoxelCollector) (north_y : Z) : VoxelTest :=
    if voxel_below_window vc north_y then BelowWindow
    else if voxel_above_window vc north_y then AboveWindow
    else InWindow.

Definition zpos_of (stack : VoxelStack) (count : Z) : Z :=
    (stack_base stack + count)%i32.

Definition north_y_of (vc : VoxelCollector) (world_x world_y : Z)
             (stack : VoxelStack) (count : Z) : Z :=
    ComputeY vc world_x world_y (zpos_of stack count * 256)%i32.

Section Loops.
Context {S : Type} `{Collector S}.

    (** The [count] loop: [n] iterations are left, the next one is [count]. *)
Fixpoint stack_loop (n : nat) (count : Z) (stack : VoxelStack)
             (xpos ypos world_x world_y north_x : Z) (c : S) : S :=
      match n with
      | O => c
      | Datatypes.S n' =>
          let vc := collector_base c in
          let north_y := north_y_of vc world_x world_y stack count in
          match voxel_test vc north_y with
          | BelowWindow =>
              stack_loop n' (count + 1) stack xpos ypos world_x world_y north_x c
          | AboveWindow => c
          | InWindow =>
              stack_loop n' (count + 1) stack xpos ypos world_x world_y north_x
                (CollectVoxel c (voxels stack count) xpos ypos
                              (zpos_of stack count) north_x north_y)
          end
      end.

    (** Body of the [ypos] loop for one column. *)
Definition collect_column (xpos world_x ypos : Z) (c : S) : S :=
      let vc := collector_base c in
      let world_y := world_y_of vc ypos in
      let north_x := ComputeX vc world_x world_y in
      if column_left_of_window vc north_x then c
      else if column_right_of_window vc north_x then c
      else
        let stack := GetStack _world xpos ypos in
        stack_loop (Z.to_nat (stack_height stack)) 0 stack
                   xpos ypos world_x world_y north_x c.

Fixpoint ypos_loop (n : nat) (ypos : Z) (xpos world_x : Z) (c : S) : S :=
      match n with
      | O => c
      | Datatypes.S n' =>
          ypos_loop n' (ypos + 1) xpos world_x
                    (collect_column xpos world_x ypos c)
      end.

Fixpoint xpos_loop (n : nat) (xpos : Z) (c : S) : S :=
      match n with
      | O => c
      | Datatypes.S n' =>
          let world_x := world_x_of (collector_base c) xpos in
          xpos_loop n' (xpos + 1)
                    (ypos_loop (Z.to_nat (GetYSize _world)) 0 xpos world_x c)
      end.

    (** [VoxelCollector::Collect]. *)
Definition Collect (c : S) : S :=
      xpos_loop (Z.to_nat (GetXSize _world)) 0 c.

End Loops.

(** *** The sprite collector *)

(** [DrawData]. *)
Record DrawData : Type := mkDrawData {
  dd_spr : Sprite;
  dd_cursor : option Sprite;
  dd_base : Point
}.

(** [DrawImages] is a [std::multimap<int32, DrawData>]: the entries are kept
    in ascending key order, and [insert] puts a new entry behind the entries
    with an equal key. *)
Definition DrawImages : Type := list (Z * DrawData).

Fixpoint multimap_insert (p : Z * DrawData) (m : DrawImages) : DrawImages :=
  match m with
  | [] => [p]
  | q :: m' =>
      if fst p <? fst q then p :: q :: m' else q :: multimap_insert p m'
  end.

Record SpriteCollector : Type := mkSpriteCollector {
  sc_base : VoxelCollector;
  draw_images : DrawImages;
  xoffset : Z;
  yoffset : Z;
  draw_mouse_cursor : bool;
  mousex : Z;
  mousey : Z;
  mousez : Z
}.

(** [SpriteCollector::SpriteCollector]; the fields the constructor does not
    write are given the value 0. *)
Definition new_SpriteCollector (xv yv zv tw th : Z) (o : ViewOrientation)
  : SpriteCollector :=
  mkSpriteCollector (new_VoxelCollector xv yv zv tw th o) [] 0 0 false 0 0 0.

(** [SpriteCollector::SetXYOffset]. *)
Definition SetXYOffset (sc : SpriteCollector) (xoff yoff : Z) : SpriteCollector :=
  mkSpriteCollector (sc_base sc) (draw_images sc) (int16 xoff) (int16 yoff)
                    (draw_mouse_cursor sc) (mousex sc) (mousey sc) (mousez sc).

(** [SpriteCollector::SetMouseCursor]. *)
Definition SetMouseCursor (sc : SpriteCollector) (xpos ypos zpos : Z)
  : SpriteCollector :=
  mkSpriteCollector (sc_base sc) (draw_images sc) (xoffset sc) (yoffset sc)
                    true (uint16 xpos) (uint16 ypos) (uint8 zpos).

Definition set_draw_images (sc : SpriteCollector) (m : DrawImages)
  : SpriteCollector :=
  mkSpriteCollector (sc_base sc) m (xoffset sc) (yoffset sc)
                    (draw_mouse_cursor sc) (mousex sc) (mousey sc) (mousez sc).

(** [SpriteCollector::CollectVoxel]. *)
Definition SpriteCollector_CollectVoxel (sc : SpriteCollector) (voxel : Voxel)
           (xpos ypos zpos xnorth ynorth : Z) : SpriteCollector :=
  let this := sc_base sc in
  let sx := if orient_eqb (orient this) VOR_NORTH
               || orient_eqb (orient this) VOR_EAST then 256 else -256 in
  let sy := if orient_eqb (orient this) VOR_NORTH
               || orient_eqb (orient this) VOR_WEST then 256 else -256 in
  match voxel with
  | SurfaceVoxel svd =>
      if ground_type svd =? GTP_INVALID then sc
      else
        match GetSurfaceSprite _sprite_store (ground_type svd) (ground_slope svd)
                               (tile_width this) (orient this) with
        | Some spr =>
            let mspr :=
              if draw_mouse_cursor sc && (xpos =? mousex sc)
                 && (ypos =? mousey sc) && (zpos =? mousez sc)
              then GetCursorSprite _sprite_store (ground_slope svd)
                                   (tile_width this) (orient this)
              else None in
            let first := (sx * xpos + sy * ypos + zpos * 256)%i32 in
            let bx := to_coord (xoffset sc + xnorth + spr_xoffset spr
                                - px (base (rect this)))%i32 in
            let by_ := to_coord (yoffset sc + ynorth + spr_yoffset spr
                                 - py (base (rect this)))%i32 in
            set_draw_images sc
              (multimap_insert (first, mkDrawData spr mspr (mkPoint bx by_))
                               (draw_images sc))
        | None => sc
        end
  | OtherVoxel _ => sc
  end.

#[export] Instance SpriteCollector_Collector : Collector SpriteCollector := {
  collector_base := sc_base;
  with_base := fun vc sc =>
    mkSpriteCollector vc (draw_images sc) (xoffset sc) (yoffset sc)
                      (draw_mouse_cursor sc) (mousex sc) (mousey sc) (mousez sc);
  CollectVoxel := SpriteCollector_CollectVoxel
}.

(** *** The pixel finder *)

Record PixelFinder : Type := mkPixelFinder {
  pf_base : VoxelCollector;
  found : bool;
  distance : Z;
  pixel : Z;
  pf_xvoxel : Z;
  pf_yvoxel : Z;
  pf_zvoxel : Z
}.

(** [PixelFinder::PixelFinder]. *)
Definition new_PixelFinder (xv yv zv tw th : Z) (o : ViewOrientation)
  : PixelFinder :=
  mkPixelFinder (new_VoxelCollector xv yv zv tw th o) false 0 0 0 0 0.

(** [PixelFinder::CollectVoxel]. *)
Definition PixelFinder_CollectVoxel (pf : PixelFinder) (voxel : Voxel)
           (xpos ypos zpos xnorth ynorth : Z) : PixelFinder :=
  let this := pf_base pf in
  let sx := if orient_eqb (orient this) VOR_NORTH
               || orient_eqb (orient this) VOR_EAST then 256 else -256 in
  let sy := if orient_eqb (orient this) VOR_NORTH
               || orient_eqb (orient this) VOR_WEST then 256 else -256 in
  match voxel with
  | SurfaceVoxel svd =>
      if ground_type svd =? GTP_INVALID then pf
      else
        match GetSurfaceSprite _sprite_store (ground_type svd) (ground_slope svd)
                               (tile_width this) (orient this) with
        | None => pf
        | Some spr =>
            let dist := (sx * xpos + sy * ypos + zpos * 256)%i32 in
            if found pf && (dist <=? distance pf) then pf
            else
              let xoffset := int16 (px (base (rect this)) - xnorth
                                    - spr_xoffset spr)%i32 in
              let yoffset := int16 (py (base (rect this)) - ynorth
                                    - spr_yoffset spr)%i32 in
              if (xoffset <? 0) || (yoffset <? 0) then pf
              else
                let pixel := uint8 (GetPixel spr xoffset yoffset) in
                if pixel =? 0 then pf
                else
                  mkPixelFinder this true
                                (sx * xpos + sy * ypos + zpos * 256)%i32
                                pixel (uint16 xpos) (uint16 ypos) (uint8 zpos)
        end
  | OtherVoxel _ => pf
  end.

(** The call of [spr->GetPixel] that [PixelFinder::CollectVoxel] makes on a
    voxel, if it makes one: the code of [PixelFinder_CollectVoxel] up to the
    call, with the sprite and the two arguments of the call as its result
    (lemma [PixelFinder_CollectVoxel_samples] relates the two). *)
Definition PixelFinder_GetPixel_call (pf : PixelFinder) (voxel : Voxel)
           (xpos ypos zpos xnorth ynorth : Z) : option (Sprite * Z * Z) :=
  let this := pf_base pf in
  let sx := if orient_eqb (orient this) VOR_NORTH
               || orient_eqb (orient this) VOR_EAST then 256 else -256 in
  let sy := if orient_eqb (orient this) VOR_NORTH
               || orient_eqb (orient this) VOR_WEST then 256 else -256 in
  match voxel with
  | SurfaceVoxel svd =>
      if ground_type svd =? GTP_INVALID then None
      else
        match GetSurfaceSprite _sprite_store (ground_type svd) (ground_slope svd)
                               (tile_width this) (orient this) with
        | None => None
        | Some spr =>
            let dist := (sx * xpos + sy * ypos + zpos * 256)%i32 in
            if found pf && (dist <=? distance pf) then None
            else
              let xoffset := int16 (px (base (rect this)) - xnorth
                                    - spr_xoffset spr)%i32 in
              let yoffset := int16 (py (base (rect this)) - ynorth
                                    - spr_yoffset spr)%i32 in
              if (xoffset <? 0) || (yoffset <? 0) then None
              else Some (spr, xoffset, yoffset)
        end
  | OtherVoxel _ => None
  end.

#[export] Instance PixelFinder_Collector : Collector PixelFinder := {
  collector_base := pf_base;
  with_base := fun vc pf =>
    mkPixelFinder vc (found pf) (distance pf) (pixel pf)
                  (pf_xvoxel pf) (pf_yvoxel pf) (pf_zvoxel pf);
  CollectVoxel := PixelFinder_CollectVoxel
}.

(** *** The viewport window *)

Inductive MouseMode : Type :=
  | MM_INACTIVE
  | MM_TILE_TERRAFORM.

Definition MB_RIGHT : Z := 4.
Definition MB_CURRENT : Z := 7.

(** The [Viewport] window.  The first four fields are those of the base
    class [Window] that [viewport.cpp] reads. *)
Record Viewport : Type := mkViewport {
  win_x : Z;
  win_y : Z;
  win_width : Z;
  win_height : Z;
  vp_xview : Z;
  vp_yview : Z;
  vp_zview : Z;
  vp_tile_width : Z;
  vp_tile_height : Z;
  orientation : ViewOrientation;
  mouse_mode : MouseMode;
  mouse_pos : Point;
  mouse_state : Z;
  xvoxel : Z;
  yvoxel : Z;
  zvoxel : Z;
  dirty_marks : nat
}.

(** Modelled from the spec: the body of [Window::MarkDirty] is not among
    the sources.  It signals a redraw request to the windowing layer; the
    model counts the signals emitted so far in [dirty_marks]. *)
Definition MarkDirty (vp : Viewport) : Viewport :=
  mkViewport (win_x vp) (win_y vp) (win_width vp) (win_height vp)
             (vp_xview vp) (vp_yview vp) (vp_zview vp)
             (vp_tile_width vp) (vp_tile_height vp) (orientation vp)
             (mouse_mode vp) (mouse_pos vp) (mouse_state vp)
             (xvoxel vp) (yvoxel vp) (zvoxel vp) (Datatypes.S (dirty_marks vp)).

(** Modelled from the spec: [math_func.h] is not among the sources.
    [Clamp(a, min, max)] clamps [a] to the interval from [min] to [max]. *)
Definition Clamp (a min max : Z) : Z :=
  if a <=? min then min else if a >=? max then max else a.

(** [Viewport::Viewport]. *)
Definition new_Viewport (x y w h : Z) : Viewport :=
  mkViewport x y w h
             (GetXSize _world * 256 / 2)%i32 (GetYSize _world * 256 / 2)%i32
             (8 * 256)%i32 64 16 VOR_NORTH MM_INACTIVE (mkPoint 0 0) 0
             0 0 0 O.

(** The calls [Viewport::OnDraw] makes on the video system. *)
Inductive VideoOp : Type :=
  | LockSurface
  | FillSurface_COL_BACKGROUND
  | BlitImage (img_base : Point) (spr : Sprite) (clip : Rectangle)
  | UnlockSurface.

(** The sprite collector [Viewport::OnDraw] builds and runs. *)
Definition OnDraw_collector (vp : Viewport) : SpriteCollector :=
  let collector :=
    new_SpriteCollector (vp_xview vp) (vp_yview vp) (vp_zview vp)
                        (vp_tile_width vp) (vp_tile_height vp) (orientation vp) in
  let collector :=
    with_base (SetWindowSize (collector_base collector)
                             (- int16 (win_width vp) / 2)%i32
                             (- int16 (win_height vp) / 2)%i32
                             (win_width vp) (win_height vp)) collector in
  let collector := SetXYOffset collector (win_x vp) (win_y vp) in
  let collector :=
    match mouse_mode vp with
    | MM_TILE_TERRAFORM =>
        SetMouseCursor collector (xvoxel vp) (yvoxel vp) (zvoxel vp)
    | MM_INACTIVE => collector
    end in
  Collect collector.

Definition blit_draw_data (wind_rect : Rectangle) (p : Z * DrawData)
  : list VideoOp :=
  BlitImage (dd_base (snd p)) (dd_spr (snd p)) wind_rect
  :: match dd_cursor (snd p) with
     | Some cursor => [BlitImage (dd_base (snd p)) cursor wind_rect]
     | None => []
     end.

(** [Viewport::OnDraw]. *)
Definition OnDraw (vp : Viewport) : list VideoOp :=
  let collector := OnDraw_collector vp in
  let wind_rect :=
    mkRectangle (mkPoint (win_x vp) (win_y vp)) (win_width vp) (win_height vp) in
  [LockSurface; FillSurface_COL_BACKGROUND]
  ++ flat_map (blit_draw_data wind_rect) (draw_images collector)
  ++ [UnlockSurface].

Definition set_voxel (vp : Viewport) (xv yv zv : Z) : Viewport :=
  mkViewport (win_x vp) (win_y vp) (win_width vp) (win_height vp)
             (vp_xview vp) (vp_yview vp) (vp_zview vp)
             (vp_tile_width vp) (vp_tile_height vp) (orientation vp)
             (mouse_mode vp) (mouse_pos vp) (mouse_state vp)
             xv yv zv (dirty_marks vp).

(** The pixel finder [Viewport::ComputeCursorPosition] builds and runs. *)
Definition ComputeCursorPosition_collector (vp : Viewport) : PixelFinder :=
  let xp := int16 (px (mouse_pos vp) - win_width vp / 2)%i32 in
  let yp := int16 (py (mouse_pos vp) - win_height vp / 2)%i32 in
  let collector :=
    new_PixelFinder (vp_xview vp) (vp_yview vp) (vp_zview vp)
                    (vp_tile_width vp) (vp_tile_height vp) (orientation vp) in
  let collector :=
    with_base (SetWindowSize (collector_base collector) xp yp 1 1) collector in
  Collect collector.

(** [Viewport::ComputeCursorPosition]. *)
Definition ComputeCursorPosition (vp : Viewport) : Viewport :=
  let collector := ComputeCursorPosition_collector vp in
  if found collector
     && (negb (pf_xvoxel collector =? xvoxel vp)
         || negb (pf_yvoxel collector =? yvoxel vp)
         || negb (pf_zvoxel collector =? zvoxel vp))
  then MarkDirty (set_voxel vp (pf_xvoxel collector) (pf_yvoxel collector)
                            (pf_zvoxel collector))
  else vp.

Definition set_orientation (vp : Viewport) (o : ViewOrientation) : Viewport :=
  mkViewport (win_x vp) (win_y vp) (win_width vp) (win_height vp)
             (vp_xview vp) (vp_yview vp) (vp_zview vp)
             (vp_tile_width vp) (vp_tile_height vp) o
             (mouse_mode vp) (mouse_pos vp) (mouse_state vp)
             (xvoxel vp) (yvoxel vp) (zvoxel vp) (dirty_marks vp).

(** The enum value [Viewport::Rotate] casts to [ViewOrientation]. *)
Definition Rotate_val (o : ViewOrientation) (direction : Z) : Z :=
  rem32 (orient_val o + VOR_NUM_ORIENT
         + (if direction >? 0 then 1 else -1))%i32 VOR_NUM_ORIENT.

(** [Viewport::Rotate]. *)
Definition Rotate (vp : Viewport) (direction : Z) : Viewport :=
  let vp := set_orientation vp
              (orient_of_val (Rotate_val (orientation vp) direction)) in
  let vp := ComputeCursorPosition vp in
  MarkDirty vp.

Definition set_view (vp : Viewport) (xv yv : Z) : Viewport :=
  mkViewport (win_x vp) (win_y vp) (win_width vp) (win_height vp)
             xv yv (vp_zview vp)
             (vp_tile_width vp) (vp_tile_height vp) (orientation vp)
             (mouse_mode vp) (mouse_pos vp) (mouse_state vp)
             (xvoxel vp) (yvoxel vp) (zvoxel vp) (dirty_marks vp).

(** The [switch] of [Viewport::MoveViewport]: the new center before it is
    clamped. *)
Definition MoveViewport_target (vp : Viewport) (dx dy : Z) : Z * Z :=
  let tw := vp_tile_width vp in
  (match orientation vp with
   | VOR_NORTH =>
       (vp_xview vp + dx * 256 / tw - dy * 512 / tw,
        vp_yview vp - dx * 256 / tw - dy * 512 / tw)
   | VOR_EAST =>
       (vp_xview vp - dx * 256 / tw - dy * 512 / tw,
        vp_yview vp - dx * 256 / tw + dy * 512 / tw)
   | VOR_SOUTH =>
       (vp_xview vp - dx * 256 / tw + dy * 512 / tw,
        vp_yview vp + dx * 256 / tw + dy * 512 / tw)
   | VOR_WEST =>
       (vp_xview vp + dx * 256 / tw + dy * 512 / tw,
        vp_yview vp + dx * 256 / tw - dy * 512 / tw)
   end)%i32.

(** [Viewport::MoveViewport]. *)
Definition MoveViewport (vp : Viewport) (dx dy : Z) : Viewport :=
  let '(new_x, new_y) := MoveViewport_target vp dx dy in
  let new_x := Clamp new_x 0 (GetXSize _world * 256)%i32 in
  let new_y := Clamp new_y 0 (GetYSize _world * 256)%i32 in
  if negb (new_x =? vp_xview vp) || negb (new_y =? vp_yview vp)
  then MarkDirty (set_view vp new_x new_y)
  else vp.

Definition set_mouse (vp : Viewport) (mode : MouseMode) (pos : Point)
           (state : Z) : Viewport :=
  mkViewport (win_x vp) (win_y vp) (win_width vp) (win_height vp)
             (vp_xview vp) (vp_yview vp) (vp_zview vp)
             (vp_tile_width vp) (vp_tile_height vp) (orientation vp)
             mode pos state
             (xvoxel vp) (yvoxel vp) (zvoxel vp) (dirty_marks vp).

(** [Viewport::SetMouseMode]. *)
Definition SetMouseMode (vp : Viewport) (mode : MouseMode) : Viewport :=
  set_mouse vp mode (mouse_pos vp) 0.

Definition Point_eqb (p q : Point) : bool :=
  (px p =? px q) && (py p =? py q).

(** [Viewport::OnMouseMoveEvent]. *)
Definition OnMouseMoveEvent (vp : Viewport) (pos : Point) : Viewport :=
  match mouse_mode vp with
  | MM_INACTIVE => vp
  | MM_TILE_TERRAFORM =>
      if Point_eqb pos (mouse_pos vp) then vp
      else if negb (Z.land (mouse_state vp) MB_RIGHT =? 0) then
        let vp := MoveViewport vp (px pos - px (mouse_pos vp))%i32
                               (py pos - py (mouse_pos vp))%i32 in
        set_mouse vp (mouse_mode vp) pos (mouse_state vp)
      else
        ComputeCursorPosition
          (set_mouse vp (mouse_mode vp) pos (mouse_state vp))
  end.

(** [Viewport::OnMouseButtonEvent]. *)
Definition OnMouseButtonEvent (vp : Viewport) (state : Z) : Viewport :=
  match mouse_mode vp with
  | MM_INACTIVE => vp
  | MM_TILE_TERRAFORM =>
      set_mouse vp (mouse_mode vp) (mouse_pos vp)
                (uint8 (Z.land state MB_CURRENT))
  end.

(** [Viewport::OnMouseEnterEvent]. *)
Definition OnMouseEnterEvent (vp : Viewport) : Viewport :=
  set_mouse vp (mouse_mode vp) (mouse_pos vp) 0.

(** [Viewport::OnMouseLeaveEvent]. *)
Definition OnMouseLeaveEvent (vp : Viewport) : Viewport :=
  set_mouse vp (mouse_mode vp) (mouse_pos vp) 0.

End Model.

(** ** The voxels a column scan visits *)

(** The [count] loop of [Collect] with the call of [CollectVoxel] replaced
    by a record of the loop counter: the counters of the voxels that are
    handed to the visitor, in the order of the calls. *)
Fixpoint visited_counts (vc : VoxelCollector) (world_x world_y : Z)
         (stack : VoxelStack) (n : nat) (count : Z) : list Z :=
  match n with
  | O => []
  | Datatypes.S n' =>
      match voxel_test vc (north_y_of vc world_x world_y stack count) with
      | BelowWindow => visited_counts vc world_x world_y stack n' (count + 1)
      | AboveWindow => []
      | InWindow =>
          count :: visited_counts vc world_x world_y stack n' (count + 1)
      end
  end.

(** The call of [CollectVoxel] the [count] loop makes for the voxel
    [count] of a stack. *)
Definition visit_voxel {S : Type} `{Collector S} (vc : VoxelCollector)
           (stack : VoxelStack) (xpos ypos world_x world_y north_x : Z)
           (c : S) (count : Z) : S :=
  CollectVoxel c (voxels stack count) xpos ypos (zpos_of stack count) north_x
               (north_y_of vc world_x world_y stack count).

(** The two voxel tests on a voxel with north corner [north_y] are computed
    without leaving the range of [int32], on a rectangle and a tile whose
    sizes are [uint16] values. *)
Definition voxel_tests_fit (vc : VoxelCollector) (north_y : Z) : Prop :=
  0 <= tile_width vc < 2 ^ 16 /\ 0 <= tile_height vc < 2 ^ 16 /\
  0 <= height (rect vc) < 2 ^ 16 /\
  in_int32 (py (base (rect vc))) /\
  in_int32 (py (base (rect vc)) + height (rect vc)) /\
  in_int32 (north_y - tile_height vc) /\
  in_int32 (north_y + Z.quot (tile_width vc) 2) /\
  in_int32 (north_y + Z.quot (tile_width vc) 2 + tile_height vc).

(** ** The formulas of the specification

    Definitions that follow the wording of the specification, to be compared
    with the code above. *)

(** Spec 4.1: the orientation's sign combination of [x] and [y] in the
    horizontal output (NORTH: y-x; WEST: -(x+y); SOUTH: x-y; EAST: x+y). *)
Definition spec_comb_x (o : ViewOrientation) (x y : Z) : Z :=
  match o with
  | VOR_NORTH => y - x
  | VOR_WEST => - (x + y)
  | VOR_SOUTH => x - y
  | VOR_EAST => x + y
  end.

(** Spec 4.1: the sign combination in the vertical output (NORTH: x+y;
    WEST: y-x; SOUTH: -(x+y); EAST: x-y). *)
Definition spec_comb_y (o : ViewOrientation) (x y : Z) : Z :=
  match o with
  | VOR_NORTH => x + y
  | VOR_WEST => y - x
  | VOR_SOUTH => - (x + y)
  | VOR_EAST => x - y
  end.

(** The combination multiplied by [tile_width / 2] and divided by 256, over
    the integers without wrap-around: the division by 2 truncates (C++ [/]),
    the division by 256 rounds down (C++ [>> 8]). *)
Definition spec_screenX (tw : Z) (o : ViewOrientation) (x y : Z) : Z :=
  Z.quot (spec_comb_x o x y * tw) 2 / 256.

(** The combination multiplied by [tile_width / 4], minus [z * tile_height],
    divided by 256. *)
Definition spec_screenY (tw th : Z) (o : ViewOrientation) (x y z : Z) : Z :=
  (Z.quot (spec_comb_y o x y * tw) 4 - z * th) / 256.

(** No intermediate result of [ComputeX vc x y] and [ComputeY vc x y z]
    leaves the range of [int32]. *)
Definition projection_fits (vc : VoxelCollector) (x y z : Z) : Prop :=
  0 <= tile_width vc /\ 0 <= tile_height vc /\
  Z.abs x + Z.abs y <= INT32_MAX /\
  (Z.abs x + Z.abs y) * tile_width vc + Z.abs z * tile_height vc <= INT32_MAX.

(** Spec 4.3, as written: [sign_x] is +256 for NORTH/EAST and -256
    otherwise, [sign_y] is +256 for NORTH/WEST and -256 otherwise, and the
    depth key is [sign_x * 256 * xpos + sign_y * 256 * ypos + 256 * zpos]. *)
Definition spec_sign_x (o : ViewOrientation) : Z :=
  match o with
  | VOR_NORTH | VOR_EAST => 256
  | VOR_SOUTH | VOR_WEST => -256
  end.

Definition spec_sign_y (o : ViewOrientation) : Z :=
  match o with
  | VOR_NORTH | VOR_WEST => 256
  | VOR_SOUTH | VOR_EAST => -256
  end.

Definition spec_depth_key (o : ViewOrientation) (xpos ypos zpos : Z) : Z :=
  spec_sign_x o * 256 * xpos + spec_sign_y o * 256 * ypos + 256 * zpos.

(** The depth key with the signs applied once: [sign_x * xpos + sign_y *
    ypos + 256 * zpos]. *)
Definition depth_key (o : ViewOrientation) (xpos ypos zpos : Z) : Z :=
  spec_sign_x o * xpos + spec_sign_y o * ypos + 256 * zpos.

(** ** Candidates of the pixel finder *)

(** The arguments of one call of [CollectVoxel]. *)
Record Visit : Type := mkVisit {
  v_voxel : Voxel;
  v_xpos : Z;
  v_ypos : Z;
  v_zpos : Z;
  v_xnorth : Z;
  v_ynorth : Z
}.

Definition PixelFinder_visit (GTP_INVALID : Z) (store : SpriteStore)
           (pf : PixelFinder) (v : Visit) : PixelFinder :=
  PixelFinder_CollectVoxel GTP_INVALID store pf (v_voxel v) (v_xpos v)
                           (v_ypos v) (v_zpos v) (v_xnorth v) (v_ynorth v).

(** The tests of [PixelFinder::CollectVoxel] that do not read [found] and
    [distance]: the voxel is a surface voxel with a valid ground type and a
    sprite, the probe offsets are not negative, and the sprite's pixel at
    these offsets is not transparent. *)
Definition PixelFinder_hits (GTP_INVALID : Z) (store : SpriteStore)
           (this : VoxelCollector) (v : Visit) : bool :=
  match v_voxel v with
  | SurfaceVoxel svd =>
      if ground_type svd =? GTP_INVALID then false
      else
        match GetSurfaceSprite store (ground_type svd) (ground_slope svd)
                               (tile_width this) (orient this) with
        | None => false
        | Some spr =>
            let xoffset := int16 (px (base (rect this)) - v_xnorth v
                                  - spr_xoffset spr)%i32 in
            let yoffset := int16 (py (base (rect this)) - v_ynorth v
                                  - spr_yoffset spr)%i32 in
            if (xoffset <? 0) || (yoffset <? 0) then false
            else negb (uint8 (GetPixel spr xoffset yoffset) =? 0)
        end
  | OtherVoxel _ => false
  end.

(** The depth key [CollectVoxel] computes for a visit, as an [int32]. *)
Definition visit_key (o : ViewOrientation) (v : Visit) : Z :=
  int32 (depth_key o (v_xpos v) (v_ypos v) (v_zpos v)).

(** ** The calls of a collection pass *)

(** A collector that records the arguments of every call of
    [CollectVoxel], in the order of the calls. *)
Record TraceCollector : Type := mkTraceCollector {
  tc_base : VoxelCollector;
  tc_visits : list Visit
}.

Definition TraceCollector_CollectVoxel (tc : TraceCollector) (voxel : Voxel)
           (xpos ypos zpos xnorth ynorth : Z) : TraceCollector :=
  mkTraceCollector (tc_base tc)
                   (tc_visits tc ++ [mkVisit voxel xpos ypos zpos xnorth ynorth]).

#[export] Instance TraceCollector_Collector : Collector TraceCollector := {
  collector_base := tc_base;
  with_base := fun vc tc => mkTraceCollector vc (tc_visits tc);
  CollectVoxel := TraceCollector_CollectVoxel
}.

(** The calls of [CollectVoxel] that [Collect] makes for a collector with
    base [vc] over the world [w]. *)
Definition Collect_trace (w : World) (vc : VoxelCollector) : list Visit :=
  tc_visits (Collect w (mkTraceCollector vc [])).

(** A call of [CollectVoxel] with the arguments of a visit. *)
Definition apply_visit {S : Type} `{Collector S} (c : S) (v : Visit) : S :=
  CollectVoxel c (v_voxel v) (v_xpos v) (v_ypos v) (v_zpos v)
               (v_xnorth v) (v_ynorth v).

(** The column [(xpos, ypos)] is not skipped by the two tests of the [ypos]
    loop. *)
Definition column_in_window (vc : VoxelCollector) (xpos ypos : Z) : bool :=
  let north_x := ComputeX vc (world_x_of vc xpos) (world_y_of vc ypos) in
  negb (column_left_of_window vc north_x)
  && negb (column_right_of_window vc north_x).

(** The arguments [Collect] passes for the voxel [count] of the column
    [(xpos, ypos)]. *)
Definition visit_at (w : World) (vc : VoxelCollector) (cell : Z * Z * Z) : Visit :=
  let '(xpos, ypos, count) := cell in
  let stack := GetStack w xpos ypos in
  mkVisit (voxels stack count) xpos ypos (zpos_of stack count)
          (ComputeX vc (world_x_of vc xpos) (world_y_of vc ypos))
          (north_y_of vc (world_x_of vc xpos) (world_y_of vc ypos) stack count).

(** The voxels of the column [(xpos, ypos)] that are visited, as cells
    [(xpos, ypos, count)]. *)
Definition column_cells (w : World) (vc : VoxelCollector) (xpos ypos : Z)
  : list (Z * Z * Z) :=
  if column_in_window vc xpos ypos then
    map (fun count => (xpos, ypos, count))
        (visited_counts vc (world_x_of vc xpos) (world_y_of vc ypos)
                        (GetStack w xpos ypos)
                        (Z.to_nat (stack_height (GetStack w xpos ypos))) 0)
  else [].

Fixpoint ypos_cells (w : World) (vc : VoxelCollector) (n : nat)
         (ypos xpos : Z) : list (Z * Z * Z) :=
  match n with
  | O => []
  | Datatypes.S n' =>
      column_cells w vc xpos ypos ++ ypos_cells w vc n' (ypos + 1) xpos
  end.

Fixpoint xpos_cells (w : World) (vc : VoxelCollector) (n : nat) (xpos : Z)
  : list (Z * Z * Z) :=
  match n with
  | O => []
  | Datatypes.S n' =>
      ypos_cells w vc (Z.to_nat (GetYSize w)) 0 xpos
      ++ xpos_cells w vc n' (xpos + 1)
  end.

(** The cells [(xpos, ypos, count)] of the voxels that [Collect] hands to
    [CollectVoxel], in the order of the three loops. *)
Definition Collect_cells (w : World) (vc : VoxelCollector) : list (Z * Z * Z) :=
  xpos_cells w vc (Z.to_nat (GetXSize w)) 0.

(** Lexicographic order on cells. *)
Definition cell_lt (a b : Z * Z * Z) : Prop :=
  let '(ax, ay, ac) := a in
  let '(bx, by_, bc) := b in
  ax < bx \/ (ax = bx /\ (ay < by_ \/ (ay = by_ /\ ac < bc))).

(** The voxel [count] of the column [(xpos, ypos)] passes both voxel
    tests. *)
Definition voxel_in_window (w : World) (vc : VoxelCollector)
           (xpos ypos count : Z) : bool :=
  let north_y := north_y_of vc (world_x_of vc xpos) (world_y_of vc ypos)
                            (GetStack w xpos ypos) count in
  negb (voxel_below_window vc north_y) && negb (voxel_above_window vc north_y).

(** The voxel [count] of the column [(xpos, ypos)] reaches the second voxel
    test and meets it: the [break] of the [count] loop. *)
Definition voxel_breaks (w : World) (vc : VoxelCollector)
           (xpos ypos count : Z) : bool :=
  let north_y := north_y_of vc (world_x_of vc xpos) (world_y_of vc ypos)
                            (GetStack w xpos ypos) count in
  negb (voxel_below_window vc north_y) && voxel_above_window vc north_y.

(** ** Panning *)

(** The center [MoveViewport] stores when it stores one: the target of the
    [switch], clamped to the world. *)
Definition MoveViewport_clamped (w : World) (vp : Viewport) (dx dy : Z) : Z * Z :=
  (Clamp (fst (MoveViewport_target vp dx dy)) 0 (GetXSize w * 256)%i32,
   Clamp (snd (MoveViewport_target vp dx dy)) 0 (GetYSize w * 256)%i32).

(** The pan by [(dx, dy)] does not trigger boundary clamping: [Clamp]
    returns the target of the [switch] as it is. *)
Definition pan_unclamped (w : World) (vp : Viewport) (dx dy : Z) : Prop :=
  MoveViewport_clamped w vp dx dy = MoveViewport_target vp dx dy.

(** The world extent in fixed-point units fits in an [int32]. *)
Definition world_fits (w : World) : Prop :=
  0 <= GetXSize w * 256 <= INT32_MAX /\ 0 <= GetYSize w * 256 <= INT32_MAX.

(** The products [dx * 256] and [dy * 512] of [MoveViewport], and those of
    the opposite delta, fit in an [int32]. *)
Definition pan_fits (dx dy : Z) : Prop :=
  - INT32_MAX <= dx * 256 <= INT32_MAX /\
  - INT32_MAX <= dy * 512 <= INT32_MAX.

(** ** Sample data *)

(** A collector with the tile size the viewport uses. *)
Definition sample_collector (o : ViewOrientation) : VoxelCollector :=
  mkVoxelCollector 0 0 0 64 16 o (mkRectangle (mkPoint 0 0) 1 1).

(** A sprite of [w] by [h] pixels, every pixel of colour 1; like an image
    that is read beyond its data, it answers 1 outside its bounds too. *)
Definition opaque_sprite (w h : Z) : Sprite :=
  mkSprite 0 0 w h (fun _ _ => 1).

(** A sprite provider with the same opaque 1x1 sprite for every ground. *)
Definition sample_store : SpriteStore :=
  mkSpriteStore (fun _ _ _ _ => Some (opaque_sprite 1 1)) (fun _ _ _ => None).

Definition sample_GTP_INVALID : Z := 255.

Definition sample_sprite_collector (o : ViewOrientation) : SpriteCollector :=
  mkSpriteCollector (sample_collector o) [] 0 0 false 0 0 0.

Definition sample_pixel_finder (o : ViewOrientation) : PixelFinder :=
  mkPixelFinder (sample_collector o) false 0 0 0 0 0.

(** Two voxels with the same depth key seen from the north, each with an
    opaque pixel under the probe of [sample_pixel_finder]. *)
Definition sample_visit_first : Visit :=
  mkVisit (SurfaceVoxel (mkSurface 1 0)) 1 0 0 0 0.

Definition sample_visit_second : Visit :=
  mkVisit (SurfaceVoxel (mkSurface 1 0)) 0 1 0 0 0.

(** A world of 128 by 128 columns of one voxel each. *)
Definition sample_world : World :=
  mkWorld 128 128 (fun _ _ => mkStack (fun _ => SurfaceVoxel (mkSurface 1 0)) 0 1).

(** A viewport of 640 by 480 pixels on [sample_world], facing [o]. *)
Definition sample_viewport (o : ViewOrientation) : Viewport :=
  mkViewport 0 0 640 480 16384 16384 2048 64 16 o MM_TILE_TERRAFORM
             (mkPoint 320 240) 0 0 0 0 O.

(** A world of one column that holds one voxel [v] at height [base_z]. *)
Definition single_voxel_world (v : Voxel) (base_z : Z) : World :=
  mkWorld 1 1 (fun _ _ => mkStack (fun _ => v) base_z 1).

(** The scan of the column [(xpos, ypos)] stays inside [int32]: for every
    voxel of the stack, its height in voxels and in fixed-point units, its
    projection, and the two voxel tests on it. *)
Definition column_fits (w : World) (vc : VoxelCollector) (xpos ypos : Z) : Prop :=
  forall count : Z,
    0 <= count < stack_height (GetStack w xpos ypos) ->
    in_int32 (stack_base (GetStack w xpos ypos) + count) /\
    in_int32 ((stack_base (GetStack w xpos ypos) + count) * 256) /\
    projection_fits vc (world_x_of vc xpos) (world_y_of vc ypos)
                    ((stack_base (GetStack w xpos ypos) + count) * 256) /\
    voxel_tests_fit vc (north_y_of vc (world_x_of vc xpos) (world_y_of vc ypos)
                                   (GetStack w xpos ypos) count).

(** ** The draw list *)

(** The entry [SpriteCollector::CollectVoxel] inserts into [draw_images]
    for a visit, if it inserts one: the code of
    [SpriteCollector_CollectVoxel] up to the call of [insert] (lemma
    [SpriteCollector_CollectVoxel_inserts] relates the two). *)
Definition SpriteCollector_command (to_coord : Z -> Z) (GTP_INVALID : Z)
           (store : SpriteStore) (sc : SpriteCollector) (v : Visit)
  : option (Z * DrawData) :=
  let this := sc_base sc in
  let sx := if orient_eqb (orient this) VOR_NORTH
               || orient_eqb (orient this) VOR_EAST then 256 else -256 in
  let sy := if orient_eqb (orient this) VOR_NORTH
               || orient_eqb (orient this) VOR_WEST then 256 else -256 in
  match v_voxel v with
  | SurfaceVoxel svd =>
      if ground_type svd =? GTP_INVALID then None
      else
        match GetSurfaceSprite store (ground_type svd) (ground_slope svd)
                               (tile_width this) (orient this) with
        | Some spr =>
            let mspr :=
              if draw_mouse_cursor sc && (v_xpos v =? mousex sc)
                 && (v_ypos v =? mousey sc) && (v_zpos v =? mousez sc)
              then GetCursorSprite store (ground_slope svd)
                                   (tile_width this) (orient this)
              else None in
            let first := (sx * v_xpos v + sy * v_ypos v + v_zpos v * 256)%i32 in
            let bx := to_coord (xoffset sc + v_xnorth v + spr_xoffset spr
                                - px (base (rect this)))%i32 in
            let by_ := to_coord (yoffset sc + v_ynorth v + spr_yoffset spr
                                 - py (base (rect this)))%i32 in
            Some (first, mkDrawData spr mspr (mkPoint bx by_))
        | None => None
        end
  | OtherVoxel _ => None
  end.

(** The entries a sequence of visits inserts, in the order of the visits. *)
Definition SpriteCollector_commands (to_coord : Z -> Z) (GTP_INVALID : Z)
           (store : SpriteStore) (sc : SpriteCollector) (vs : list Visit)
  : list (Z * DrawData) :=
  flat_map (fun v => match SpriteCollector_command to_coord GTP_INVALID store
                                                   sc v with
                     | Some p => [p]
                     | None => []
                     end) vs.

(** The entries of a draw list are in ascending order of their keys. *)
Definition key_sorted (m : DrawImages) : Prop :=
  StronglySorted (fun p q : Z * DrawData => fst p <= fst q) m.

(** The entries of a draw list with the key [k], in their order. *)
Definition with_key (k : Z) (m : DrawImages) : DrawImages :=
  filter (fun p => fst p =? k) m.

(** The sprite collector of [Viewport::OnDraw] before [Collect] runs: the
    first four steps of [OnDraw_collector]. *)
Definition OnDraw_setup (to_coord : Z -> Z) (vp : Viewport) : SpriteCollector :=
  let collector :=
    new_SpriteCollector (vp_xview vp) (vp_yview vp) (vp_zview vp)
                        (vp_tile_width vp) (vp_tile_height vp) (orientation vp) in
  let collector :=
    mkSpriteCollector
      (SetWindowSize to_coord (sc_base collector)
                     (- int16 (win_width vp) / 2)%i32
                     (- int16 (win_height vp) / 2)%i32
                     (win_width vp) (win_height vp))
      (draw_images collector) (xoffset collector) (yoffset collector)
      (draw_mouse_cursor collector) (mousex collector) (mousey collector)
      (mousez collector) in
  let collector := SetXYOffset collector (win_x vp) (win_y vp) in
  match mouse_mode vp with
  | MM_TILE_TERRAFORM =>
      SetMouseCursor collector (xvoxel vp) (yvoxel vp) (zvoxel vp)
  | MM_INACTIVE => collector
  end.

(** ** The nearest hit *)

(** Among the visits [vs], [v] is the first one with the greatest depth key
    among those with an opaque pixel under the probe: it has one, the
    visits before it that have one have a smaller key, the visits behind it
    that have one have no greater key. *)
Definition first_nearest_hit (GTP_INVALID : Z) (store : SpriteStore)
           (this : VoxelCollector) (vs : list Visit) (v : Visit) : Prop :=
  exists before behind : list Visit,
    vs = before ++ v :: behind /\
    PixelFinder_hits GTP_INVALID store this v = true /\
    (forall u : Visit,
        In u before -> PixelFinder_hits GTP_INVALID store this u = true ->
        visit_key (orient this) u < visit_key (orient this) v) /\
    (forall u : Visit,
        In u behind -> PixelFinder_hits GTP_INVALID store this u = true ->
        visit_key (orient this) u <= visit_key (orient this) v).

(** The pixel finder [pf] has recorded the visit [v]. *)
Definition records_visit (pf : PixelFinder) (v : Visit) : Prop :=
  found pf = true /\
  distance pf = visit_key (orient (pf_base pf)) v /\
  pf_xvoxel pf = uint16 (v_xpos v) /\
  pf_yvoxel pf = uint16 (v_ypos v) /\
  pf_zvoxel pf = uint8 (v_zpos v) /\
  0 < pixel pf < 256.

(** The pixel finder of [Viewport::ComputeCursorPosition] before [Collect]
    runs: the first steps of [ComputeCursorPosition_collector]. *)
Definition ComputeCursorPosition_setup (to_coord : Z -> Z) (vp : Viewport)
  : PixelFinder :=
  let xp := int16 (px (mouse_pos vp) - win_width vp / 2)%i32 in
  let yp := int16 (py (mouse_pos vp) - win_height vp / 2)%i32 in
  let collector :=
    new_PixelFinder (vp_xview vp) (vp_yview vp) (vp_zview vp)
                    (vp_tile_width vp) (vp_tile_height vp) (orientation vp) in
  mkPixelFinder (SetWindowSize to_coord (pf_base collector) xp yp 1 1)
                (found collector) (distance collector) (pixel collector)
                (pf_xvoxel collector) (pf_yvoxel collector)
                (pf_zvoxel collector).

(** ** The viewport as a state machine *)

(** The window and the projection parameters of a viewport, apart from the
    view center and the orientation. *)
Definition frame_of (vp : Viewport) : Z * Z * Z * Z * Z * Z * Z :=
  (win_x vp, win_y vp, win_width vp, win_height vp,
   vp_zview vp, vp_tile_width vp, vp_tile_height vp).

(** The mouse state of a viewport. *)
Definition mouse_of (vp : Viewport) : MouseMode * Point * Z :=
  (mouse_mode vp, mouse_pos vp, mouse_state vp).

(** The tracked voxel of a viewport. *)
Definition tracked_of (vp : Viewport) : Z * Z * Z :=
  (xvoxel vp, yvoxel vp, zvoxel vp).

(** The view center of a viewport lies in the world. *)
Definition center_in_world (w : World) (vp : Viewport) : Prop :=
  0 <= vp_xview vp <= GetXSize w * 256 /\
  0 <= vp_yview vp <= GetYSize w * 256.

(** The calls that change a viewport. *)
Inductive ViewportCall : Type :=
  | CallRotate (direction : Z)
  | CallMoveViewport (dx dy : Z)
  | CallSetMouseMode (mode : MouseMode)
  | CallOnMouseMoveEvent (pos : Point)
  | CallOnMouseButtonEvent (state : Z)
  | CallOnMouseEnterEvent
  | CallOnMouseLeaveEvent
  | CallComputeCursorPosition.

Definition run_call (to_coord : Z -> Z) (GTP_INVALID : Z) (w : World)
           (store : SpriteStore) (vp : Viewport) (call : ViewportCall)
  : Viewport :=
  match call with
  | CallRotate direction =>
      Rotate to_coord GTP_INVALID w store vp direction
  | CallMoveViewport dx dy => MoveViewport w vp dx dy
  | CallSetMouseMode mode => SetMouseMode vp mode
  | CallOnMouseMoveEvent pos =>
      OnMouseMoveEvent to_coord GTP_INVALID w store vp pos
  | CallOnMouseButtonEvent state => OnMouseButtonEvent vp state
  | CallOnMouseEnterEvent => OnMouseEnterEvent vp
  | CallOnMouseLeaveEvent => OnMouseLeaveEvent vp
  | CallComputeCursorPosition =>
      ComputeCursorPosition to_coord GTP_INVALID w store vp
  end.

(** What holds of a viewport at all times. *)
Definition viewport_invariant (w : World) (vp : Viewport) : Prop :=
  center_in_world w vp /\
  vp_zview vp = 2048 /\ vp_tile_width vp = 64 /\ vp_tile_height vp = 16 /\
  0 <= mouse_state vp <= MB_CURRENT /\
  0 <= xvoxel vp < 2 ^ 16 /\ 0 <= yvoxel vp < 2 ^ 16 /\
  0 <= zvoxel vp < 2 ^ 8.

(** ** Coaster data: [src/coaster.cpp]

    The loaders read a block of a data file.  The file, the readers of
    [fileio.h], the sprite and text loaders of [sprite_store.h], the string
    registration of the language and the class declarations of [coaster.h]
    are not among the sources; what [coaster.cpp] uses of them is collected
    in [RcdEnv].  A reader returns the value read and the file after the
    read.  [LoadSpriteFromFile] is given the pointer it may overwrite and
    returns its result, the pointer afterwards and the file;
    [LoadTextFromFile] returns the text it found, or nothing when it
    fails. *)
Class RcdEnv : Type := {
  RcdFile : Type;
  ImageData : Type;
  ImageMap : Type;
  TextData : Type;
  TextMap : Type;
  Language : Type;
  RideStrings : Type;
  TrackPieceRef : Type;
  GetUInt8 : RcdFile -> Z * RcdFile;
  GetInt8 : RcdFile -> Z * RcdFile;
  GetUInt16 : RcdFile -> Z * RcdFile;
  GetUInt32 : RcdFile -> Z * RcdFile;
  LoadSpriteFromFile :
    RcdFile -> ImageMap -> option ImageData -> bool * option ImageData * RcdFile;
  LoadTextFromFile : RcdFile -> TextMap -> option TextData * RcdFile;
  RegisterStrings : Language -> TextData -> Z * Language;
  SetupStrings : RideStrings -> TextData -> Z -> RideStrings;
  CST_COUNT : Z;
  CPT_COUNT : Z
}.

Definition uint32 (v : Z) : Z := v mod 2 ^ 32.

(** [a[i] = x] on an array held as a list. *)
Fixpoint set_nth {A : Type} (i : nat) (x : A) (a : list A) : list A :=
  match a, i with
  | [], _ => []
  | _ :: a', O => x :: a'
  | y :: a', Datatypes.S i' => y :: set_nth i' x a'
  end.

Section CoasterModel.
Context `{RcdEnv}.

Record TrackVoxel : Type := mkTrackVoxel {
  back : list (option ImageData);
  front : list (option ImageData);
  tv_dx : Z;
  tv_dy : Z;
  tv_dz : Z;
  space : Z
}.

(** [TrackVoxel::TrackVoxel]; the fields the constructor does not write
    are given the value 0. *)
Definition new_TrackVoxel : TrackVoxel :=
  mkTrackVoxel (repeat None 4) (repeat None 4) 0 0 0 0.

(** The loop [for (i = ...; i < ...; i++) if (!LoadSpriteFromFile(rcd_file,
    sprites, &a[i])) return false;] with [n] iterations left: whether it ran
    to its end, the array and the file afterwards. *)
Fixpoint load_sprites (n i : nat) (rcd_file : RcdFile) (sprites : ImageMap)
         (a : list (option ImageData))
  : bool * list (option ImageData) * RcdFile :=
  match n with
  | O => (true, a, rcd_file)
  | Datatypes.S n' =>
      let '(ok, spr, rcd_file) :=
        LoadSpriteFromFile rcd_file sprites (nth i a None) in
      if ok then load_sprites n' (Datatypes.S i) rcd_file sprites (set_nth i spr a)
      else (false, set_nth i spr a, rcd_file)
  end.

(** [TrackVoxel::Load]. *)
Definition TrackVoxel_Load (this : TrackVoxel) (rcd_file : RcdFile)
           (length : Z) (sprites : ImageMap) : bool * TrackVoxel * RcdFile :=
  if negb (length =? 4 * 4 + 4 * 4 + 3 + 1) then (false, this, rcd_file)
  else
    let '(ok, back', rcd_file) :=
      load_sprites 4 0 rcd_file sprites (back this) in
    let this := mkTrackVoxel back' (front this) (tv_dx this) (tv_dy this)
                             (tv_dz this) (space this) in
    if negb ok then (false, this, rcd_file)
    else
      let '(ok, front', rcd_file) :=
        load_sprites 4 0 rcd_file sprites (front this) in
      let this := mkTrackVoxel (back this) front' (tv_dx this) (tv_dy this)
                               (tv_dz this) (space this) in
      if negb ok then (false, this, rcd_file)
      else
        let '(dx, rcd_file) := GetInt8 rcd_file in
        let '(dy, rcd_file) := GetInt8 rcd_file in
        let '(dz, rcd_file) := GetInt8 rcd_file in
        let '(sp, rcd_file) := GetUInt8 rcd_file in
        (true, mkTrackVoxel (back this) (front this) dx dy dz sp, rcd_file).

Record TrackPiece : Type := mkTrackPiece {
  entry_connect : Z;
  exit_connect : Z;
  exit_dx : Z;
  exit_dy : Z;
  exit_dz : Z;
  speed : Z;
  track_flags : Z;
  cost : Z;
  voxel_count : Z;
  track_voxels : option (list TrackVoxel)
}.

(** [TrackPiece::TrackPiece]; [track_voxels] is [NULL]. *)
Definition new_TrackPiece : TrackPiece :=
  mkTrackPiece 0 0 0 0 0 0 0 0 0 None.

(** The loop over the voxels of a piece, with [n] iterations left. *)
Fixpoint load_voxels (n i : nat) (rcd_file : RcdFile) (sprites : ImageMap)
         (a : list TrackVoxel) : bool * list TrackVoxel * RcdFile :=
  match n with
  | O => (true, a, rcd_file)
  | Datatypes.S n' =>
      let '(ok, tv, rcd_file) :=
        TrackVoxel_Load (nth i a new_TrackVoxel) rcd_file 36 sprites in
      if ok then load_voxels n' (Datatypes.S i) rcd_file sprites (set_nth i tv a)
      else (false, set_nth i tv a, rcd_file)
  end.

(** [TrackPiece::Load]. *)
Definition TrackPiece_Load (this : TrackPiece) (rcd_file : RcdFile)
           (length : Z) (sprites : ImageMap) : bool * TrackPiece * RcdFile :=
  if length <? 2 + 3 + 1 + 1 + 4 + 2 then (false, this, rcd_file)
  else
    let length := uint32 (length - (2 + 3 + 1 + 1 + 4 + 2)) in
    let '(entry, rcd_file) := GetUInt8 rcd_file in
    let '(exit_, rcd_file) := GetUInt8 rcd_file in
    let '(dx, rcd_file) := GetInt8 rcd_file in
    let '(dy, rcd_file) := GetInt8 rcd_file in
    let '(dz, rcd_file) := GetInt8 rcd_file in
    let '(spd, rcd_file) := GetInt8 rcd_file in
    let '(flags, rcd_file) := GetUInt8 rcd_file in
    let '(cst, rcd_file) := GetUInt32 rcd_file in
    let '(count, rcd_file) := GetUInt16 rcd_file in
    let this := mkTrackPiece entry exit_ dx dy dz spd flags cst count
                             (track_voxels this) in
    if negb (length =? uint32 (36 * count)) then (false, this, rcd_file)
    else
      let '(ok, voxels_, rcd_file) :=
        load_voxels (Z.to_nat count) 0 rcd_file sprites
                    (repeat new_TrackVoxel (Z.to_nat count)) in
      (ok,
       mkTrackPiece entry exit_ dx dy dz spd flags cst count (Some voxels_),
       rcd_file).

Record CoasterType : Type := mkCoasterType {
  ride_strings : RideStrings;
  coaster_kind : Z;
  platform_type : Z;
  piece_count : Z;
  pieces : option (list (option TrackPieceRef))
}.

(** The loop over the track pieces of a coaster type, with [n] iterations
    left. *)
Fixpoint load_pieces (n i : nat) (rcd_file : RcdFile)
         (piece_map : Z -> option TrackPieceRef)
         (a : list (option TrackPieceRef))
  : bool * list (option TrackPieceRef) * RcdFile :=
  match n with
  | O => (true, a, rcd_file)
  | Datatypes.S n' =>
      let '(val, rcd_file) := GetUInt32 rcd_file in
      if val =? 0 then (false, a, rcd_file)
      else
        match piece_map val with
        | None => (false, a, rcd_file)
        | Some piece =>
            load_pieces n' (Datatypes.S i) rcd_file piece_map
                        (set_nth i (Some piece) a)
        end
  end.

(** [CoasterType::Load]; the global [_language] is passed and returned. *)
Definition CoasterType_Load (this : CoasterType) (rcd_file : RcdFile)
           (length : Z) (texts : TextMap)
           (piece_map : Z -> option TrackPieceRef) (_language : Language)
  : bool * CoasterType * RcdFile * Language :=
  if length <? 2 + 1 + 4 + 2 then (false, this, rcd_file, _language)
  else
    let length := uint32 (length - (2 + 1 + 4 + 2)) in
    let '(kind, rcd_file) := GetUInt16 rcd_file in
    let '(platform, rcd_file) := GetUInt8 rcd_file in
    let this := mkCoasterType (ride_strings this) kind platform
                              (piece_count this) (pieces this) in
    if (kind =? 0) || (kind >=? CST_COUNT) then (false, this, rcd_file, _language)
    else if (platform =? 0) || (platform >=? CPT_COUNT)
    then (false, this, rcd_file, _language)
    else
      match LoadTextFromFile rcd_file texts with
      | (None, rcd_file) => (false, this, rcd_file, _language)
      | (Some text_data, rcd_file) =>
          let '(base_, _language) := RegisterStrings _language text_data in
          let strings := SetupStrings (ride_strings this) text_data base_ in
          let '(count, rcd_file) := GetUInt16 rcd_file in
          let this := mkCoasterType strings kind platform count (pieces this) in
          if negb (length =? uint32 (4 * count))
          then (false, this, rcd_file, _language)
          else
            let '(ok, pieces_, rcd_file) :=
              load_pieces (Z.to_nat count) 0 rcd_file piece_map
                          (repeat None (Z.to_nat count)) in
            (ok, mkCoasterType strings kind platform count (Some pieces_),
             rcd_file, _language)
      end.

End CoasterModel.

(** What the loaders may expect of the readers: with [pos] the position
    in the file, every reader advances it by the width of what it reads, and
    a sprite or text that is found is a reference of four bytes. *)
Definition readers_advance `{RcdEnv} (pos : RcdFile -> Z) : Prop :=
  (forall f : RcdFile, pos (snd (GetUInt8 f)) = pos f + 1) /\
  (forall f : RcdFile, pos (snd (GetInt8 f)) = pos f + 1) /\
  (forall f : RcdFile, pos (snd (GetUInt16 f)) = pos f + 2) /\
  (forall f : RcdFile, pos (snd (GetUInt32 f)) = pos f + 4) /\
  (forall (f : RcdFile) (sprites : ImageMap) (old : option ImageData),
      fst (fst (LoadSpriteFromFile f sprites old)) = true ->
      pos (snd (LoadSpriteFromFile f sprites old)) = pos f + 4) /\
  (forall (f : RcdFile) (texts : TextMap) (text_data : TextData),
      fst (LoadTextFromFile f texts) = Some text_data ->
      pos (snd (LoadTextFromFile f texts)) = pos f + 4).

(** [GetUInt16] returns a value of 16 bits. *)
Definition GetUInt16_in_range `{RcdEnv} : Prop :=
  forall f : RcdFile, 0 <= fst (GetUInt16 f) < 2 ^ 16.

(** A file of which only the position is kept, readers that return 1 and a
    sprite, text and string provider that always succeed: a block of any
    length with one voxel per piece, one piece per coaster. *)
#[local] Instance sample_RcdEnv : RcdEnv := {
  RcdFile := Z;
  ImageData := unit;
  ImageMap := unit;
  TextData := unit;
  TextMap := unit;
  Language := nat;
  RideStrings := unit;
  TrackPieceRef := Z;
  GetUInt8 := fun f => (1, f + 1);
  GetInt8 := fun f => (1, f + 1);
  GetUInt16 := fun f => (1, f + 2);
  GetUInt32 := fun f => (1, f + 4);
  LoadSpriteFromFile := fun f _ _ => (true, Some tt, f + 4);
  LoadTextFromFile := fun f _ => (Some tt, f + 4);
  RegisterStrings := fun l _ => (0, Datatypes.S l);
  SetupStrings := fun s _ _ => s;
  CST_COUNT := 2;
  CPT_COUNT := 2
}.

(** * Properties *)

(** ** Machine integers *)

Lemma int32_small (v : Z) : in_int32 v -> int32 v = v.
Proof.
  unfold in_int32, INT32_MIN, INT32_MAX, int32, wrap_signed.
  intros Hv. change (2 ^ (32 - 1)) with 2147483648 in *.
  change (2 ^ 32) with 4294967296. change (2 ^ 31) with 2147483648 in Hv.
  rewrite Z.mod_small; lia.
Qed.

Lemma int32_range (v : Z) : in_int32 (int32 v).
Proof.
  unfold in_int32, INT32_MIN, INT32_MAX, int32, wrap_signed.
  change (2 ^ (32 - 1)) with 2147483648. change (2 ^ 32) with 4294967296.
  change (2 ^ 31) with 2147483648.
  pose proof (Z.mod_pos_bound (v + 2147483648) 4294967296 eq_refl). lia.
Qed.

(** Two integers that agree modulo [2^32] have the same [int32] value. *)
Lemma int32_congr (a b : Z) :
  (a - b) mod 2 ^ 32 = 0 -> int32 a = int32 b.
Proof.
  intros Hab. unfold int32, wrap_signed. f_equal.
  apply Z.mod_divide in Hab; [| discriminate].
  destruct Hab as [k Hk].
  replace (a + 2 ^ (32 - 1)) with (b + 2 ^ (32 - 1) + k * 2 ^ 32) by lia.
  apply Z.mod_add. discriminate.
Qed.

Lemma int32_eq_mod (v : Z) : (int32 v - v) mod 2 ^ 32 = 0.
Proof.
  unfold int32, wrap_signed.
  change (2 ^ (32 - 1)) with 2147483648. change (2 ^ 32) with 4294967296.
  pose proof (Z.div_mod (v + 2147483648) 4294967296 ltac:(discriminate)) as E.
  replace ((v + 2147483648) mod 4294967296 - 2147483648 - v)
    with ((- ((v + 2147483648) / 4294967296)) * 4294967296) by lia.
  apply Z.mod_mul. discriminate.
Qed.

Lemma int32_idem (v : Z) : int32 (int32 v) = int32 v.
Proof. apply int32_small, int32_range. Qed.

Lemma int32_add_l (a b : Z) : int32 (int32 a + b) = int32 (a + b).
Proof.
  apply int32_congr.
  replace (int32 a + b - (a + b)) with (int32 a - a) by lia.
  apply int32_eq_mod.
Qed.

Lemma int32_add_r (a b : Z) : int32 (a + int32 b) = int32 (a + b).
Proof. rewrite Z.add_comm, int32_add_l. f_equal. lia. Qed.

Lemma int32_sub_l (a b : Z) : int32 (int32 a - b) = int32 (a - b).
Proof. unfold Z.sub. apply int32_add_l. Qed.

Lemma int32_sub_r (a b : Z) : int32 (a - int32 b) = int32 (a - b).
Proof.
  apply int32_congr.
  replace (a - int32 b - (a - b)) with (- (int32 b - b)) by lia.
  pose proof (int32_eq_mod b) as E.
  apply Z.mod_divide in E; [| discriminate]. destruct E as [k Hk].
  rewrite Hk. replace (- (k * 2 ^ 32)) with ((- k) * 2 ^ 32) by lia.
  apply Z.mod_mul. discriminate.
Qed.

Lemma sar32_8 (a : Z) : sar32 a 8 = a / 256.
Proof. unfold sar32. rewrite Z.shiftr_div_pow2 by lia. reflexivity. Qed.

Lemma quot_bound (a d m : Z) :
  0 < d -> - m <= a <= m -> - m <= Z.quot a d <= m.
Proof.
  intros Hd Ha.
  destruct (Z_le_gt_dec 0 a) as [Hpos | Hneg].
  - rewrite Z.quot_div_nonneg by lia.
    pose proof (Z.div_pos a d Hpos Hd).
    pose proof (Z.div_le_upper_bound a d a Hd ltac:(nia)). lia.
  - replace a with (- (- a)) by lia. rewrite Z.quot_opp_l by lia.
    rewrite Z.quot_div_nonneg by lia.
    pose proof (Z.div_pos (- a) d ltac:(lia) Hd).
    pose proof (Z.div_le_upper_bound (- a) d (- a) Hd ltac:(nia)). lia.
Qed.

Lemma mul_bound (c t a m : Z) :
  Z.abs c <= a -> 0 <= t -> a * t <= m -> - m <= c * t <= m.
Proof. intros Hc Ht Hm. nia. Qed.

Lemma in_int32_of_bound (v : Z) : - INT32_MAX <= v <= INT32_MAX -> in_int32 v.
Proof. unfold in_int32, INT32_MIN, INT32_MAX. lia. Qed.

(** ** The coordinate projector *)

Section Projector.
Variable vc : VoxelCollector.
Variables x y z : Z.
Hypothesis Hfits : projection_fits vc x y z.

Let tw := tile_width vc.
Let th := tile_height vc.

Lemma comb_x_abs : Z.abs (spec_comb_x (orient vc) x y) <= Z.abs x + Z.abs y.
Proof. destruct (orient vc); simpl; lia. Qed.

Lemma comb_y_abs : Z.abs (spec_comb_y (orient vc) x y) <= Z.abs x + Z.abs y.
Proof. destruct (orient vc); simpl; lia. Qed.

Lemma fits_product (c : Z) :
  Z.abs c <= Z.abs x + Z.abs y ->
  - INT32_MAX <= c * tw <= INT32_MAX.
Proof.
  destruct Hfits as (Htw & Hth & _ & Hall). intros Hc.
  apply (mul_bound c tw (Z.abs x + Z.abs y)); auto.
  subst tw. nia.
Qed.

(** The code of one [case] of [ComputeX], for a combination [c] that was
    computed without overflow. *)
Lemma ComputeX_case (c : Z) :
  Z.abs c <= Z.abs x + Z.abs y ->
  sar32 (div32 (mul32 c tw) 2) 8 = Z.quot (c * tw) 2 / 256.
Proof.
  intros Hc. pose proof (fits_product c Hc) as Hp.
  unfold mul32, div32. rewrite (int32_small (c * tw)) by
    (apply in_int32_of_bound; exact Hp).
  rewrite int32_small by
    (apply in_int32_of_bound, quot_bound; [lia | exact Hp]).
  apply sar32_8.
Qed.

(** The code of one [case] of [ComputeY]. *)
Lemma ComputeY_case (c : Z) :
  Z.abs c <= Z.abs x + Z.abs y ->
  sar32 (sub32 (div32 (mul32 c tw) 4) (mul32 z th)) 8
  = (Z.quot (c * tw) 4 - z * th) / 256.
Proof.
  intros Hc. pose proof (fits_product c Hc) as Hp.
  destruct Hfits as (Htw & Hth & _ & Hall). fold tw th in Htw, Hth, Hall.
  assert (Hq : - ((Z.abs x + Z.abs y) * tw) <= Z.quot (c * tw) 4
               <= (Z.abs x + Z.abs y) * tw)
    by (apply quot_bound; nia).
  assert (Hz : - (Z.abs z * th) <= z * th <= Z.abs z * th) by nia.
  unfold mul32, div32, sub32.
  rewrite (int32_small (c * tw)) by (apply in_int32_of_bound; exact Hp).
  rewrite (int32_small (Z.quot (c * tw) 4)) by (apply in_int32_of_bound; lia).
  rewrite (int32_small (z * th)) by (apply in_int32_of_bound; lia).
  rewrite int32_small by (apply in_int32_of_bound; lia).
  apply sar32_8.
Qed.

Lemma fits_sum : in_int32 (x + y) /\ in_int32 (x - y) /\ in_int32 (y - x)
                 /\ in_int32 (- (x + y)).
Proof.
  destruct Hfits as (_ & _ & Hxy & _).
  repeat split; unfold INT32_MIN, INT32_MAX in *; lia.
Qed.

Lemma ComputeX_exact :
  ComputeX vc x y = spec_screenX tw (orient vc) x y.
Proof.
  destruct fits_sum as (Ha & Hb & Hc & Hd).
  pose proof comb_x_abs as Habs.
  unfold ComputeX, spec_screenX. fold tw.
  destruct (orient vc); simpl in *; unfold add32, sub32, neg32.
  - rewrite (int32_small (y - x)) by assumption. apply ComputeX_case, Habs.
  - rewrite (int32_small (x + y)) by assumption. apply ComputeX_case, Habs.
  - rewrite (int32_small (x - y)) by assumption. apply ComputeX_case, Habs.
  - rewrite (int32_small (x + y)), (int32_small (- (x + y))) by assumption.
    apply ComputeX_case, Habs.
Qed.

Lemma ComputeY_exact :
  ComputeY vc x y z = spec_screenY tw th (orient vc) x y z.
Proof.
  destruct fits_sum as (Ha & Hb & Hc & Hd).
  pose proof comb_y_abs as Habs.
  unfold ComputeY, spec_screenY. fold tw th.
  destruct (orient vc); simpl in *; unfold add32, neg32.
  - rewrite (int32_small (x + y)) by assumption. apply ComputeY_case, Habs.
  - change (sub32 x y) with (int32 (x - y)).
    rewrite (int32_small (x - y)) by assumption. apply ComputeY_case, Habs.
  - rewrite (int32_small (x + y)), (int32_small (- (x + y))) by assumption.
    apply ComputeY_case, Habs.
  - change (sub32 y x) with (int32 (y - x)).
    rewrite (int32_small (y - x)) by assumption. apply ComputeY_case, Habs.
Qed.

End Projector.

Lemma spec_screenY_step (tw th : Z) (o : ViewOrientation) (x y z : Z) :
  spec_screenY tw th o x y (z + 256) = spec_screenY tw th o x y z - th.
Proof.
  unfold spec_screenY.
  replace (Z.quot (spec_comb_y o x y * tw) 4 - (z + 256) * th)
    with (Z.quot (spec_comb_y o x y * tw) 4 - z * th + (- th) * 256) by lia.
  rewrite Z.div_add by discriminate. lia.
Qed.

(** [ComputeY] reads only the orientation and the tile size of the
    collector. *)
Lemma ComputeY_reads (vc vc' : VoxelCollector) (x y z : Z) :
  orient vc' = orient vc ->
  tile_width vc' = tile_width vc ->
  tile_height vc' = tile_height vc ->
  ComputeY vc' x y z = ComputeY vc x y z.
Proof. unfold ComputeY. intros -> -> ->. reflexivity. Qed.

Example ComputeX_north_sample :
  ComputeX (sample_collector VOR_NORTH) 256 0 = -32.
Proof. reflexivity. Qed.

Example ComputeX_rounds_down :
  ComputeX (sample_collector VOR_NORTH) 1 0 = -1.
Proof. reflexivity. Qed.

Example ComputeY_south_sample :
  ComputeY (sample_collector VOR_SOUTH) 256 512 768 = -96.
Proof. reflexivity. Qed.

(** C1. For every world position [(x, y, z)] whose projection is computed
    without leaving the range of [int32], and each of the four
    orientations, [ComputeX] is the orientation's sign combination of [x] and
    [y] (NORTH: y-x; WEST: -(x+y); SOUTH: x-y; EAST: x+y) multiplied by
    [tile_width], divided by 2 and divided by 256, and [ComputeY] is the
    orientation's sign combination (NORTH: x+y; WEST: y-x; SOUTH: -(x+y);
    EAST: x-y) multiplied by [tile_width] and divided by 4, minus
    [z * tile_height], divided by 256, in exact integer arithmetic: the
    divisions by 2 and 4 truncate, the division by 256 rounds down. *)
Theorem projector_matches_formulas (vc : VoxelCollector) (x y z : Z) :
  projection_fits vc x y z ->
  ComputeX vc x y = spec_screenX (tile_width vc) (orient vc) x y /\
  ComputeY vc x y z
  = spec_screenY (tile_width vc) (tile_height vc) (orient vc) x y z.
Proof.
  intros Hfits. split.
  - apply (ComputeX_exact vc x y z Hfits).
  - apply (ComputeY_exact vc x y z Hfits).
Qed.

Lemma projector_matches_formulas_witness :
  projection_fits (sample_collector VOR_WEST) 768 1287 512 /\
  (ComputeX (sample_collector VOR_WEST) 768 1287
   = spec_screenX 64 VOR_WEST 768 1287 /\
   ComputeY (sample_collector VOR_WEST) 768 1287 512
   = spec_screenY 64 16 VOR_WEST 768 1287 512).
Proof.
  assert (Hfits : projection_fits (sample_collector VOR_WEST) 768 1287 512)
    by (unfold projection_fits, INT32_MAX; simpl; lia).
  split; [exact Hfits |].
  exact (projector_matches_formulas (sample_collector VOR_WEST) 768 1287 512
                                    Hfits).
Defined.

(** C7. For each of the four orientations and any fixed world [(x, y)],
    tile width and tile height at least 1, the vertical output of the
    projector is a function of the orientation, the tile size and the
    position alone, and it strictly decreases (by [tile_height]) when [z]
    increases by one tile, 256 units, all else fixed. *)
Theorem screenY_decreases_with_height (vc : VoxelCollector) (x y z : Z) :
  projection_fits vc x y z ->
  projection_fits vc x y (z + 256) ->
  1 <= tile_height vc ->
  (forall vc' : VoxelCollector,
      orient vc' = orient vc ->
      tile_width vc' = tile_width vc ->
      tile_height vc' = tile_height vc ->
      ComputeY vc' x y z = ComputeY vc x y z) /\
  ComputeY vc x y (z + 256) = ComputeY vc x y z - tile_height vc /\
  ComputeY vc x y (z + 256) < ComputeY vc x y z.
Proof.
  intros Hz Hz' Hth.
  assert (Hstep : ComputeY vc x y (z + 256)
                  = ComputeY vc x y z - tile_height vc).
  { rewrite (ComputeY_exact vc x y (z + 256) Hz').
    rewrite (ComputeY_exact vc x y z Hz).
    apply spec_screenY_step. }
  split; [| split].
  - intros vc'. apply ComputeY_reads.
  - exact Hstep.
  - rewrite Hstep. lia.
Qed.

Lemma screenY_decreases_with_height_witness :
  ComputeY (sample_collector VOR_EAST) 1024 300 (512 + 256)
  < ComputeY (sample_collector VOR_EAST) 1024 300 512.
Proof.
  assert (H0 : projection_fits (sample_collector VOR_EAST) 1024 300 512)
    by (unfold projection_fits, INT32_MAX; simpl; lia).
  assert (H1 : projection_fits (sample_collector VOR_EAST) 1024 300 (512 + 256))
    by (unfold projection_fits, INT32_MAX; simpl; lia).
  assert (H2 : 1 <= tile_height (sample_collector VOR_EAST))
    by (simpl; lia).
  exact (proj2 (proj2 (screenY_decreases_with_height
                         (sample_collector VOR_EAST) 1024 300 512 H0 H1 H2))).
Defined.

(** ** Depth keys *)

Lemma int32_repr (v : Z) : exists k : Z, int32 v = v + k * 2 ^ 32.
Proof.
  pose proof (int32_eq_mod v) as E.
  apply Z.mod_divide in E; [| discriminate]. destruct E as [k Hk].
  exists k. lia.
Qed.

Lemma int32_add_mul (v k : Z) : int32 (v + k * 2 ^ 32) = int32 v.
Proof.
  apply int32_congr. replace (v + k * 2 ^ 32 - v) with (k * 2 ^ 32) by lia.
  apply Z.mod_mul. discriminate.
Qed.

(** The expression [sx * xpos + sy * ypos + zpos * 256] of both
    [CollectVoxel] functions, for the values [sx] and [sy] of the
    orientation. *)
Lemma depth_key_code (o : ViewOrientation) (xpos ypos zpos : Z) :
  (spec_sign_x o * xpos + spec_sign_y o * ypos + zpos * 256)%i32
  = int32 (depth_key o xpos ypos zpos).
Proof.
  unfold add32, mul32, depth_key.
  destruct (int32_repr (spec_sign_x o * xpos)) as [k1 ->].
  destruct (int32_repr (spec_sign_y o * ypos)) as [k2 ->].
  destruct (int32_repr (zpos * 256)) as [k3 ->].
  rewrite int32_add_l.
  replace (spec_sign_x o * xpos + k1 * 2 ^ 32
           + (spec_sign_y o * ypos + k2 * 2 ^ 32) + (zpos * 256 + k3 * 2 ^ 32))
    with (spec_sign_x o * xpos + spec_sign_y o * ypos + 256 * zpos
          + (k1 + k2 + k3) * 2 ^ 32) by lia.
  apply int32_add_mul.
Qed.

Lemma sx_of_orient (o : ViewOrientation) :
  (if orient_eqb o VOR_NORTH || orient_eqb o VOR_EAST then 256 else -256)
  = spec_sign_x o.
Proof. destruct o; reflexivity. Qed.

Lemma sy_of_orient (o : ViewOrientation) :
  (if orient_eqb o VOR_NORTH || orient_eqb o VOR_WEST then 256 else -256)
  = spec_sign_y o.
Proof. destruct o; reflexivity. Qed.

Section DepthKey.
Variable to_coord : Z -> Z.
Variable GTP_INVALID : Z.
Variable store : SpriteStore.

Let sc_visit := SpriteCollector_CollectVoxel to_coord GTP_INVALID store.
Let pf_visit := PixelFinder_CollectVoxel GTP_INVALID store.

(** What the sprite collector inserts for a surface voxel with a valid
    ground type and a sprite. *)
Lemma SpriteCollector_inserts (sc : SpriteCollector) (svd : SurfaceVoxelData)
      (spr : Sprite) (xpos ypos zpos xnorth ynorth : Z) :
  (ground_type svd =? GTP_INVALID) = false ->
  GetSurfaceSprite store (ground_type svd) (ground_slope svd)
                   (tile_width (sc_base sc)) (orient (sc_base sc)) = Some spr ->
  exists dd : DrawData,
    dd_spr dd = spr /\
    sc_visit sc (SurfaceVoxel svd) xpos ypos zpos xnorth ynorth
    = set_draw_images sc
        (multimap_insert
           (int32 (depth_key (orient (sc_base sc)) xpos ypos zpos), dd)
           (draw_images sc)).
Proof.
  intros Hvalid Hspr. unfold sc_visit, SpriteCollector_CollectVoxel.
  rewrite Hvalid, Hspr. cbv zeta.
  rewrite sx_of_orient, sy_of_orient, depth_key_code.
  eexists. split; [| reflexivity]. reflexivity.
Qed.

(** The pixel finder leaves its state alone or records the depth key. *)
Lemma PixelFinder_records (pf : PixelFinder) (voxel : Voxel)
      (xpos ypos zpos xnorth ynorth : Z) :
  pf_visit pf voxel xpos ypos zpos xnorth ynorth = pf \/
  pf_visit pf voxel xpos ypos zpos xnorth ynorth
  = mkPixelFinder (pf_base pf) true
      (int32 (depth_key (orient (pf_base pf)) xpos ypos zpos))
      (pixel (pf_visit pf voxel xpos ypos zpos xnorth ynorth))
      (uint16 xpos) (uint16 ypos) (uint8 zpos).
Proof.
  unfold pf_visit, PixelFinder_CollectVoxel.
  destruct voxel as [svd | tag]; [| now left].
  destruct (ground_type svd =? GTP_INVALID); [now left |].
  destruct (GetSurfaceSprite store _ _ _ _) as [spr |]; [| now left].
  cbv zeta. rewrite sx_of_orient, sy_of_orient, depth_key_code.
  destruct (found pf && _); [now left |].
  destruct (_ || _); [now left |].
  destruct (uint8 _ =? 0); [now left |].
  right. reflexivity.
Qed.

(** The pixel finder skips a voxel whose depth key does not exceed the
    recorded distance. *)
Lemma PixelFinder_skips (pf : PixelFinder) (voxel : Voxel)
      (xpos ypos zpos xnorth ynorth : Z) :
  found pf = true ->
  int32 (depth_key (orient (pf_base pf)) xpos ypos zpos) <= distance pf ->
  pf_visit pf voxel xpos ypos zpos xnorth ynorth = pf.
Proof.
  intros Hfound Hdist. unfold pf_visit, PixelFinder_CollectVoxel.
  destruct voxel as [svd | tag]; [| reflexivity].
  destruct (ground_type svd =? GTP_INVALID); [reflexivity |].
  destruct (GetSurfaceSprite store _ _ _ _) as [spr |]; [| reflexivity].
  cbv zeta. rewrite sx_of_orient, sy_of_orient, depth_key_code.
  rewrite Hfound. apply Z.leb_le in Hdist. rewrite Hdist. reflexivity.
Qed.

End DepthKey.

(** C2, as amended. For every visited surface voxel at world position
    [(xpos, ypos, zpos)] and every orientation, the sprite collector and the
    pixel finder compute the same depth key,
    [sx * xpos + sy * ypos + 256 * zpos], where [sx] is +256 for NORTH/EAST
    and -256 otherwise and [sy] is +256 for NORTH/WEST and -256 otherwise
    (the key fitting in an [int32]): it is the key of the draw command the
    sprite collector inserts, the distance the pixel finder compares with the
    recorded one, and the distance it records. *)
Theorem collectors_share_depth_key
        (to_coord : Z -> Z) (GTP_INVALID : Z) (store : SpriteStore)
        (o : ViewOrientation) (xpos ypos zpos : Z) :
  in_int32 (depth_key o xpos ypos zpos) ->
  (forall (sc : SpriteCollector) (svd : SurfaceVoxelData) (spr : Sprite)
          (xnorth ynorth : Z),
      orient (sc_base sc) = o ->
      (ground_type svd =? GTP_INVALID) = false ->
      GetSurfaceSprite store (ground_type svd) (ground_slope svd)
                       (tile_width (sc_base sc)) o = Some spr ->
      exists dd : DrawData,
        dd_spr dd = spr /\
        SpriteCollector_CollectVoxel to_coord GTP_INVALID store sc
          (SurfaceVoxel svd) xpos ypos zpos xnorth ynorth
        = set_draw_images sc
            (multimap_insert (depth_key o xpos ypos zpos, dd)
                             (draw_images sc))) /\
  (forall (pf : PixelFinder) (voxel : Voxel) (xnorth ynorth : Z),
      orient (pf_base pf) = o ->
      let pf' := PixelFinder_CollectVoxel GTP_INVALID store pf voxel
                                          xpos ypos zpos xnorth ynorth in
      (found pf = true -> depth_key o xpos ypos zpos <= distance pf ->
       pf' = pf) /\
      (pf' = pf \/
       found pf' = true /\ distance pf' = depth_key o xpos ypos zpos)).
Proof.
  intros Hfit. split.
  - intros sc svd spr xnorth ynorth Ho Hvalid Hspr. subst o.
    destruct (SpriteCollector_inserts to_coord GTP_INVALID store sc svd spr
                xpos ypos zpos xnorth ynorth Hvalid Hspr) as (dd & Hdd & Heq).
    exists dd. split; [exact Hdd |].
    rewrite Heq, (int32_small _ Hfit). reflexivity.
  - intros pf voxel xnorth ynorth Ho pf'. subst o pf'. split.
    + intros Hfound Hdist. apply PixelFinder_skips; [exact Hfound |].
      rewrite (int32_small _ Hfit). exact Hdist.
    + destruct (PixelFinder_records GTP_INVALID store pf voxel
                  xpos ypos zpos xnorth ynorth) as [Hsame | Hrec].
      * left. exact Hsame.
      * right. rewrite Hrec. simpl. rewrite (int32_small _ Hfit). auto.
Qed.

Lemma collectors_share_depth_key_witness :
  exists dd : DrawData,
    SpriteCollector_CollectVoxel int32 sample_GTP_INVALID sample_store
      (sample_sprite_collector VOR_WEST) (SurfaceVoxel (mkSurface 1 0))
      3 5 2 0 0
    = set_draw_images (sample_sprite_collector VOR_WEST)
        (multimap_insert (depth_key VOR_WEST 3 5 2, dd) []).
Proof.
  assert (Hfit : in_int32 (depth_key VOR_WEST 3 5 2))
    by (vm_compute; split; discriminate).
  destruct (proj1 (collectors_share_depth_key int32 sample_GTP_INVALID
                     sample_store VOR_WEST 3 5 2 Hfit)
                  (sample_sprite_collector VOR_WEST) (mkSurface 1 0)
                  (opaque_sprite 1 1) 0 0 eq_refl eq_refl eq_refl)
    as (dd & _ & Heq).
  exists dd. exact Heq.
Defined.

(** C2, as stated, fails: with [sign_x] and [sign_y] equal to +256 or -256
    and multiplied by 256 once more, the formula gives 65536 for the voxel
    (1, 0, 0) seen from the north, where both collectors compute 256. *)
Lemma spec_depth_key_differs :
  map fst (draw_images
             (SpriteCollector_CollectVoxel int32 sample_GTP_INVALID sample_store
                (sample_sprite_collector VOR_NORTH)
                (SurfaceVoxel (mkSurface 1 0)) 1 0 0 0 0)) = [256] /\
  distance (PixelFinder_CollectVoxel sample_GTP_INVALID sample_store
              (sample_pixel_finder VOR_NORTH)
              (SurfaceVoxel (mkSurface 1 0)) 1 0 0 0 0) = 256 /\
  spec_depth_key VOR_NORTH 1 0 0 = 65536.
Proof. repeat split; reflexivity. Qed.

(** ** The column scan *)

Section ColumnScan.
Variable vc : VoxelCollector.
Variables world_x world_y : Z.
Variable stack : VoxelStack.

Let test (count : Z) : VoxelTest :=
  voxel_test vc (north_y_of vc world_x world_y stack count).
Let counts_from (n : nat) (count : Z) : list Z :=
  visited_counts vc world_x world_y stack n count.

(** Which counters are visited by [n] iterations that start at [count]. *)
Lemma visited_counts_spec (n : nat) :
  forall count c : Z,
    In c (counts_from n count) <->
    count <= c < count + Z.of_nat n /\ test c = InWindow /\
    forall j : Z, count <= j < c -> test j <> AboveWindow.
Proof.
  unfold counts_from.
  induction n as [| n IH]; intros count c.
  - simpl. split; [tauto | lia].
  - cbn [visited_counts]. fold (test count).
    rewrite Nat2Z.inj_succ.
    destruct (test count) eqn:Hc.
    + rewrite IH. split.
      * intros (Hr & Hin & Hno). split; [lia |]. split; [exact Hin |].
        intros j Hj. destruct (Z.eq_dec j count) as [-> | Hne].
        -- rewrite Hc. discriminate.
        -- apply Hno. lia.
      * intros (Hr & Hin & Hno).
        assert (c <> count) by (intros ->; rewrite Hc in Hin; discriminate).
        split; [lia |]. split; [exact Hin |].
        intros j Hj. apply Hno. lia.
    + split; [intros [] |].
      intros (Hr & Hin & Hno).
      destruct (Z.eq_dec c count) as [-> | Hne].
      * rewrite Hc in Hin. discriminate.
      * exfalso. apply (Hno count); [lia | exact Hc].
    + simpl. rewrite IH. split.
      * intros [<- | (Hr & Hin & Hno)].
        -- split; [lia |]. split; [exact Hc |]. intros j Hj. lia.
        -- split; [lia |]. split; [exact Hin |].
           intros j Hj. destruct (Z.eq_dec j count) as [-> | Hne].
           ++ rewrite Hc. discriminate.
           ++ apply Hno. lia.
      * intros (Hr & Hin & Hno).
        destruct (Z.eq_dec c count) as [-> | Hne]; [now left | right].
        split; [lia |]. split; [exact Hin |].
        intros j Hj. apply Hno. lia.
Qed.

(** The counters are visited in strictly ascending order. *)
Lemma visited_counts_sorted (n : nat) :
  forall count : Z, StronglySorted Z.lt (counts_from n count).
Proof.
  unfold counts_from.
  induction n as [| n IH]; intros count; cbn [visited_counts].
  - constructor.
  - destruct (voxel_test vc _).
    + apply IH.
    + constructor.
    + constructor; [apply IH |].
      apply Forall_forall. intros c Hc.
      apply (visited_counts_spec n (count + 1) c) in Hc. lia.
Qed.

Section Visitor.
Context {S : Type} `{Collector S}.
Hypothesis base_kept :
  forall (c : S) (v : Voxel) (a b d e f : Z),
    collector_base (CollectVoxel c v a b d e f) = collector_base c.

(** The [count] loop calls [CollectVoxel] on the visited counters, in that
    order, and on nothing else. *)
Lemma stack_loop_visits (xpos ypos north_x : Z) (n : nat) :
  forall (count : Z) (c : S),
    collector_base c = vc ->
    stack_loop n count stack xpos ypos world_x world_y north_x c
    = fold_left (visit_voxel vc stack xpos ypos world_x world_y north_x)
                (counts_from n count) c.
Proof.
  unfold counts_from.
  induction n as [| n IH]; intros count c Hbase; cbn [stack_loop visited_counts].
  - reflexivity.
  - rewrite Hbase. destruct (voxel_test vc _).
    + apply IH. exact Hbase.
    + reflexivity.
    + cbn [fold_left]. unfold visit_voxel at 2. apply IH.
      rewrite base_kept. exact Hbase.
Qed.

End Visitor.

End ColumnScan.

Lemma SpriteCollector_base_kept (to_coord : Z -> Z) (GTP_INVALID : Z)
      (store : SpriteStore) (sc : SpriteCollector) (v : Voxel)
      (a b d e f : Z) :
  sc_base (SpriteCollector_CollectVoxel to_coord GTP_INVALID store sc v
                                        a b d e f) = sc_base sc.
Proof.
  unfold SpriteCollector_CollectVoxel.
  destruct v as [svd | tag]; [| reflexivity].
  destruct (ground_type svd =? GTP_INVALID); [reflexivity |].
  destruct (GetSurfaceSprite store _ _ _ _); reflexivity.
Qed.

Lemma PixelFinder_base_kept (GTP_INVALID : Z) (store : SpriteStore)
      (pf : PixelFinder) (v : Voxel) (a b d e f : Z) :
  pf_base (PixelFinder_CollectVoxel GTP_INVALID store pf v a b d e f)
  = pf_base pf.
Proof.
  destruct (PixelFinder_records GTP_INVALID store pf v a b d e f)
    as [-> | ->]; reflexivity.
Qed.

Lemma voxel_test_below (vc : VoxelCollector) (north_y : Z) :
  voxel_test vc north_y = BelowWindow <-> voxel_below_window vc north_y = true.
Proof.
  unfold voxel_test.
  destruct (voxel_below_window vc north_y), (voxel_above_window vc north_y);
    split; intros E; try reflexivity; discriminate.
Qed.

Lemma voxel_test_above (vc : VoxelCollector) (north_y : Z) :
  voxel_test vc north_y = AboveWindow <->
  voxel_below_window vc north_y = false /\
  voxel_above_window vc north_y = true.
Proof.
  unfold voxel_test.
  destruct (voxel_below_window vc north_y), (voxel_above_window vc north_y);
    split; intros E; try (split; reflexivity); try reflexivity;
    try discriminate; destruct E; discriminate.
Qed.

Lemma voxel_test_in (vc : VoxelCollector) (north_y : Z) :
  voxel_test vc north_y = InWindow <->
  voxel_below_window vc north_y = false /\
  voxel_above_window vc north_y = false.
Proof.
  unfold voxel_test.
  destruct (voxel_below_window vc north_y), (voxel_above_window vc north_y);
    split; intros E; try (split; reflexivity); try reflexivity;
    try discriminate; destruct E; discriminate.
Qed.

(** Without overflow, a voxel can meet both tests only with a tile height
    of zero. *)
Lemma both_tests_flat (vc : VoxelCollector) (north_y : Z) :
  voxel_tests_fit vc north_y ->
  voxel_below_window vc north_y = true ->
  voxel_above_window vc north_y = true ->
  tile_height vc = 0.
Proof.
  intros (Htw & Hth & Hh & Hby & Hbh & Hlo & Hmid & Hhi).
  unfold voxel_below_window, voxel_above_window, add32, sub32, div32.
  change (2 ^ 16) with 65536 in *.
  pose proof (quot_bound (tile_width vc) 2 (tile_width vc) ltac:(lia)
                         ltac:(lia)) as Hq.
  assert (Hq0 : 0 <= Z.quot (tile_width vc) 2)
    by (apply Z.quot_pos; lia).
  rewrite (int32_small (Z.quot (tile_width vc) 2))
    by (unfold in_int32, INT32_MIN, INT32_MAX; lia).
  rewrite int32_idem.
  rewrite (int32_small (north_y - tile_height vc)) by assumption.
  rewrite (int32_small (py (base (rect vc)) + height (rect vc))) by assumption.
  rewrite (int32_small (north_y + Z.quot (tile_width vc) 2)) by assumption.
  rewrite (int32_small (north_y + Z.quot (tile_width vc) 2 + tile_height vc))
    by assumption.
  rewrite (int32_small (py (base (rect vc)))) by assumption.
  intros Hbelow Habove.
  rewrite Z.geb_leb in Hbelow. apply Z.leb_le in Hbelow, Habove. lia.
Qed.

Lemma mul32_0_r (a : Z) : mul32 a 0 = 0.
Proof. unfold mul32. rewrite Z.mul_0_r. reflexivity. Qed.

(** With a tile height of zero all voxels of a column have the same north
    corner. *)
Lemma north_y_flat (vc : VoxelCollector) (world_x world_y : Z)
      (stack : VoxelStack) (c k : Z) :
  tile_height vc = 0 ->
  north_y_of vc world_x world_y stack c = north_y_of vc world_x world_y stack k.
Proof.
  intros Hflat. unfold north_y_of, ComputeY. rewrite Hflat.
  cbv zeta. rewrite !mul32_0_r. reflexivity.
Qed.

(** C3. For every column the voxel collector scans, the voxels handed to
    [CollectVoxel] (by either collector) are those of [visited], in that
    order, and [visited] is strictly ascending: bottom to top.  A voxel
    whose north corner screen Y minus [tile_height] is at or below the bottom
    of the rectangle is skipped while the scan continues upward: a voxel
    [c] of the stack is visited exactly when it passes both tests and no
    voxel under it met the break.  At a voxel [k] that is not skipped and
    whose screen Y plus [tile_width / 2 + tile_height] is at or above the top
    of the rectangle the scan of the column ends: every visited voxel is
    lower than [k].  The same holds for any voxel [k] that meets the second
    test when the two tests on it are computed without overflow: a voxel
    that meets both tests has a tile height of zero, and then no voxel of
    the column is visited. *)
Theorem column_scan_bottom_up_with_break
        (vc : VoxelCollector) (world_x world_y : Z) (stack : VoxelStack) :
  let n := Z.to_nat (stack_height stack) in
  let north_y := north_y_of vc world_x world_y stack in
  let below := fun k : Z => voxel_below_window vc (north_y k) in
  let above := fun k : Z => voxel_above_window vc (north_y k) in
  let visited := visited_counts vc world_x world_y stack n 0 in
  (forall (to_coord : Z -> Z) (GTP_INVALID : Z) (store : SpriteStore)
          (sc : SpriteCollector) (xpos ypos north_x : Z),
      sc_base sc = vc ->
      @stack_loop _ (SpriteCollector_Collector to_coord GTP_INVALID store)
                  n 0 stack xpos ypos world_x world_y north_x sc
      = fold_left
          (@visit_voxel _ (SpriteCollector_Collector to_coord GTP_INVALID store)
                        vc stack xpos ypos world_x world_y north_x)
          visited sc) /\
  (forall (GTP_INVALID : Z) (store : SpriteStore)
          (pf : PixelFinder) (xpos ypos north_x : Z),
      pf_base pf = vc ->
      @stack_loop _ (PixelFinder_Collector GTP_INVALID store)
                  n 0 stack xpos ypos world_x world_y north_x pf
      = fold_left
          (@visit_voxel _ (PixelFinder_Collector GTP_INVALID store)
                        vc stack xpos ypos world_x world_y north_x)
          visited pf) /\
  StronglySorted Z.lt visited /\
  (forall c : Z,
      In c visited <->
      0 <= c < stack_height stack /\ below c = false /\ above c = false /\
      forall j : Z, 0 <= j < c -> ~ (below j = false /\ above j = true)) /\
  (forall k : Z, below k = true -> ~ In k visited) /\
  (forall k : Z,
      0 <= k -> below k = false -> above k = true ->
      forall c : Z, In c visited -> c < k) /\
  (forall k : Z,
      0 <= k -> above k = true -> voxel_tests_fit vc (north_y k) ->
      forall c : Z, In c visited -> c < k).
Proof.
  intros n north_y below above visited.
  assert (Hspec : forall c : Z,
             In c visited <->
             0 <= c < stack_height stack /\ below c = false /\ above c = false /\
             forall j : Z, 0 <= j < c -> ~ (below j = false /\ above j = true)).
  { intros c. unfold visited.
    rewrite (visited_counts_spec vc world_x world_y stack n 0 c).
    rewrite voxel_test_in. fold north_y. fold (below c) (above c).
    split.
    - intros (Hr & Hin & Hno). split; [lia |]. destruct Hin as [Hb Ha].
      split; [exact Hb |]. split; [exact Ha |].
      intros j Hj Habove. apply (Hno j Hj).
      apply voxel_test_above. exact Habove.
    - intros (Hr & Hb & Ha & Hno). split; [lia |]. split; [now split |].
      intros j Hj Habove. apply (Hno j Hj).
      apply voxel_test_above. exact Habove. }
  assert (Hbreak : forall k : Z,
             0 <= k -> below k = false -> above k = true ->
             forall c : Z, In c visited -> c < k).
  { intros k Hk Hbelow Habove c Hin. apply Hspec in Hin.
    destruct Hin as (Hr & _ & Ha & Hno).
    destruct (Z_lt_ge_dec c k) as [Hlt | Hge]; [exact Hlt | exfalso].
    destruct (Z.eq_dec c k) as [-> | Hne].
    - congruence.
    - apply (Hno k); [lia | now split]. }
  split; [| split; [| split; [| split; [| split; [| split]]]]].
  - intros to_coord GTP_INVALID store sc xpos ypos north_x Hbase.
    apply (@stack_loop_visits vc world_x world_y stack _
             (SpriteCollector_Collector to_coord GTP_INVALID store)).
    + intros c v a b d e f. apply SpriteCollector_base_kept.
    + exact Hbase.
  - intros GTP_INVALID store pf xpos ypos north_x Hbase.
    apply (@stack_loop_visits vc world_x world_y stack _
             (PixelFinder_Collector GTP_INVALID store)).
    + intros c v a b d e f. apply PixelFinder_base_kept.
    + exact Hbase.
  - apply visited_counts_sorted.
  - exact Hspec.
  - intros k Hbelow Hin. apply Hspec in Hin.
    destruct Hin as (_ & Hb & _). congruence.
  - exact Hbreak.
  - intros k Hk Habove Hfit c Hin.
    destruct (below k) eqn:Hbelow.
    + exfalso.
      pose proof (both_tests_flat vc (north_y k) Hfit Hbelow Habove) as Hflat.
      apply Hspec in Hin. destruct Hin as (_ & Hb & _).
      unfold below, north_y in Hb, Hbelow.
      rewrite (north_y_flat vc world_x world_y stack c k Hflat) in Hb.
      congruence.
    + apply (Hbreak k Hk Hbelow Habove c Hin).
Qed.

Example column_scan_sample :
  visited_counts
    (mkVoxelCollector 0 0 0 64 16 VOR_NORTH
                      (mkRectangle (mkPoint 0 (-100)) 1 40))
    0 0 (mkStack (fun _ => OtherVoxel 0) 0 12) 12 0
  = [3; 4; 5; 6; 7; 8; 9].
Proof. reflexivity. Qed.

(** ** The pixel finder *)

Section Picking.
Variable GTP_INVALID : Z.
Variable store : SpriteStore.

Let visit := PixelFinder_visit GTP_INVALID store.

(** A candidate with an opaque pixel under the probe is recorded unless a
    result with a key at least as large was found before. *)
Lemma PixelFinder_visit_hit (pf : PixelFinder) (v : Visit) :
  PixelFinder_hits GTP_INVALID store (pf_base pf) v = true ->
  (found pf && (visit_key (orient (pf_base pf)) v <=? distance pf)) = false ->
  found (visit pf v) = true /\
  distance (visit pf v) = visit_key (orient (pf_base pf)) v /\
  pf_xvoxel (visit pf v) = uint16 (v_xpos v) /\
  pf_yvoxel (visit pf v) = uint16 (v_ypos v) /\
  pf_zvoxel (visit pf v) = uint8 (v_zpos v).
Proof.
  unfold visit, PixelFinder_visit, PixelFinder_hits, PixelFinder_CollectVoxel,
    visit_key.
  destruct (v_voxel v) as [svd | tag]; [| discriminate].
  destruct (ground_type svd =? GTP_INVALID); [discriminate |].
  destruct (GetSurfaceSprite store _ _ _ _) as [spr |]; [| discriminate].
  cbv zeta. rewrite sx_of_orient, sy_of_orient, depth_key_code.
  intros Hhit Hnear. rewrite Hnear.
  destruct (_ || _); [discriminate |].
  destruct (uint8 _ =? 0); [discriminate |].
  simpl. repeat split; reflexivity.
Qed.

(** Once a result is found, the recorded distance never decreases. *)
Lemma PixelFinder_distance_grows (pf : PixelFinder) (v : Visit) (k : Z) :
  found pf = true -> k <= distance pf ->
  found (visit pf v) = true /\ k <= distance (visit pf v).
Proof.
  intros Hfound Hk. unfold visit, PixelFinder_visit.
  destruct (Z_le_gt_dec (visit_key (orient (pf_base pf)) v) (distance pf))
    as [Hle | Hgt].
  - rewrite (PixelFinder_skips GTP_INVALID store pf _ _ _ _ _ _ Hfound Hle).
    now split.
  - destruct (PixelFinder_records GTP_INVALID store pf (v_voxel v) (v_xpos v)
                (v_ypos v) (v_zpos v) (v_xnorth v) (v_ynorth v))
      as [-> | ->].
    + now split.
    + simpl. split; [reflexivity |]. unfold visit_key in Hgt. lia.
Qed.

Lemma PixelFinder_visits_grow (vs : list Visit) :
  forall (pf : PixelFinder) (k : Z),
    found pf = true -> k <= distance pf ->
    found (fold_left visit vs pf) = true /\
    k <= distance (fold_left visit vs pf) /\
    pf_base (fold_left visit vs pf) = pf_base pf.
Proof.
  induction vs as [| v vs IH]; intros pf k Hfound Hk; simpl.
  - now repeat split.
  - destruct (PixelFinder_distance_grows pf v k Hfound Hk) as [Hf' Hk'].
    destruct (IH (visit pf v) k Hf' Hk') as (Hf'' & Hk'' & Hb).
    repeat split; try assumption.
    rewrite Hb. apply PixelFinder_base_kept.
Qed.

(** After a visit of a candidate with an opaque pixel, a result with a key
    at least the candidate's is recorded. *)
Lemma PixelFinder_after_hit (pf : PixelFinder) (v : Visit) :
  PixelFinder_hits GTP_INVALID store (pf_base pf) v = true ->
  found (visit pf v) = true /\
  visit_key (orient (pf_base pf)) v <= distance (visit pf v).
Proof.
  intros Hhit.
  destruct (found pf && (visit_key (orient (pf_base pf)) v <=? distance pf))
    eqn:Hnear.
  - apply andb_true_iff in Hnear. destruct Hnear as [Hfound Hle].
    apply Z.leb_le in Hle. unfold visit, PixelFinder_visit.
    rewrite (PixelFinder_skips GTP_INVALID store pf _ _ _ _ _ _ Hfound Hle).
    now split.
  - destruct (PixelFinder_visit_hit pf v Hhit Hnear) as (Hf & Hd & _).
    split; [exact Hf | rewrite Hd; lia].
Qed.

End Picking.

(** C4. In the pixel finder a candidate is skipped whenever a result has
    already been found whose recorded depth key is greater than or equal to
    the candidate's depth key.  Consequently, for two candidates with
    identical depth keys whose sprites both have a non-transparent pixel
    under the probe, the one visited first wins: whatever is visited between
    them, the visit of the second changes nothing, and when nothing was found
    before the first, the first is the voxel recorded after both. *)
Theorem pixel_finder_first_found_wins
        (GTP_INVALID : Z) (store : SpriteStore) (pf : PixelFinder)
        (v1 v2 : Visit) (between : list Visit) :
  PixelFinder_hits GTP_INVALID store (pf_base pf) v1 = true ->
  PixelFinder_hits GTP_INVALID store (pf_base pf) v2 = true ->
  visit_key (orient (pf_base pf)) v1 = visit_key (orient (pf_base pf)) v2 ->
  let visit := PixelFinder_visit GTP_INVALID store in
  let pf1 := visit pf v1 in
  let pf' := fold_left visit between pf1 in
  (forall (p : PixelFinder) (v : Visit),
      found p = true -> visit_key (orient (pf_base p)) v <= distance p ->
      visit p v = p) /\
  visit pf' v2 = pf' /\
  (found pf = false ->
   visit pf1 v2 = pf1 /\
   found pf1 = true /\
   distance pf1 = visit_key (orient (pf_base pf)) v1 /\
   pf_xvoxel pf1 = uint16 (v_xpos v1) /\
   pf_yvoxel pf1 = uint16 (v_ypos v1) /\
   pf_zvoxel pf1 = uint8 (v_zpos v1)).
Proof.
  intros Hhit1 Hhit2 Hkey visit pf1 pf'.
  assert (Hskip : forall (p : PixelFinder) (v : Visit),
             found p = true -> visit_key (orient (pf_base p)) v <= distance p ->
             visit p v = p).
  { intros p v Hfound Hle. unfold visit, PixelFinder_visit.
    apply PixelFinder_skips; assumption. }
  destruct (PixelFinder_after_hit GTP_INVALID store pf v1 Hhit1)
    as [Hfound1 Hdist1].
  fold visit in Hfound1, Hdist1. fold pf1 in Hfound1, Hdist1.
  assert (Hbase1 : pf_base pf1 = pf_base pf)
    by apply PixelFinder_base_kept.
  split; [exact Hskip |]. split.
  - destruct (PixelFinder_visits_grow GTP_INVALID store between pf1 _
                Hfound1 Hdist1) as (Hf & Hd & Hb).
    fold visit in Hf, Hd, Hb. fold pf' in Hf, Hd, Hb.
    apply Hskip; [exact Hf |]. rewrite Hb, Hbase1, <- Hkey. exact Hd.
  - intros Hnone. split.
    + apply Hskip; [exact Hfound1 |]. rewrite Hbase1, <- Hkey. exact Hdist1.
    + split; [exact Hfound1 |].
      apply (PixelFinder_visit_hit GTP_INVALID store pf v1 Hhit1).
      rewrite Hnone. reflexivity.
Qed.

Lemma pixel_finder_first_found_wins_witness :
  PixelFinder_visit sample_GTP_INVALID sample_store
    (PixelFinder_visit sample_GTP_INVALID sample_store
       (sample_pixel_finder VOR_NORTH) sample_visit_first)
    sample_visit_second
  = PixelFinder_visit sample_GTP_INVALID sample_store
      (sample_pixel_finder VOR_NORTH) sample_visit_first.
Proof.
  exact (proj1 (proj2 (proj2
           (pixel_finder_first_found_wins sample_GTP_INVALID sample_store
              (sample_pixel_finder VOR_NORTH)
              sample_visit_first sample_visit_second []
              eq_refl eq_refl eq_refl)) eq_refl)).
Defined.

Example first_found_is_recorded :
  pf_xvoxel (PixelFinder_visit sample_GTP_INVALID sample_store
               (PixelFinder_visit sample_GTP_INVALID sample_store
                  (sample_pixel_finder VOR_NORTH) sample_visit_first)
               sample_visit_second) = 1.
Proof. reflexivity. Qed.

(** ** Panning *)

Lemma Clamp_range (a lo hi : Z) : lo <= hi -> lo <= Clamp a lo hi <= hi.
Proof.
  intros Hle. unfold Clamp.
  destruct (Z.leb_spec a lo); [lia |].
  destruct (a >=? hi) eqn:Hge; [lia |].
  rewrite Z.geb_leb in Hge. apply Z.leb_gt in Hge. lia.
Qed.

(** The view center after [MoveViewport] is the clamped target, whether or
    not the viewport was written. *)
Lemma MoveViewport_center (w : World) (vp : Viewport) (dx dy : Z) :
  (vp_xview (MoveViewport w vp dx dy), vp_yview (MoveViewport w vp dx dy))
  = MoveViewport_clamped w vp dx dy.
Proof.
  unfold MoveViewport, MoveViewport_clamped.
  destruct (MoveViewport_target vp dx dy) as [new_x new_y]. cbn [fst snd].
  destruct (negb (_ =? vp_xview vp) || negb (_ =? vp_yview vp)) eqn:Hchg.
  - reflexivity.
  - apply orb_false_iff in Hchg. destruct Hchg as [Hx Hy].
    apply negb_false_iff, Z.eqb_eq in Hx, Hy. congruence.
Qed.

Lemma MoveViewport_keeps (w : World) (vp : Viewport) (dx dy : Z) :
  orientation (MoveViewport w vp dx dy) = orientation vp /\
  vp_tile_width (MoveViewport w vp dx dy) = vp_tile_width vp.
Proof.
  unfold MoveViewport.
  destruct (MoveViewport_target vp dx dy) as [new_x new_y].
  destruct (negb _ || negb _); split; reflexivity.
Qed.

(** C5. For every pan delta, every orientation and every starting view
    center, on a world whose extent fits in an [int32], the view center after
    [MoveViewport] lies within [0, worldXSize*256] x [0, worldYSize*256];
    and if the clamped new center equals the current center, the viewport is
    left as it is: the view center is unchanged and no redraw signal is
    emitted. *)
Theorem MoveViewport_stays_in_world
        (w : World) (vp : Viewport) (dx dy : Z) :
  world_fits w ->
  let vp' := MoveViewport w vp dx dy in
  (0 <= vp_xview vp' <= GetXSize w * 256 /\
   0 <= vp_yview vp' <= GetYSize w * 256) /\
  (MoveViewport_clamped w vp dx dy = (vp_xview vp, vp_yview vp) ->
   vp' = vp /\
   vp_xview vp' = vp_xview vp /\ vp_yview vp' = vp_yview vp /\
   dirty_marks vp' = dirty_marks vp).
Proof.
  intros [Hx Hy] vp'. split.
  - pose proof (MoveViewport_center w vp dx dy) as Hc. fold vp' in Hc.
    unfold MoveViewport_clamped in Hc. unfold mul32 in Hc.
    rewrite !int32_small in Hc
      by (unfold in_int32, INT32_MIN, INT32_MAX in *; lia).
    injection Hc as -> ->.
    split; apply Clamp_range; lia.
  - intros Hsame.
    assert (Hvp : vp' = vp).
    { unfold vp', MoveViewport. unfold MoveViewport_clamped in Hsame.
      destruct (MoveViewport_target vp dx dy) as [new_x new_y].
      cbn [fst snd] in Hsame. injection Hsame as -> ->.
      rewrite !Z.eqb_refl. reflexivity. }
    rewrite Hvp. repeat split; reflexivity.
Qed.

Lemma MoveViewport_stays_in_world_witness :
  0 <= vp_xview (MoveViewport sample_world (sample_viewport VOR_NORTH)
                              (-100000) 0) <= GetXSize sample_world * 256.
Proof.
  assert (Hfits : world_fits sample_world)
    by (vm_compute; repeat split; discriminate).
  exact (proj1 (proj1 (MoveViewport_stays_in_world
                         sample_world (sample_viewport VOR_NORTH)
                         (-100000) 0 Hfits))).
Defined.

Example pan_is_clamped :
  vp_xview (MoveViewport sample_world (sample_viewport VOR_NORTH) (-100000) 0)
  = 0 /\
  vp_yview (MoveViewport sample_world (sample_viewport VOR_NORTH) (-100000) 0)
  = 32768.
Proof. split; reflexivity. Qed.

Example absorbed_pan_is_silent :
  MoveViewport sample_world
    (MoveViewport sample_world (sample_viewport VOR_NORTH) (-100000) 0)
    (-8) 0
  = MoveViewport sample_world (sample_viewport VOR_NORTH) (-100000) 0.
Proof. reflexivity. Qed.

(** Linear goals over [int32] values: every conversion becomes a remainder
    by the constant [2^32], which [lia] handles as a Euclidean division. *)
Ltac int32_lia :=
  unfold add32, sub32, mul32, neg32, int32, wrap_signed,
    in_int32, INT32_MIN, INT32_MAX in *;
  change (2 ^ (32 - 1)) with 2147483648 in *;
  change (2 ^ 32) with 4294967296 in *;
  change (2 ^ 31) with 2147483648 in *;
  Z.to_euclidean_division_equations; lia.

Lemma quot_0_r (a : Z) : Z.quot a 0 = 0.
Proof. destruct a; reflexivity. Qed.

Lemma quot_opp_any (a b : Z) : Z.quot (- a) b = - Z.quot a b.
Proof.
  destruct (Z.eq_dec b 0) as [-> | Hb].
  - rewrite !quot_0_r. reflexivity.
  - apply Z.quot_opp_l. exact Hb.
Qed.

Lemma quot_abs_le (a b m : Z) : - m <= a <= m -> - m <= Z.quot a b <= m.
Proof.
  intros Ha.
  destruct (Z.eq_dec b 0) as [-> | Hb].
  - rewrite quot_0_r. lia.
  - destruct (Z_lt_ge_dec 0 b) as [Hpos | Hneg].
    + apply quot_bound; assumption.
    + replace b with (- (- b)) by lia. rewrite Z.quot_opp_r by lia.
      pose proof (quot_bound a (- b) m ltac:(lia) Ha). lia.
Qed.

(** The scaled deltas of [MoveViewport] when the products fit. *)
Lemma pan_step (d c tw : Z) :
  - INT32_MAX <= d * c <= INT32_MAX ->
  div32 (mul32 d c) tw = Z.quot (d * c) tw /\
  div32 (mul32 (- d)%Z c) tw = - Z.quot (d * c) tw /\
  - INT32_MAX <= Z.quot (d * c) tw <= INT32_MAX.
Proof.
  intros Hfit.
  pose proof (quot_abs_le (d * c) tw INT32_MAX Hfit) as Hq.
  unfold div32, mul32.
  rewrite (int32_small (d * c)) by (apply in_int32_of_bound; exact Hfit).
  rewrite (int32_small (Z.quot (d * c) tw))
    by (apply in_int32_of_bound; exact Hq).
  replace (- d * c) with (- (d * c)) by lia.
  rewrite (int32_small (- (d * c))) by (apply in_int32_of_bound; lia).
  rewrite quot_opp_any.
  rewrite int32_small by (apply in_int32_of_bound; lia).
  auto.
Qed.

(** Going to the target of a pan and from there to the target of the
    opposite pan leads back to the start. *)
Lemma pan_target_round_trip (vp vp1 : Viewport) (dx dy : Z) :
  in_int32 (vp_xview vp) -> in_int32 (vp_yview vp) ->
  pan_fits dx dy ->
  orientation vp1 = orientation vp ->
  vp_tile_width vp1 = vp_tile_width vp ->
  (vp_xview vp1, vp_yview vp1) = MoveViewport_target vp dx dy ->
  MoveViewport_target vp1 (- dx) (- dy) = (vp_xview vp, vp_yview vp).
Proof.
  intros Hx Hy [Hdx Hdy] Ho Htw Hc.
  unfold MoveViewport_target in *. rewrite Ho, Htw.
  destruct (pan_step dx 256 (vp_tile_width vp) Hdx) as (Ea & Ea' & Ha).
  destruct (pan_step dy 512 (vp_tile_width vp) Hdy) as (Eb & Eb' & Hb).
  rewrite Ea, Eb in Hc. rewrite Ea', Eb'. clear Ea Ea' Eb Eb'.
  remember (Z.quot (dx * 256) (vp_tile_width vp)) as a eqn:Heqa.
  remember (Z.quot (dy * 512) (vp_tile_width vp)) as b eqn:Heqb.
  clear Heqa Heqb Hdx Hdy Ho Htw.
  revert Hc.
  destruct (orientation vp); intros Hc; injection Hc as Hx1 Hy1;
    rewrite Hx1, Hy1; clear Hx1 Hy1; f_equal; int32_lia.
Qed.

(** C6. For every pan delta [(dx, dy)] whose scaled products fit in an
    [int32], every orientation and every starting view center such that
    neither the pan by [(dx, dy)] nor the pan by [(-dx, -dy)] triggers
    boundary clamping, [MoveViewport (dx, dy)] followed by
    [MoveViewport (-dx, -dy)] returns the view center to its original
    value. *)
Theorem pan_and_back_restores_center
        (w : World) (vp : Viewport) (dx dy : Z) :
  in_int32 (vp_xview vp) -> in_int32 (vp_yview vp) ->
  pan_fits dx dy ->
  pan_unclamped w vp dx dy ->
  pan_unclamped w (MoveViewport w vp dx dy) (- dx) (- dy) ->
  let vp2 := MoveViewport w (MoveViewport w vp dx dy) (- dx) (- dy) in
  vp_xview vp2 = vp_xview vp /\ vp_yview vp2 = vp_yview vp.
Proof.
  intros Hx Hy Hfits Hfree1 Hfree2 vp2.
  pose proof (MoveViewport_center w vp dx dy) as Hc1.
  rewrite Hfree1 in Hc1.
  destruct (MoveViewport_keeps w vp dx dy) as [Ho Htw].
  pose proof (pan_target_round_trip vp (MoveViewport w vp dx dy) dx dy
                Hx Hy Hfits Ho Htw Hc1) as Hback.
  pose proof (MoveViewport_center w (MoveViewport w vp dx dy) (- dx) (- dy))
    as Hc2.
  fold vp2 in Hc2. rewrite Hfree2, Hback in Hc2.
  injection Hc2 as -> ->. split; reflexivity.
Qed.

Lemma pan_and_back_restores_center_witness :
  vp_xview (MoveViewport sample_world
              (MoveViewport sample_world (sample_viewport VOR_EAST) 24 8)
              (- 24) (- 8)) = 16384 /\
  vp_yview (MoveViewport sample_world
              (MoveViewport sample_world (sample_viewport VOR_EAST) 24 8)
              (- 24) (- 8)) = 16384.
Proof.
  assert (Hx : in_int32 (vp_xview (sample_viewport VOR_EAST)))
    by (vm_compute; split; discriminate).
  assert (Hy : in_int32 (vp_yview (sample_viewport VOR_EAST)))
    by (vm_compute; split; discriminate).
  assert (Hfits : pan_fits 24 8)
    by (vm_compute; repeat split; discriminate).
  exact (pan_and_back_restores_center sample_world (sample_viewport VOR_EAST)
           24 8 Hx Hy Hfits eq_refl eq_refl).
Defined.

Example pan_moves_center :
  vp_xview (MoveViewport sample_world (sample_viewport VOR_EAST) 24 8) = 16224
  /\ vp_yview (MoveViewport sample_world (sample_viewport VOR_EAST) 24 8)
     = 16352
  /\ dirty_marks (MoveViewport sample_world (sample_viewport VOR_EAST) 24 8)
     = 1%nat.
Proof. repeat split; reflexivity. Qed.

(** ** Rotation *)

Lemma Rotate_val_step (o : ViewOrientation) (direction : Z) :
  Rotate_val o direction
  = (orient_val o + (if direction >? 0 then 1 else -1)) mod VOR_NUM_ORIENT.
Proof.
  unfold Rotate_val. destruct o, (direction >? 0); reflexivity.
Qed.

Lemma Rotate_val_range (o : ViewOrientation) (direction : Z) :
  0 <= Rotate_val o direction < VOR_NUM_ORIENT.
Proof.
  rewrite Rotate_val_step. apply Z.mod_pos_bound. reflexivity.
Qed.

Lemma orient_val_of_val (v : Z) :
  0 <= v < VOR_NUM_ORIENT -> orient_val (orient_of_val v) = v.
Proof.
  unfold VOR_NUM_ORIENT. intros Hv.
  assert (Hcases : v = 0 \/ v = 1 \/ v = 2 \/ v = 3) by lia.
  destruct Hcases as [-> | [-> | [-> | ->]]]; reflexivity.
Qed.

Section Rotation.
Variable to_coord : Z -> Z.
Variable GTP_INVALID : Z.
Variable w : World.
Variable store : SpriteStore.

Let cursor := ComputeCursorPosition to_coord GTP_INVALID w store.
Let rotate := Rotate to_coord GTP_INVALID w store.

(** [ComputeCursorPosition] keeps the orientation and never takes back a
    redraw signal. *)
Lemma ComputeCursorPosition_keeps (vp : Viewport) :
  orientation (cursor vp) = orientation vp /\
  (dirty_marks vp <= dirty_marks (cursor vp))%nat.
Proof.
  unfold cursor, ComputeCursorPosition.
  destruct (found _ && _); simpl; split; auto.
Qed.

Lemma Rotate_orientation (vp : Viewport) (direction : Z) :
  orientation (rotate vp direction)
  = orient_of_val (Rotate_val (orientation vp) direction).
Proof.
  unfold rotate, Rotate. cbv zeta. unfold MarkDirty. cbn [orientation].
  fold (cursor (set_orientation vp
                  (orient_of_val (Rotate_val (orientation vp) direction)))).
  rewrite (proj1 (ComputeCursorPosition_keeps _)). reflexivity.
Qed.

Lemma Rotate_marks_dirty (vp : Viewport) (direction : Z) :
  dirty_marks (rotate vp direction)
  = Datatypes.S
      (dirty_marks
         (cursor (set_orientation vp
                    (orient_of_val (Rotate_val (orientation vp) direction)))))
  /\ (dirty_marks vp < dirty_marks (rotate vp direction))%nat.
Proof.
  unfold rotate, Rotate. cbv zeta. unfold MarkDirty. cbn [dirty_marks].
  fold (cursor (set_orientation vp
                  (orient_of_val (Rotate_val (orientation vp) direction)))).
  split; [reflexivity |].
  pose proof (proj2 (ComputeCursorPosition_keeps
                       (set_orientation vp
                          (orient_of_val
                             (Rotate_val (orientation vp) direction))))) as Hle.
  simpl in Hle. lia.
Qed.

End Rotation.

(** C8. For every starting orientation and every rotation direction,
    applying [Rotate] four times with that same direction returns the
    orientation to its original value; each single [Rotate] advances the
    orientation by exactly +1 (positive direction, clockwise) or -1 (negative
    direction) modulo 4, and always signals a redraw. *)
Theorem Rotate_cycles_and_redraws
        (to_coord : Z -> Z) (GTP_INVALID : Z) (w : World) (store : SpriteStore)
        (vp : Viewport) (direction : Z) :
  let rotate := fun v : Viewport =>
                  Rotate to_coord GTP_INVALID w store v direction in
  orientation (rotate (rotate (rotate (rotate vp)))) = orientation vp /\
  (0 < direction ->
   orient_val (orientation (rotate vp))
   = (orient_val (orientation vp) + 1) mod 4) /\
  (direction < 0 ->
   orient_val (orientation (rotate vp))
   = (orient_val (orientation vp) - 1) mod 4) /\
  (dirty_marks vp < dirty_marks (rotate vp))%nat.
Proof.
  intros rotate. unfold rotate.
  split; [| split; [| split]].
  - rewrite !Rotate_orientation. unfold Rotate_val.
    destruct (orientation vp), (direction >? 0); reflexivity.
  - intros Hpos. rewrite Rotate_orientation.
    rewrite orient_val_of_val by apply Rotate_val_range.
    rewrite Rotate_val_step.
    replace (direction >? 0) with true; [reflexivity |].
    symmetry. rewrite Z.gtb_ltb. apply Z.ltb_lt. exact Hpos.
  - intros Hneg. rewrite Rotate_orientation.
    rewrite orient_val_of_val by apply Rotate_val_range.
    rewrite Rotate_val_step.
    replace (direction >? 0) with false; [reflexivity |].
    symmetry. rewrite Z.gtb_ltb. apply Z.ltb_ge. lia.
  - apply Rotate_marks_dirty.
Qed.

Example Rotate_clockwise_sample :
  orientation (Rotate int32 sample_GTP_INVALID sample_world sample_store
                      (sample_viewport VOR_WEST) 1) = VOR_NORTH.
Proof. rewrite Rotate_orientation. reflexivity. Qed.

(** ** Voxels that contribute nothing *)

Section Untouched.
Variable w : World.
Context {S : Type} `{Collector S}.

(** No voxel of the world changes the collector. *)
Hypothesis voxels_ignored :
  forall (c : S) (xpos ypos count a b d e f : Z),
    CollectVoxel c (voxels (GetStack w xpos ypos) count) a b d e f = c.

Lemma stack_loop_untouched (xpos ypos world_x world_y north_x : Z) (n : nat) :
  forall (count : Z) (c : S),
    stack_loop n count (GetStack w xpos ypos) xpos ypos world_x world_y
               north_x c = c.
Proof.
  induction n as [| n IH]; intros count c; cbn [stack_loop].
  - reflexivity.
  - destruct (voxel_test _ _).
    + apply IH.
    + reflexivity.
    + rewrite voxels_ignored. apply IH.
Qed.

Lemma collect_column_untouched (xpos world_x ypos : Z) (c : S) :
  collect_column w xpos world_x ypos c = c.
Proof.
  unfold collect_column.
  destruct (column_left_of_window _ _); [reflexivity |].
  destruct (column_right_of_window _ _); [reflexivity |].
  apply stack_loop_untouched.
Qed.

Lemma ypos_loop_untouched (xpos world_x : Z) (n : nat) :
  forall (ypos : Z) (c : S), ypos_loop w n ypos xpos world_x c = c.
Proof.
  induction n as [| n IH]; intros ypos c; cbn [ypos_loop].
  - reflexivity.
  - rewrite collect_column_untouched. apply IH.
Qed.

Lemma xpos_loop_untouched (n : nat) :
  forall (xpos : Z) (c : S), xpos_loop w n xpos c = c.
Proof.
  induction n as [| n IH]; intros xpos c; cbn [xpos_loop].
  - reflexivity.
  - rewrite ypos_loop_untouched. apply IH.
Qed.

Lemma Collect_untouched (c : S) : Collect w c = c.
Proof. apply xpos_loop_untouched. Qed.

End Untouched.

Lemma SpriteCollector_ignores_invalid
      (to_coord : Z -> Z) (GTP_INVALID : Z) (store : SpriteStore)
      (sc : SpriteCollector) (svd : SurfaceVoxelData)
      (xpos ypos zpos xnorth ynorth : Z) :
  ground_type svd = GTP_INVALID ->
  SpriteCollector_CollectVoxel to_coord GTP_INVALID store sc
    (SurfaceVoxel svd) xpos ypos zpos xnorth ynorth = sc.
Proof.
  intros Hinv. unfold SpriteCollector_CollectVoxel.
  rewrite Hinv, Z.eqb_refl. reflexivity.
Qed.

Lemma PixelFinder_ignores_invalid
      (GTP_INVALID : Z) (store : SpriteStore)
      (pf : PixelFinder) (svd : SurfaceVoxelData)
      (xpos ypos zpos xnorth ynorth : Z) :
  ground_type svd = GTP_INVALID ->
  PixelFinder_CollectVoxel GTP_INVALID store pf
    (SurfaceVoxel svd) xpos ypos zpos xnorth ynorth = pf.
Proof.
  intros Hinv. unfold PixelFinder_CollectVoxel.
  rewrite Hinv, Z.eqb_refl. reflexivity.
Qed.

(** C9. For every visited surface voxel whose ground type is invalid, the
    sprite collector inserts no draw command and the pixel finder records no
    result.  In particular, over a world whose only voxel is a surface voxel
    with an invalid ground type, the collection of [OnDraw] yields no draw
    command (nothing is blitted) and the pick of [ComputeCursorPosition]
    yields [found = false], leaving the viewport as it was; both run to their
    end as for any other world. *)
Theorem invalid_ground_contributes_nothing
        (to_coord : Z -> Z) (GTP_INVALID : Z) (store : SpriteStore) :
  (forall (sc : SpriteCollector) (svd : SurfaceVoxelData)
          (xpos ypos zpos xnorth ynorth : Z),
      ground_type svd = GTP_INVALID ->
      SpriteCollector_CollectVoxel to_coord GTP_INVALID store sc
        (SurfaceVoxel svd) xpos ypos zpos xnorth ynorth = sc) /\
  (forall (pf : PixelFinder) (svd : SurfaceVoxelData)
          (xpos ypos zpos xnorth ynorth : Z),
      ground_type svd = GTP_INVALID ->
      PixelFinder_CollectVoxel GTP_INVALID store pf
        (SurfaceVoxel svd) xpos ypos zpos xnorth ynorth = pf) /\
  (forall (slope base_z : Z) (vp : Viewport),
      let w := single_voxel_world
                 (SurfaceVoxel (mkSurface GTP_INVALID slope)) base_z in
      draw_images (OnDraw_collector to_coord GTP_INVALID w store vp) = [] /\
      OnDraw to_coord GTP_INVALID w store vp
      = [LockSurface; FillSurface_COL_BACKGROUND; UnlockSurface] /\
      found (ComputeCursorPosition_collector to_coord GTP_INVALID w store vp)
      = false /\
      ComputeCursorPosition to_coord GTP_INVALID w store vp = vp).
Proof.
  split; [| split].
  - intros sc svd xpos ypos zpos xnorth ynorth.
    apply SpriteCollector_ignores_invalid.
  - intros pf svd xpos ypos zpos xnorth ynorth.
    apply PixelFinder_ignores_invalid.
  - intros slope base_z vp w.
    assert (Hdraw : draw_images (OnDraw_collector to_coord GTP_INVALID w store vp)
                    = []).
    { unfold OnDraw_collector. cbv zeta.
      rewrite (@Collect_untouched w _
                 (SpriteCollector_Collector to_coord GTP_INVALID store)).
      - destruct (mouse_mode vp); reflexivity.
      - intros c xpos ypos count a b d e f.
        apply SpriteCollector_ignores_invalid. reflexivity. }
    assert (Hpick : found (ComputeCursorPosition_collector
                             to_coord GTP_INVALID w store vp) = false).
    { unfold ComputeCursorPosition_collector. cbv zeta.
      rewrite (@Collect_untouched w _
                 (PixelFinder_Collector GTP_INVALID store)).
      - reflexivity.
      - intros c xpos ypos count a b d e f.
        apply PixelFinder_ignores_invalid. reflexivity. }
    split; [exact Hdraw |]. split; [| split; [exact Hpick |]].
    + unfold OnDraw. cbv zeta. rewrite Hdraw. reflexivity.
    + unfold ComputeCursorPosition. cbv zeta. rewrite Hpick. reflexivity.
Qed.

Example valid_ground_is_drawn :
  length (draw_images
            (OnDraw_collector int32 sample_GTP_INVALID
               (single_voxel_world (SurfaceVoxel (mkSurface 1 0)) 0)
               sample_store
               (new_Viewport
                  (single_voxel_world (SurfaceVoxel (mkSurface 1 0)) 0)
                  0 0 640 480))) = 1%nat.
Proof. reflexivity. Qed.

(** ** The pixel sample *)

Section Sampling.
Variable GTP_INVALID : Z.
Variable store : SpriteStore.

(** [PixelFinder::CollectVoxel] in terms of the call of [GetPixel] it
    makes: without a call the finder is left alone, with a call the pixel
    returned decides. *)
Lemma PixelFinder_CollectVoxel_samples (pf : PixelFinder) (voxel : Voxel)
      (xpos ypos zpos xnorth ynorth : Z) :
  PixelFinder_CollectVoxel GTP_INVALID store pf voxel xpos ypos zpos
                           xnorth ynorth
  = match PixelFinder_GetPixel_call GTP_INVALID store pf voxel xpos ypos zpos
                                    xnorth ynorth with
    | None => pf
    | Some (spr, xoffset, yoffset) =>
        if uint8 (GetPixel spr xoffset yoffset) =? 0 then pf
        else mkPixelFinder (pf_base pf) true
               (int32 (depth_key (orient (pf_base pf)) xpos ypos zpos))
               (uint8 (GetPixel spr xoffset yoffset))
               (uint16 xpos) (uint16 ypos) (uint8 zpos)
    end.
Proof.
  unfold PixelFinder_CollectVoxel, PixelFinder_GetPixel_call.
  destruct voxel as [svd | tag]; [| reflexivity].
  destruct (ground_type svd =? GTP_INVALID); [reflexivity |].
  destruct (GetSurfaceSprite store _ _ _ _) as [spr |]; [| reflexivity].
  cbv zeta. rewrite sx_of_orient, sy_of_orient, depth_key_code.
  destruct (found pf && _); [reflexivity |].
  destruct (_ || _); reflexivity.
Qed.

(** For a candidate that is not skipped for its distance, the call is made
    exactly when neither probe offset is negative, with these offsets. *)
Lemma PixelFinder_call_of_candidate (pf : PixelFinder) (svd : SurfaceVoxelData)
      (spr : Sprite) (xpos ypos zpos xnorth ynorth : Z) :
  (ground_type svd =? GTP_INVALID) = false ->
  GetSurfaceSprite store (ground_type svd) (ground_slope svd)
                   (tile_width (pf_base pf)) (orient (pf_base pf)) = Some spr ->
  (found pf
   && (int32 (depth_key (orient (pf_base pf)) xpos ypos zpos) <=? distance pf))
  = false ->
  PixelFinder_GetPixel_call GTP_INVALID store pf (SurfaceVoxel svd)
                            xpos ypos zpos xnorth ynorth
  = let xoffset := int16 (px (base (rect (pf_base pf))) - xnorth
                          - spr_xoffset spr)%i32 in
    let yoffset := int16 (py (base (rect (pf_base pf))) - ynorth
                          - spr_yoffset spr)%i32 in
    if (xoffset <? 0) || (yoffset <? 0) then None
    else Some (spr, xoffset, yoffset).
Proof.
  intros Hvalid Hspr Hnear. unfold PixelFinder_GetPixel_call.
  rewrite Hvalid, Hspr. cbv zeta.
  rewrite sx_of_orient, sy_of_orient, depth_key_code, Hnear. reflexivity.
Qed.

End Sampling.

(** C10. The pixel finder rejects a probe of a candidate only when the
    computed pixel offset within the sprite is negative in x or y: for
    offsets that are not negative it calls the sprite's pixel-sample
    operation with them, whatever the width and height of the sprite, and
    the pixel returned decides the outcome.  So for some probe position and
    sprite the operation is invoked with an offset at or beyond the sprite's
    dimensions. *)
Theorem pixel_sample_has_no_upper_bound_check
        (GTP_INVALID : Z) (store : SpriteStore) :
  (forall (pf : PixelFinder) (svd : SurfaceVoxelData) (spr : Sprite)
          (xpos ypos zpos xnorth ynorth : Z),
      (ground_type svd =? GTP_INVALID) = false ->
      GetSurfaceSprite store (ground_type svd) (ground_slope svd)
                       (tile_width (pf_base pf)) (orient (pf_base pf))
      = Some spr ->
      (found pf
       && (int32 (depth_key (orient (pf_base pf)) xpos ypos zpos)
           <=? distance pf)) = false ->
      let xoffset := int16 (px (base (rect (pf_base pf))) - xnorth
                            - spr_xoffset spr)%i32 in
      let yoffset := int16 (py (base (rect (pf_base pf))) - ynorth
                            - spr_yoffset spr)%i32 in
      let call := PixelFinder_GetPixel_call GTP_INVALID store pf
                    (SurfaceVoxel svd) xpos ypos zpos xnorth ynorth in
      (call = None <-> xoffset < 0 \/ yoffset < 0) /\
      (0 <= xoffset -> 0 <= yoffset -> call = Some (spr, xoffset, yoffset)))
  /\
  (forall (pf : PixelFinder) (voxel : Voxel) (xpos ypos zpos xnorth ynorth : Z)
          (spr : Sprite) (xoffset yoffset : Z),
      PixelFinder_GetPixel_call GTP_INVALID store pf voxel xpos ypos zpos
                                xnorth ynorth = Some (spr, xoffset, yoffset) ->
      PixelFinder_CollectVoxel GTP_INVALID store pf voxel xpos ypos zpos
                               xnorth ynorth
      = if uint8 (GetPixel spr xoffset yoffset) =? 0 then pf
        else mkPixelFinder (pf_base pf) true
               (int32 (depth_key (orient (pf_base pf)) xpos ypos zpos))
               (uint8 (GetPixel spr xoffset yoffset))
               (uint16 xpos) (uint16 ypos) (uint8 zpos))
  /\
  (exists (pf : PixelFinder) (xnorth ynorth : Z)
          (spr : Sprite) (xoffset yoffset : Z),
      PixelFinder_GetPixel_call sample_GTP_INVALID sample_store pf
        (SurfaceVoxel (mkSurface 1 0)) 0 0 0 xnorth ynorth
      = Some (spr, xoffset, yoffset) /\
      spr_width spr <= xoffset /\ spr_height spr <= yoffset).
Proof.
  split; [| split].
  - intros pf svd spr xpos ypos zpos xnorth ynorth Hvalid Hspr Hnear
           xoffset yoffset call.
    unfold call.
    rewrite (PixelFinder_call_of_candidate GTP_INVALID store pf svd spr
               xpos ypos zpos xnorth ynorth Hvalid Hspr Hnear).
    cbv zeta. fold xoffset yoffset.
    destruct (Z.ltb_spec xoffset 0) as [Hx | Hx];
      destruct (Z.ltb_spec yoffset 0) as [Hy | Hy]; cbn [orb].
    + split; [split; [intros _; lia | reflexivity] | intros; lia].
    + split; [split; [intros _; lia | reflexivity] | intros; lia].
    + split; [split; [intros _; lia | reflexivity] | intros; lia].
    + split; [split; [discriminate | lia] | reflexivity].
  - intros pf voxel xpos ypos zpos xnorth ynorth spr xoffset yoffset Hcall.
    rewrite PixelFinder_CollectVoxel_samples, Hcall. reflexivity.
  - exists (sample_pixel_finder VOR_NORTH), (-5), (-7),
      (opaque_sprite 1 1), 5, 7.
    split; [reflexivity |]. split; discriminate.
Qed.

(** * Further properties of the code *)

(** ** A collection pass as a sequence of calls *)

Lemma fold_left_map_visits {A B C : Type} (f : A -> B -> A) (g : C -> B)
      (l : list C) :
  forall a : A, fold_left f (map g l) a = fold_left (fun a x => f a (g x)) l a.
Proof. induction l as [| x l IH]; intros a; simpl; [reflexivity | apply IH]. Qed.

Lemma StronglySorted_app {A : Type} (R : A -> A -> Prop) (l1 l2 : list A) :
  StronglySorted R l1 -> StronglySorted R l2 ->
  (forall a b : A, In a l1 -> In b l2 -> R a b) ->
  StronglySorted R (l1 ++ l2).
Proof.
  intros H1 H2 H12. induction H1 as [| a l1 Hl1 IH Ha]; simpl.
  - exact H2.
  - constructor.
    + apply IH. intros x y Hx Hy. apply H12; [now right | exact Hy].
    + apply Forall_app. split; [exact Ha |].
      apply Forall_forall. intros y Hy. apply H12; [now left | exact Hy].
Qed.

Lemma StronglySorted_map {A B : Type} (R : A -> A -> Prop) (Q : B -> B -> Prop)
      (g : A -> B) (l : list A) :
  (forall a b : A, R a b -> Q (g a) (g b)) ->
  StronglySorted R l -> StronglySorted Q (map g l).
Proof.
  intros Hmono Hl. induction Hl as [| a l Hl IH Ha]; simpl; constructor.
  - exact IH.
  - apply Forall_forall. intros y Hy. apply in_map_iff in Hy.
    destruct Hy as (x & <- & Hx). apply Hmono.
    rewrite Forall_forall in Ha. apply Ha. exact Hx.
Qed.

Section CollectCalls.
Variable w : World.
Variable vc : VoxelCollector.
Context {S : Type} `{Collector S}.
Hypothesis base_kept :
  forall (c : S) (v : Voxel) (a b d e f : Z),
    collector_base (CollectVoxel c v a b d e f) = collector_base c.

Lemma apply_visits_base (vs : list Visit) :
  forall c : S, collector_base (fold_left apply_visit vs c) = collector_base c.
Proof.
  induction vs as [| v vs IH]; intros c; simpl; [reflexivity |].
  rewrite IH. apply base_kept.
Qed.

Lemma collect_column_calls (xpos ypos : Z) (c : S) :
  collector_base c = vc ->
  collect_column w xpos (world_x_of vc xpos) ypos c
  = fold_left apply_visit (map (visit_at w vc) (column_cells w vc xpos ypos)) c.
Proof.
  intros Hbase. unfold collect_column, column_cells, column_in_window.
  rewrite Hbase. cbv zeta.
  destruct (column_left_of_window vc _); [reflexivity |].
  destruct (column_right_of_window vc _); [reflexivity |].
  cbn [negb andb].
  rewrite (stack_loop_visits vc _ _ _ base_kept) by exact Hbase.
  rewrite map_map, fold_left_map_visits. reflexivity.
Qed.

Lemma ypos_loop_calls (xpos : Z) (n : nat) :
  forall (ypos : Z) (c : S),
    collector_base c = vc ->
    ypos_loop w n ypos xpos (world_x_of vc xpos) c
    = fold_left apply_visit (map (visit_at w vc) (ypos_cells w vc n ypos xpos)) c.
Proof.
  induction n as [| n IH]; intros ypos c Hbase; cbn [ypos_loop ypos_cells].
  - reflexivity.
  - rewrite map_app, fold_left_app.
    rewrite <- (collect_column_calls xpos ypos c Hbase).
    apply IH. rewrite (collect_column_calls xpos ypos c Hbase).
    rewrite apply_visits_base. exact Hbase.
Qed.

Lemma xpos_loop_calls (n : nat) :
  forall (xpos : Z) (c : S),
    collector_base c = vc ->
    xpos_loop w n xpos c
    = fold_left apply_visit (map (visit_at w vc) (xpos_cells w vc n xpos)) c.
Proof.
  induction n as [| n IH]; intros xpos c Hbase; cbn [xpos_loop xpos_cells].
  - reflexivity.
  - rewrite map_app, fold_left_app. rewrite Hbase.
    rewrite <- (ypos_loop_calls xpos _ 0 c Hbase).
    apply IH. rewrite (ypos_loop_calls xpos _ 0 c Hbase).
    rewrite apply_visits_base. exact Hbase.
Qed.

Lemma Collect_calls (c : S) :
  collector_base c = vc ->
  Collect w c
  = fold_left apply_visit (map (visit_at w vc) (Collect_cells w vc)) c.
Proof. intros Hbase. apply xpos_loop_calls. exact Hbase. Qed.

End CollectCalls.

Lemma trace_visits (vs : list Visit) :
  forall tc : TraceCollector,
    tc_visits (fold_left apply_visit vs tc) = tc_visits tc ++ vs.
Proof.
  induction vs as [| v vs IH]; intros tc; simpl.
  - rewrite app_nil_r. reflexivity.
  - rewrite IH. unfold apply_visit. simpl. rewrite <- app_assoc.
    destruct v; reflexivity.
Qed.

Lemma Collect_trace_cells (w : World) (vc : VoxelCollector) :
  Collect_trace w vc = map (visit_at w vc) (Collect_cells w vc).
Proof.
  unfold Collect_trace.
  rewrite (@Collect_calls w vc _ TraceCollector_Collector).
  - rewrite trace_visits. reflexivity.
  - intros c v a b d e f. reflexivity.
  - reflexivity.
Qed.

Section Cells.
Variable w : World.
Variable vc : VoxelCollector.

Lemma voxel_in_window_test (xpos ypos count : Z) :
  voxel_in_window w vc xpos ypos count = true <->
  voxel_test vc (north_y_of vc (world_x_of vc xpos) (world_y_of vc ypos)
                            (GetStack w xpos ypos) count) = InWindow.
Proof.
  unfold voxel_in_window. cbv zeta. rewrite voxel_test_in.
  rewrite andb_true_iff, !negb_true_iff. reflexivity.
Qed.

Lemma voxel_breaks_test (xpos ypos count : Z) :
  voxel_breaks w vc xpos ypos count = false <->
  voxel_test vc (north_y_of vc (world_x_of vc xpos) (world_y_of vc ypos)
                            (GetStack w xpos ypos) count) <> AboveWindow.
Proof.
  unfold voxel_breaks. cbv zeta. rewrite voxel_test_above.
  destruct (voxel_below_window vc _), (voxel_above_window vc _); cbn;
    split; intros E; try reflexivity; try discriminate.
  - intros [E' _]. discriminate.
  - intros [E' _]. discriminate.
  - exfalso. apply E. split; reflexivity.
  - intros [_ E']. discriminate.
Qed.

(** The visited voxels of one column. *)
Lemma column_cells_spec (xpos ypos : Z) (cell : Z * Z * Z) :
  In cell (column_cells w vc xpos ypos) <->
  exists count : Z,
    cell = (xpos, ypos, count) /\
    column_in_window vc xpos ypos = true /\
    0 <= count < stack_height (GetStack w xpos ypos) /\
    voxel_in_window w vc xpos ypos count = true /\
    forall j : Z, 0 <= j < count -> voxel_breaks w vc xpos ypos j = false.
Proof.
  unfold column_cells.
  destruct (column_in_window vc xpos ypos).
  - rewrite in_map_iff. split.
    + intros (count & <- & Hin). exists count.
      apply visited_counts_spec in Hin. destruct Hin as (Hr & Hin & Hno).
      split; [reflexivity |]. split; [reflexivity |]. split; [lia |].
      split; [apply voxel_in_window_test; exact Hin |].
      intros j Hj. apply voxel_breaks_test. apply Hno. lia.
    + intros (count & -> & _ & Hr & Hin & Hno). exists count.
      split; [reflexivity |]. apply visited_counts_spec.
      split; [lia |]. split; [apply voxel_in_window_test; exact Hin |].
      intros j Hj. apply voxel_breaks_test. apply Hno. lia.
  - split; [intros [] |]. intros (count & _ & Hvis & _). discriminate.
Qed.

Lemma column_cells_sorted (xpos ypos : Z) :
  StronglySorted cell_lt (column_cells w vc xpos ypos).
Proof.
  unfold column_cells. destruct (column_in_window vc xpos ypos).
  - apply (StronglySorted_map Z.lt); [| apply visited_counts_sorted].
    intros a b Hab. simpl. right. split; [reflexivity |]. right.
    split; [reflexivity | exact Hab].
  - constructor.
Qed.

Lemma ypos_cells_spec (xpos : Z) (n : nat) :
  forall (ypos : Z) (cell : Z * Z * Z),
    In cell (ypos_cells w vc n ypos xpos) <->
    exists y : Z,
      ypos <= y < ypos + Z.of_nat n /\ In cell (column_cells w vc xpos y).
Proof.
  induction n as [| n IH]; intros ypos cell; cbn [ypos_cells].
  - split; [intros [] |]. intros (y & Hy & _). lia.
  - rewrite in_app_iff, IH, Nat2Z.inj_succ. split.
    + intros [Hin | (y & Hy & Hin)].
      * exists ypos. split; [lia | exact Hin].
      * exists y. split; [lia | exact Hin].
    + intros (y & Hy & Hin).
      destruct (Z.eq_dec y ypos) as [-> | Hne]; [now left | right].
      exists y. split; [lia | exact Hin].
Qed.

Lemma ypos_cells_sorted (xpos : Z) (n : nat) :
  forall ypos : Z, StronglySorted cell_lt (ypos_cells w vc n ypos xpos).
Proof.
  induction n as [| n IH]; intros ypos; cbn [ypos_cells].
  - constructor.
  - apply StronglySorted_app; [apply column_cells_sorted | apply IH |].
    intros a b Ha Hb.
    apply column_cells_spec in Ha. destruct Ha as (ca & -> & _).
    apply ypos_cells_spec in Hb. destruct Hb as (y & Hy & Hb).
    apply column_cells_spec in Hb. destruct Hb as (cb & -> & _).
    simpl. right. split; [reflexivity |]. left. lia.
Qed.

Lemma xpos_cells_spec (n : nat) :
  forall (xpos : Z) (cell : Z * Z * Z),
    In cell (xpos_cells w vc n xpos) <->
    exists x y : Z,
      xpos <= x < xpos + Z.of_nat n /\ 0 <= y < GetYSize w /\
      In cell (column_cells w vc x y).
Proof.
  induction n as [| n IH]; intros xpos cell; cbn [xpos_cells].
  - split; [intros [] |]. intros (x & y & Hx & _). lia.
  - rewrite in_app_iff, IH, ypos_cells_spec, Nat2Z.inj_succ. split.
    + intros [(y & Hy & Hin) | (x & y & Hx & Hy & Hin)].
      * exists xpos, y. split; [lia |]. split; [lia | exact Hin].
      * exists x, y. split; [lia |]. split; [lia | exact Hin].
    + intros (x & y & Hx & Hy & Hin).
      destruct (Z.eq_dec x xpos) as [-> | Hne].
      * left. exists y. split; [lia | exact Hin].
      * right. exists x, y. split; [lia |]. split; [lia | exact Hin].
Qed.

Lemma xpos_cells_sorted (n : nat) :
  forall xpos : Z, StronglySorted cell_lt (xpos_cells w vc n xpos).
Proof.
  induction n as [| n IH]; intros xpos; cbn [xpos_cells].
  - constructor.
  - apply StronglySorted_app; [apply ypos_cells_sorted | apply IH |].
    intros a b Ha Hb.
    apply ypos_cells_spec in Ha. destruct Ha as (ya & _ & Ha).
    apply column_cells_spec in Ha. destruct Ha as (ca & -> & _).
    apply xpos_cells_spec in Hb. destruct Hb as (x & y & Hx & _ & Hb).
    apply column_cells_spec in Hb. destruct Hb as (cb & -> & _).
    simpl. left. lia.
Qed.

(** Which voxels of the world a collection pass visits. *)
Lemma Collect_cells_spec (xpos ypos count : Z) :
  In (xpos, ypos, count) (Collect_cells w vc) <->
  0 <= xpos < GetXSize w /\ 0 <= ypos < GetYSize w /\
  column_in_window vc xpos ypos = true /\
  0 <= count < stack_height (GetStack w xpos ypos) /\
  voxel_in_window w vc xpos ypos count = true /\
  forall j : Z, 0 <= j < count -> voxel_breaks w vc xpos ypos j = false.
Proof.
  unfold Collect_cells. rewrite xpos_cells_spec. split.
  - intros (x & y & Hx & Hy & Hin).
    apply column_cells_spec in Hin.
    destruct Hin as (c & Heq & Hvis & Hc & Hin & Hno).
    injection Heq as -> -> ->.
    split; [lia |]. split; [lia |]. auto.
  - intros (Hx & Hy & Hvis & Hc & Hin & Hno).
    exists xpos, ypos. split; [lia |]. split; [lia |].
    apply column_cells_spec. exists count. auto.
Qed.

End Cells.

(** X1. A collection pass is the sequence of its calls: the calls of
    [CollectVoxel] that [Collect] makes depend on the base collector alone,
    they are those of the visited cells in the order of the three loops, and
    the sprite collector and the pixel finder after [Collect] are what these
    calls, made one after the other, leave. *)
Theorem Collect_is_fold_of_its_calls (w : World) :
  (forall vc : VoxelCollector,
      Collect_trace w vc = map (visit_at w vc) (Collect_cells w vc)) /\
  (forall (to_coord : Z -> Z) (GTP_INVALID : Z) (store : SpriteStore)
          (sc : SpriteCollector),
      @Collect w _ (SpriteCollector_Collector to_coord GTP_INVALID store) sc
      = fold_left
          (@apply_visit _ (SpriteCollector_Collector to_coord GTP_INVALID store))
          (Collect_trace w (sc_base sc)) sc) /\
  (forall (GTP_INVALID : Z) (store : SpriteStore) (pf : PixelFinder),
      @Collect w _ (PixelFinder_Collector GTP_INVALID store) pf
      = fold_left
          (@apply_visit _ (PixelFinder_Collector GTP_INVALID store))
          (Collect_trace w (pf_base pf)) pf).
Proof.
  split; [| split].
  - intros vc. apply Collect_trace_cells.
  - intros to_coord GTP_INVALID store sc. rewrite Collect_trace_cells.
    apply (@Collect_calls w (sc_base sc) _
             (SpriteCollector_Collector to_coord GTP_INVALID store)).
    + intros c v a b d e f. apply SpriteCollector_base_kept.
    + reflexivity.
  - intros GTP_INVALID store pf. rewrite Collect_trace_cells.
    apply (@Collect_calls w (pf_base pf) _
             (PixelFinder_Collector GTP_INVALID store)).
    + intros c v a b d e f. apply PixelFinder_base_kept.
    + reflexivity.
Qed.

(** X2. [Collect] visits voxels in strictly ascending order of
    [(xpos, ypos, count)], and it visits the voxel [count] of the column
    [(xpos, ypos)] exactly when the column lies in the world and passes the
    two column tests, the voxel lies in the stack and passes the two voxel
    tests, and no voxel under it in the stack met the [break]; so no voxel
    outside the world's extent or outside a stack is ever handed to
    [CollectVoxel], and none is handed over twice. *)
Theorem Collect_visits_window_cells_in_order (w : World) (vc : VoxelCollector) :
  StronglySorted cell_lt (Collect_cells w vc) /\
  NoDup (Collect_cells w vc) /\
  forall xpos ypos count : Z,
    In (xpos, ypos, count) (Collect_cells w vc) <->
    0 <= xpos < GetXSize w /\ 0 <= ypos < GetYSize w /\
    column_in_window vc xpos ypos = true /\
    0 <= count < stack_height (GetStack w xpos ypos) /\
    voxel_in_window w vc xpos ypos count = true /\
    forall j : Z, 0 <= j < count -> voxel_breaks w vc xpos ypos j = false.
Proof.
  assert (Hsorted : StronglySorted cell_lt (Collect_cells w vc))
    by apply xpos_cells_sorted.
  split; [exact Hsorted |]. split.
  - induction Hsorted as [| a l Hl IH Ha]; constructor.
    + intros Hin. rewrite Forall_forall in Ha. specialize (Ha a Hin).
      destruct a as [[ax ay] ac]. simpl in Ha. lia.
    + exact IH.
  - apply Collect_cells_spec.
Qed.

Example Collect_trace_sample :
  map (fun v => (v_xpos v, v_ypos v, v_zpos v))
      (Collect_trace
         (mkWorld 2 2 (fun _ _ => mkStack (fun _ => OtherVoxel 0) 3 2))
         (mkVoxelCollector 0 0 0 64 16 VOR_NORTH
                           (mkRectangle (mkPoint (-320) (-240)) 640 480)))
  = [(0, 0, 3); (0, 0, 4); (0, 1, 3); (0, 1, 4);
     (1, 0, 3); (1, 0, 4); (1, 1, 3); (1, 1, 4)].
Proof. reflexivity. Qed.

(** ** The early exit of the column scan *)

(** The two voxel tests as comparisons of integers, when nothing
    overflows. *)
Lemma voxel_tests_exact (vc : VoxelCollector) (north_y : Z) :
  voxel_tests_fit vc north_y ->
  (voxel_below_window vc north_y = true <->
   py (base (rect vc)) + height (rect vc) <= north_y - tile_height vc) /\
  (voxel_above_window vc north_y = true <->
   north_y + Z.quot (tile_width vc) 2 + tile_height vc <= py (base (rect vc))).
Proof.
  intros (Htw & Hth & Hh & Hby & Hbh & Hlo & Hmid & Hhi).
  unfold voxel_below_window, voxel_above_window, add32, sub32, div32.
  change (2 ^ 16) with 65536 in *.
  pose proof (quot_bound (tile_width vc) 2 (tile_width vc) ltac:(lia)
                         ltac:(lia)) as Hq.
  rewrite (int32_small (Z.quot (tile_width vc) 2))
    by (unfold in_int32, INT32_MIN, INT32_MAX; lia).
  rewrite int32_idem.
  rewrite (int32_small (north_y - tile_height vc)) by assumption.
  rewrite (int32_small (py (base (rect vc)) + height (rect vc))) by assumption.
  rewrite (int32_small (north_y + Z.quot (tile_width vc) 2)) by assumption.
  rewrite (int32_small (north_y + Z.quot (tile_width vc) 2 + tile_height vc))
    by assumption.
  rewrite (int32_small (py (base (rect vc)))) by assumption.
  rewrite Z.geb_leb, !Z.leb_le. split; reflexivity.
Qed.

Section EarlyExit.
Variable w : World.
Variable vc : VoxelCollector.
Variables xpos ypos : Z.
Hypothesis Hfits : column_fits w vc xpos ypos.

Let stack := GetStack w xpos ypos.
Let north_y (count : Z) : Z :=
  north_y_of vc (world_x_of vc xpos) (world_y_of vc ypos) stack count.

(** The north corner of a voxel of the column, without wrap-around. *)
Lemma north_y_exact (count : Z) :
  0 <= count < stack_height stack ->
  north_y count
  = spec_screenY (tile_width vc) (tile_height vc) (orient vc)
                 (world_x_of vc xpos) (world_y_of vc ypos)
                 ((stack_base stack + count) * 256).
Proof.
  intros Hc. destruct (Hfits count Hc) as (Hz & Hz256 & Hproj & _).
  fold stack in Hz, Hz256, Hproj.
  unfold north_y, north_y_of, zpos_of, add32, mul32.
  rewrite (int32_small _ Hz), (int32_small _ Hz256).
  apply ComputeY_exact. exact Hproj.
Qed.

(** Higher voxels of a column are projected higher on the screen. *)
Lemma north_y_antitone (j c : Z) :
  0 <= j <= c -> c < stack_height stack -> north_y c <= north_y j.
Proof.
  intros Hj Hc.
  rewrite (north_y_exact j) by lia. rewrite (north_y_exact c) by lia.
  assert (Hr : 0 <= c < stack_height (GetStack w xpos ypos))
    by (unfold stack in Hc; lia).
  destruct (Hfits c Hr) as (_ & _ & (_ & Hth & _) & _).
  unfold spec_screenY. apply Z.div_le_mono; [reflexivity |].
  pose proof (Z.mul_nonneg_nonneg (c - j) (tile_height vc) ltac:(lia) Hth).
  lia.
Qed.

(** A voxel that passes both tests has no voxel under it that met the
    [break]. *)
Lemma in_window_has_no_break_below (count : Z) :
  0 <= count < stack_height stack ->
  voxel_in_window w vc xpos ypos count = true ->
  forall j : Z, 0 <= j < count -> voxel_breaks w vc xpos ypos j = false.
Proof.
  intros Hc Hin j Hj.
  unfold voxel_in_window, voxel_breaks in *. cbv zeta in *.
  fold stack in Hin |- *. fold (north_y count) in Hin. fold (north_y j).
  apply andb_true_iff in Hin. destruct Hin as [_ Habove].
  apply negb_true_iff in Habove.
  destruct (voxel_above_window vc (north_y j)) eqn:Hj_above;
    [| apply andb_false_r].
  exfalso.
  assert (Hr : 0 <= j < stack_height (GetStack w xpos ypos))
    by (unfold stack in Hc; lia).
  destruct (Hfits count Hc) as (_ & _ & _ & Hfit_c).
  destruct (Hfits j Hr) as (_ & _ & _ & Hfit_j).
  fold stack in Hfit_c, Hfit_j. fold (north_y count) in Hfit_c.
  fold (north_y j) in Hfit_j.
  apply (proj2 (voxel_tests_exact vc (north_y j) Hfit_j)) in Hj_above.
  assert (Hc_above : voxel_above_window vc (north_y count) = true).
  { apply (proj2 (voxel_tests_exact vc (north_y count) Hfit_c)).
    pose proof (north_y_antitone j count ltac:(lia) ltac:(lia)). lia. }
  congruence.
Qed.

End EarlyExit.



(** ** The draw list *)

Lemma multimap_insert_perm (p : Z * DrawData) (m : DrawImages) :
  Permutation (p :: m) (multimap_insert p m).
Proof.
  induction m as [| q m IH]; simpl.
  - apply Permutation_refl.
  - destruct (fst p <? fst q).
    + apply Permutation_refl.
    + eapply Permutation_trans; [apply perm_swap |].
      apply perm_skip. exact IH.
Qed.

Lemma multimap_insert_sorted (p : Z * DrawData) (m : DrawImages) :
  key_sorted m -> key_sorted (multimap_insert p m).
Proof.
  unfold key_sorted. intros Hm.
  induction Hm as [| q m Hm IH Hq]; simpl.
  - constructor; constructor.
  - destruct (Z.ltb_spec (fst p) (fst q)) as [Hlt | Hge].
    + constructor.
      * constructor; assumption.
      * constructor; [lia |].
        rewrite Forall_forall in Hq |- *. intros r Hr.
        specialize (Hq r Hr). lia.
    + constructor; [exact IH |].
      rewrite Forall_forall in Hq |- *. intros r Hr.
      apply (Permutation_in r (Permutation_sym (multimap_insert_perm p m)))
        in Hr.
      destruct Hr as [<- | Hr]; [lia | apply Hq; exact Hr].
Qed.

Lemma filter_none {A : Type} (f : A -> bool) (l : list A) :
  (forall x : A, In x l -> f x = false) -> filter f l = [].
Proof.
  induction l as [| x l IH]; intros Hf; simpl; [reflexivity |].
  rewrite (Hf x (or_introl eq_refl)). apply IH.
  intros y Hy. apply Hf. now right.
Qed.

Lemma filter_all {A : Type} (f : A -> bool) (l : list A) :
  (forall x : A, In x l -> f x = true) -> filter f l = l.
Proof.
  induction l as [| x l IH]; intros Hf; simpl; [reflexivity |].
  rewrite (Hf x (or_introl eq_refl)). f_equal. apply IH.
  intros y Hy. apply Hf. now right.
Qed.

(** Where [insert] puts a new entry in a sorted list: behind the entries
    whose key is not greater, in front of the others. *)
Lemma multimap_insert_place (p : Z * DrawData) (m : DrawImages) :
  key_sorted m ->
  multimap_insert p m
  = filter (fun q => fst q <=? fst p) m
    ++ p :: filter (fun q => fst p <? fst q) m.
Proof.
  unfold key_sorted. intros Hm.
  induction Hm as [| q m Hm IH Hq]; simpl.
  - reflexivity.
  - rewrite Forall_forall in Hq.
    destruct (Z.ltb_spec (fst p) (fst q)) as [Hlt | Hge].
    + destruct (Z.leb_spec (fst q) (fst p)) as [Hle | _]; [lia |].
      rewrite filter_none, filter_all; [reflexivity | |].
      * intros r Hr. specialize (Hq r Hr). apply Z.ltb_lt. lia.
      * intros r Hr. specialize (Hq r Hr). apply Z.leb_gt. lia.
    + destruct (Z.leb_spec (fst q) (fst p)) as [_ | Hgt]; [| lia].
      rewrite IH. reflexivity.
Qed.

(** Among the entries of one key, a new entry comes last. *)
Lemma with_key_insert (k : Z) (p : Z * DrawData) (m : DrawImages) :
  key_sorted m ->
  with_key k (multimap_insert p m)
  = with_key k m ++ (if fst p =? k then [p] else []).
Proof.
  unfold key_sorted, with_key. intros Hm.
  induction Hm as [| q m Hm IH Hq]; cbn [multimap_insert filter app].
  - destruct (fst p =? k); reflexivity.
  - rewrite Forall_forall in Hq.
    destruct (Z.ltb_spec (fst p) (fst q)) as [Hlt | Hge]; cbn [filter].
    + destruct (Z.eqb_spec (fst p) k) as [Hpk | Hpk].
      * destruct (Z.eqb_spec (fst q) k) as [Hqk | Hqk]; [lia |].
        rewrite filter_none; [reflexivity |].
        intros r Hr. specialize (Hq r Hr). apply Z.eqb_neq. lia.
      * rewrite app_nil_r. reflexivity.
    + destruct (fst q =? k); rewrite IH; reflexivity.
Qed.

Lemma insert_all_sorted (ps : list (Z * DrawData)) :
  forall m : DrawImages,
    key_sorted m ->
    key_sorted (fold_left (fun m p => multimap_insert p m) ps m).
Proof.
  induction ps as [| p ps IH]; intros m Hm; simpl; [exact Hm |].
  apply IH, multimap_insert_sorted, Hm.
Qed.

Lemma insert_all_perm (ps : list (Z * DrawData)) :
  forall m : DrawImages,
    Permutation (m ++ ps) (fold_left (fun m p => multimap_insert p m) ps m).
Proof.
  induction ps as [| p ps IH]; intros m; simpl.
  - rewrite app_nil_r. apply Permutation_refl.
  - eapply Permutation_trans; [| apply IH].
    eapply Permutation_trans; [apply Permutation_sym, Permutation_middle |].
    apply (Permutation_app_tail ps (multimap_insert_perm p m)).
Qed.

Lemma insert_all_with_key (k : Z) (ps : list (Z * DrawData)) :
  forall m : DrawImages,
    key_sorted m ->
    with_key k (fold_left (fun m p => multimap_insert p m) ps m)
    = with_key k m ++ with_key k ps.
Proof.
  induction ps as [| p ps IH]; intros m Hm; simpl.
  - rewrite app_nil_r. reflexivity.
  - rewrite IH by (apply multimap_insert_sorted, Hm).
    rewrite (with_key_insert k p m Hm), <- app_assoc.
    destruct (fst p =? k); reflexivity.
Qed.

Section DrawList.
Variable to_coord : Z -> Z.
Variable GTP_INVALID : Z.
Variable store : SpriteStore.

Let visit :=
  @apply_visit _ (SpriteCollector_Collector to_coord GTP_INVALID store).
Let command := SpriteCollector_command to_coord GTP_INVALID store.
Let commands := SpriteCollector_commands to_coord GTP_INVALID store.

(** [SpriteCollector::CollectVoxel] in terms of the entry it inserts. *)
Lemma SpriteCollector_CollectVoxel_inserts (sc : SpriteCollector) (v : Visit) :
  visit sc v
  = match command sc v with
    | Some p => set_draw_images sc (multimap_insert p (draw_images sc))
    | None => sc
    end.
Proof.
  unfold visit, apply_visit, command, SpriteCollector_command. cbn [CollectVoxel
    SpriteCollector_Collector]. unfold SpriteCollector_CollectVoxel.
  destruct (v_voxel v) as [svd | tag]; [| reflexivity].
  destruct (ground_type svd =? GTP_INVALID); [reflexivity |].
  destruct (GetSurfaceSprite store _ _ _ _); reflexivity.
Qed.

(** The entry inserted for a visit does not depend on the draw list. *)
Lemma SpriteCollector_command_frame (sc : SpriteCollector) (m : DrawImages)
      (v : Visit) :
  command (set_draw_images sc m) v = command sc v.
Proof. reflexivity. Qed.

Lemma SpriteCollector_visits_insert (vs : list Visit) :
  forall sc : SpriteCollector,
    fold_left visit vs sc
    = set_draw_images sc
        (fold_left (fun m p => multimap_insert p m) (commands sc vs)
                   (draw_images sc)).
Proof.
  induction vs as [| v vs IH]; intros sc.
  - destruct sc; reflexivity.
  - cbn [fold_left]. rewrite IH, SpriteCollector_CollectVoxel_inserts.
    unfold commands, SpriteCollector_commands. cbn [flat_map].
    fold (command sc v).
    destruct (command sc v) as [p |] eqn:Hcmd.
    + cbn [app fold_left]. reflexivity.
    + reflexivity.
Qed.

End DrawList.

Section OnDrawList.
Variable to_coord : Z -> Z.
Variable GTP_INVALID : Z.
Variable w : World.
Variable store : SpriteStore.
Variable vp : Viewport.

Let sc := OnDraw_collector to_coord GTP_INVALID w store vp.
Let sc0 := OnDraw_setup to_coord vp.
Let cmds :=
  SpriteCollector_commands to_coord GTP_INVALID store sc
                           (Collect_trace w (sc_base sc)).

Lemma OnDraw_collector_setup :
  sc = @Collect w _ (SpriteCollector_Collector to_coord GTP_INVALID store) sc0.
Proof. reflexivity. Qed.

Lemma OnDraw_setup_empty : draw_images sc0 = [].
Proof. unfold sc0, OnDraw_setup. destruct (mouse_mode vp); reflexivity. Qed.

(** The collector after [Collect] is the collector before it with the
    entries of the visited voxels inserted one by one. *)
Lemma OnDraw_collector_inserts :
  sc = set_draw_images sc0
         (fold_left (fun m p => multimap_insert p m)
                    (SpriteCollector_commands to_coord GTP_INVALID store sc0
                       (Collect_trace w (sc_base sc0)))
                    []) /\
  sc_base sc = sc_base sc0 /\
  SpriteCollector_commands to_coord GTP_INVALID store sc0
    (Collect_trace w (sc_base sc0)) = cmds.
Proof.
  assert (Hsc : sc = set_draw_images sc0
                       (fold_left (fun m p => multimap_insert p m)
                          (SpriteCollector_commands to_coord GTP_INVALID store
                             sc0 (Collect_trace w (sc_base sc0)))
                          [])).
  { rewrite OnDraw_collector_setup, Collect_trace_cells.
    rewrite (@Collect_calls w (sc_base sc0) _
               (SpriteCollector_Collector to_coord GTP_INVALID store)).
    - rewrite SpriteCollector_visits_insert, OnDraw_setup_empty. reflexivity.
    - intros c v a b d e f. apply SpriteCollector_base_kept.
    - reflexivity. }
  split; [exact Hsc |].
  unfold cmds. rewrite Hsc. split; reflexivity.
Qed.

Lemma OnDraw_draw_list :
  key_sorted (draw_images sc) /\
  Permutation cmds (draw_images sc) /\
  forall k : Z, with_key k (draw_images sc) = with_key k cmds.
Proof.
  destruct OnDraw_collector_inserts as (Hsc & _ & Hcmds).
  rewrite Hsc. cbn [draw_images set_draw_images]. rewrite Hcmds.
  split; [| split].
  - apply insert_all_sorted. constructor.
  - apply (insert_all_perm cmds []).
  - intros k. apply (insert_all_with_key k cmds []). constructor.
Qed.

(** Every entry of the draw list is the entry of a visited voxel. *)
Lemma OnDraw_entry_origin (p : Z * DrawData) :
  In p (draw_images sc) ->
  exists v : Visit,
    In v (Collect_trace w (sc_base sc)) /\
    SpriteCollector_command to_coord GTP_INVALID store sc v = Some p.
Proof.
  intros Hin.
  destruct OnDraw_draw_list as (_ & Hperm & _).
  apply (Permutation_in p (Permutation_sym Hperm)) in Hin.
  unfold cmds, SpriteCollector_commands in Hin.
  apply in_flat_map in Hin. destruct Hin as (v & Hv & Hp).
  exists v. split; [exact Hv |].
  destruct (SpriteCollector_command to_coord GTP_INVALID store sc v) as [q |].
  - destruct Hp as [-> | []]. reflexivity.
  - destruct Hp.
Qed.

(** An entry with a cursor sprite is the entry of the tracked voxel. *)
Lemma OnDraw_cursor_origin (p : Z * DrawData) (v : Visit) :
  SpriteCollector_command to_coord GTP_INVALID store sc v = Some p ->
  dd_cursor (snd p) <> None ->
  mouse_mode vp = MM_TILE_TERRAFORM /\
  v_xpos v = uint16 (xvoxel vp) /\ v_ypos v = uint16 (yvoxel vp) /\
  v_zpos v = uint8 (zvoxel vp).
Proof.
  destruct OnDraw_collector_inserts as (Hsc & _ & _).
  rewrite Hsc, SpriteCollector_command_frame.
  unfold SpriteCollector_command.
  destruct (v_voxel v) as [svd | tag]; [| discriminate].
  destruct (ground_type svd =? GTP_INVALID); [discriminate |].
  destruct (GetSurfaceSprite store _ _ _ _) as [spr |]; [| discriminate].
  cbv zeta. intros Hp. injection Hp as <-. cbn [snd dd_cursor].
  unfold sc0, OnDraw_setup.
  destruct (mouse_mode vp); cbn.
  - intros Hc. exfalso. apply Hc. reflexivity.
  - destruct (v_xpos v =? uint16 (xvoxel vp)) eqn:Hx; cbn;
      [| intros Hc; exfalso; apply Hc; reflexivity].
    destruct (v_ypos v =? uint16 (yvoxel vp)) eqn:Hy; cbn;
      [| intros Hc; exfalso; apply Hc; reflexivity].
    destruct (v_zpos v =? uint8 (zvoxel vp)) eqn:Hz; cbn;
      [| intros Hc; exfalso; apply Hc; reflexivity].
    intros _. apply Z.eqb_eq in Hx, Hy, Hz. auto.
Qed.

End OnDrawList.

Lemma blits_without_cursor (wind_rect : Rectangle) (m : DrawImages) :
  (forall p : Z * DrawData, In p m -> dd_cursor (snd p) = None) ->
  flat_map (blit_draw_data wind_rect) m
  = map (fun p => BlitImage (dd_base (snd p)) (dd_spr (snd p)) wind_rect) m.
Proof.
  induction m as [| p m IH]; intros Hnone; cbn [flat_map map].
  - reflexivity.
  - unfold blit_draw_data at 1. rewrite (Hnone p (or_introl eq_refl)).
    cbn [app]. f_equal. apply IH. intros q Hq. apply Hnone. now right.
Qed.

(** X4. The draw list [Viewport::OnDraw] blits is a stable sort of the
    draw commands of the visited voxels: its entries are in ascending order
    of their depth keys, they are the entries inserted for the voxels that
    [Collect] visited, each once, and entries with equal keys stand in the
    order in which their voxels were visited. *)
Theorem OnDraw_draw_list_is_stable_sort
        (to_coord : Z -> Z) (GTP_INVALID : Z) (w : World) (store : SpriteStore)
        (vp : Viewport) :
  let sc := OnDraw_collector to_coord GTP_INVALID w store vp in
  let cmds := SpriteCollector_commands to_coord GTP_INVALID store sc
                (Collect_trace w (sc_base sc)) in
  key_sorted (draw_images sc) /\
  Permutation cmds (draw_images sc) /\
  (forall k : Z, with_key k (draw_images sc) = with_key k cmds) /\
  OnDraw to_coord GTP_INVALID w store vp
  = [LockSurface; FillSurface_COL_BACKGROUND]
    ++ flat_map
         (blit_draw_data
            (mkRectangle (mkPoint (win_x vp) (win_y vp))
                         (win_width vp) (win_height vp)))
         (draw_images sc)
    ++ [UnlockSurface].
Proof.
  intros sc cmds.
  destruct (OnDraw_draw_list to_coord GTP_INVALID w store vp)
    as (Hsorted & Hperm & Hkeys).
  split; [exact Hsorted |]. split; [exact Hperm |]. split; [exact Hkeys |].
  reflexivity.
Qed.

(** X5. [Viewport::OnDraw] blits a cursor sprite only in the mouse mode
    [MM_TILE_TERRAFORM] and only over the sprite of the tracked voxel: an
    entry of the draw list with a cursor is the entry of a visited voxel
    whose position is [(xvoxel, yvoxel, zvoxel)].  In the mode [MM_INACTIVE]
    every entry is blitted once, without a cursor. *)
Theorem OnDraw_cursor_only_on_tracked_voxel
        (to_coord : Z -> Z) (GTP_INVALID : Z) (w : World) (store : SpriteStore)
        (vp : Viewport) :
  let sc := OnDraw_collector to_coord GTP_INVALID w store vp in
  (forall p : Z * DrawData,
      In p (draw_images sc) -> dd_cursor (snd p) <> None ->
      mouse_mode vp = MM_TILE_TERRAFORM /\
      exists v : Visit,
        In v (Collect_trace w (sc_base sc)) /\
        SpriteCollector_command to_coord GTP_INVALID store sc v = Some p /\
        v_xpos v = uint16 (xvoxel vp) /\ v_ypos v = uint16 (yvoxel vp) /\
        v_zpos v = uint8 (zvoxel vp)) /\
  (mouse_mode vp = MM_INACTIVE ->
   OnDraw to_coord GTP_INVALID w store vp
   = [LockSurface; FillSurface_COL_BACKGROUND]
     ++ map (fun p => BlitImage (dd_base (snd p)) (dd_spr (snd p))
                        (mkRectangle (mkPoint (win_x vp) (win_y vp))
                                     (win_width vp) (win_height vp)))
            (draw_images sc)
     ++ [UnlockSurface]).
Proof.
  intros sc.
  assert (Horigin : forall p : Z * DrawData,
             In p (draw_images sc) -> dd_cursor (snd p) <> None ->
             mouse_mode vp = MM_TILE_TERRAFORM /\
             exists v : Visit,
               In v (Collect_trace w (sc_base sc)) /\
               SpriteCollector_command to_coord GTP_INVALID store sc v = Some p /\
               v_xpos v = uint16 (xvoxel vp) /\ v_ypos v = uint16 (yvoxel vp) /\
               v_zpos v = uint8 (zvoxel vp)).
  { intros p Hin Hcursor.
    destruct (OnDraw_entry_origin to_coord GTP_INVALID w store vp p Hin)
      as (v & Hv & Hcmd).
    destruct (OnDraw_cursor_origin to_coord GTP_INVALID w store vp p v
                Hcmd Hcursor) as (Hmode & Hpos).
    split; [exact Hmode |]. exists v. auto. }
  split; [exact Horigin |].
  intros Hmode. unfold OnDraw. cbv zeta. fold sc. f_equal. f_equal.
  assert (Hnone : forall p : Z * DrawData,
             In p (draw_images sc) -> dd_cursor (snd p) = None).
  { intros p Hin. destruct (dd_cursor (snd p)) eqn:Hc; [| reflexivity].
    destruct (Horigin p Hin) as [Hterra _]; [rewrite Hc; discriminate |].
    congruence. }
  apply blits_without_cursor. exact Hnone.
Qed.

(** ** The nearest hit *)

Section NearestHit.
Variable GTP_INVALID : Z.
Variable store : SpriteStore.

Let visit := PixelFinder_visit GTP_INVALID store.
Let hits := PixelFinder_hits GTP_INVALID store.

(** A visit without an opaque pixel under the probe changes nothing. *)
Lemma PixelFinder_visit_miss (pf : PixelFinder) (v : Visit) :
  hits (pf_base pf) v = false -> visit pf v = pf.
Proof.
  unfold hits, visit, PixelFinder_visit, PixelFinder_hits,
    PixelFinder_CollectVoxel.
  destruct (v_voxel v) as [svd | tag]; [| reflexivity].
  destruct (ground_type svd =? GTP_INVALID); [reflexivity |].
  destruct (GetSurfaceSprite store _ _ _ _) as [spr |]; [| reflexivity].
  cbv zeta. destruct (found pf && _); [reflexivity |].
  destruct (_ || _); [reflexivity |].
  destruct (uint8 _ =? 0); [reflexivity | discriminate].
Qed.

(** A recorded result carries a pixel that is not transparent. *)
Lemma PixelFinder_visit_pixel (pf : PixelFinder) (v : Visit) :
  visit pf v = pf \/ 0 < pixel (visit pf v) < 256.
Proof.
  unfold visit, PixelFinder_visit, PixelFinder_CollectVoxel.
  destruct (v_voxel v) as [svd | tag]; [| now left].
  destruct (ground_type svd =? GTP_INVALID); [now left |].
  destruct (GetSurfaceSprite store _ _ _ _) as [spr |]; [| now left].
  cbv zeta. destruct (found pf && _); [now left |].
  destruct (_ || _); [now left |].
  destruct (Z.eqb_spec (uint8 (GetPixel spr
      (int16 (px (base (rect (pf_base pf))) - v_xnorth v - spr_xoffset spr)%i32)
      (int16 (py (base (rect (pf_base pf))) - v_ynorth v - spr_yoffset spr)%i32)))
    0) as [Hz | Hnz]; [now left | right].
  cbn [pixel]. unfold uint8 in *.
  pose proof (Z.mod_pos_bound (GetPixel spr
      (int16 (px (base (rect (pf_base pf))) - v_xnorth v - spr_xoffset spr)%i32)
      (int16 (py (base (rect (pf_base pf))) - v_ynorth v - spr_yoffset spr)%i32))
      (2 ^ 8) eq_refl) as Hb.
  change (2 ^ 8) with 256 in *. lia.
Qed.

Variable pf0 : PixelFinder.
Hypothesis fresh : found pf0 = false.

Let this := pf_base pf0.

(** What the finder holds after the visits [vs]. *)
Lemma PixelFinder_after_visits (vs : list Visit) :
  pf_base (fold_left visit vs pf0) = this /\
  ((found (fold_left visit vs pf0) = false /\
    fold_left visit vs pf0 = pf0 /\
    forall u : Visit, In u vs -> hits this u = false) \/
   (exists v : Visit,
       first_nearest_hit GTP_INVALID store this vs v /\
       records_visit (fold_left visit vs pf0) v)).
Proof.
  induction vs as [| x vs IH] using rev_ind.
  - split; [reflexivity |]. left. simpl. split; [exact fresh |].
    split; [reflexivity |]. intros u [].
  - rewrite fold_left_app. cbn [fold_left].
    destruct IH as (Hbase & IH).
    set (r := fold_left visit vs pf0) in *.
    assert (Hbase' : pf_base (visit r x) = this).
    { unfold visit, PixelFinder_visit. rewrite PixelFinder_base_kept.
      exact Hbase. }
    split; [exact Hbase' |].
    destruct (hits this x) eqn:Hx.
    + (* the new visit has an opaque pixel under the probe *)
      destruct (found r && (visit_key (orient (pf_base r)) x <=? distance r))
        eqn:Hnear.
      * (* it is not nearer than the recorded one *)
        apply andb_true_iff in Hnear. destruct Hnear as [Hfound Hle].
        apply Z.leb_le in Hle.
        assert (Hsame : visit r x = r).
        { unfold visit, PixelFinder_visit.
          apply PixelFinder_skips; assumption. }
        rewrite Hsame. right.
        destruct IH as [(Hnone & _) | (v & Hbest & Hrec)]; [congruence |].
        exists v. split; [| exact Hrec].
        destruct Hbest as (before & behind & -> & Hv & Hbefore & Hbehind).
        exists before, (behind ++ [x]).
        split; [rewrite <- app_assoc; reflexivity |].
        split; [exact Hv |]. split; [exact Hbefore |].
        intros u Hu Hhit. apply in_app_iff in Hu.
        destruct Hu as [Hu | [<- | []]]; [apply Hbehind; assumption |].
        destruct Hrec as (_ & Hdist & _). rewrite Hbase in *. lia.
      * (* it is nearer, or the first *)
        right. exists x.
        rewrite <- Hbase in Hx.
        destruct (PixelFinder_visit_hit GTP_INVALID store r x Hx Hnear)
          as (Hf & Hd & Hxv & Hyv & Hzv).
        fold visit in Hf, Hd, Hxv, Hyv, Hzv.
        split.
        -- exists vs, []. split; [reflexivity |].
           split; [rewrite <- Hbase; exact Hx |].
           split; [| intros u []].
           intros u Hu Hhit.
           destruct IH as [(_ & _ & Hnone) | (v & Hbest & Hrec)].
           ++ specialize (Hnone u Hu). unfold hits in Hnone. congruence.
           ++ destruct Hrec as (Hfound & Hdist & _).
              rewrite Hfound in Hnear. cbn [andb] in Hnear.
              apply Z.leb_gt in Hnear. rewrite Hbase in *.
              destruct Hbest as (before & behind & -> & Hv & Hbefore & Hbehind).
              apply in_app_iff in Hu.
              destruct Hu as [Hu | [<- | Hu]].
              ** specialize (Hbefore u Hu Hhit). lia.
              ** lia.
              ** specialize (Hbehind u Hu Hhit). lia.
        -- unfold records_visit. rewrite Hbase'.
           rewrite Hbase in Hd.
           split; [exact Hf |]. split; [exact Hd |].
           split; [exact Hxv |]. split; [exact Hyv |]. split; [exact Hzv |].
           destruct (PixelFinder_visit_pixel r x) as [Hsame | Hpix];
             [| exact Hpix].
           fold visit in Hf. rewrite Hsame in Hf.
           rewrite Hf in Hnear. cbn [andb] in Hnear.
           apply Z.leb_gt in Hnear. rewrite Hsame in Hd.
           rewrite Hbase in Hnear. lia.
    + (* the new visit has none *)
      rewrite <- Hbase in Hx.
      rewrite (PixelFinder_visit_miss r x Hx).
      destruct IH as [(Hnone & Heq & Hmiss) | (v & Hbest & Hrec)].
      * left. split; [exact Hnone |]. split; [exact Heq |].
        intros u Hu. apply in_app_iff in Hu.
        destruct Hu as [Hu | [<- | []]]; [apply Hmiss; exact Hu |].
        rewrite <- Hbase. exact Hx.
      * right. exists v. split; [| exact Hrec].
        destruct Hbest as (before & behind & -> & Hv & Hbefore & Hbehind).
        exists before, (behind ++ [x]).
        split; [rewrite <- app_assoc; reflexivity |].
        split; [exact Hv |]. split; [exact Hbefore |].
        intros u Hu Hhit. apply in_app_iff in Hu.
        destruct Hu as [Hu | [<- | []]]; [apply Hbehind; assumption |].
        rewrite Hbase in Hx. unfold hits in Hx. congruence.
Qed.

End NearestHit.

Section CursorPick.
Variable to_coord : Z -> Z.
Variable GTP_INVALID : Z.
Variable w : World.
Variable store : SpriteStore.
Variable vp : Viewport.

Let r := ComputeCursorPosition_collector to_coord GTP_INVALID w store vp.
Let pf0 := ComputeCursorPosition_setup to_coord vp.

Lemma ComputeCursorPosition_collector_setup :
  r = @Collect w _ (PixelFinder_Collector GTP_INVALID store) pf0.
Proof. reflexivity. Qed.

(** The finder after [Collect] is the finder before it after the visits
    of the pass. *)
Lemma ComputeCursorPosition_collector_visits :
  r = fold_left (PixelFinder_visit GTP_INVALID store)
                (Collect_trace w (pf_base pf0)) pf0.
Proof.
  rewrite ComputeCursorPosition_collector_setup, Collect_trace_cells.
  apply (@Collect_calls w (pf_base pf0) _
           (PixelFinder_Collector GTP_INVALID store)).
  - intros c v a b d e f. apply PixelFinder_base_kept.
  - reflexivity.
Qed.

Lemma ComputeCursorPosition_pick :
  pf_base r = pf_base pf0 /\
  ((found r = false /\
    forall u : Visit,
      In u (Collect_trace w (pf_base r)) ->
      PixelFinder_hits GTP_INVALID store (pf_base r) u = false) \/
   (exists v : Visit,
       first_nearest_hit GTP_INVALID store (pf_base r)
                         (Collect_trace w (pf_base r)) v /\
       records_visit r v)).
Proof.
  rewrite ComputeCursorPosition_collector_visits.
  destruct (PixelFinder_after_visits GTP_INVALID store pf0 eq_refl
              (Collect_trace w (pf_base pf0))) as (Hbase & Hcases).
  split; [exact Hbase |]. rewrite Hbase.
  destruct Hcases as [(Hnone & _ & Hmiss) | Hhit].
  - left. split; assumption.
  - right. exact Hhit.
Qed.

End CursorPick.


(** The finder of [ComputeCursorPosition] does not read the tracked voxel
    or the redraw signals. *)
Lemma ComputeCursorPosition_collector_reads
      (to_coord : Z -> Z) (GTP_INVALID : Z) (w : World) (store : SpriteStore)
      (vp : Viewport) (xv yv zv : Z) :
  ComputeCursorPosition_collector to_coord GTP_INVALID w store
    (MarkDirty (set_voxel vp xv yv zv))
  = ComputeCursorPosition_collector to_coord GTP_INVALID w store vp.
Proof. reflexivity. Qed.

(** X7. [Viewport::ComputeCursorPosition] tracks the picked voxel: when the
    pick finds a voxel, the tracked voxel is that voxel afterwards, and a
    redraw is signalled exactly when it was a different one; when the pick
    finds none, the viewport is left as it is.  Calling it a second time
    changes nothing and signals nothing. *)
Theorem ComputeCursorPosition_tracks_pick
        (to_coord : Z -> Z) (GTP_INVALID : Z) (w : World) (store : SpriteStore)
        (vp : Viewport) :
  let cursor := ComputeCursorPosition to_coord GTP_INVALID w store in
  let r := ComputeCursorPosition_collector to_coord GTP_INVALID w store vp in
  (found r = true ->
   xvoxel (cursor vp) = pf_xvoxel r /\ yvoxel (cursor vp) = pf_yvoxel r /\
   zvoxel (cursor vp) = pf_zvoxel r) /\
  (found r = false -> cursor vp = vp) /\
  (cursor vp = vp \/ dirty_marks (cursor vp) = Datatypes.S (dirty_marks vp)) /\
  ((xvoxel vp, yvoxel vp, zvoxel vp) = (pf_xvoxel r, pf_yvoxel r, pf_zvoxel r)
   -> cursor vp = vp) /\
  cursor (cursor vp) = cursor vp.
Proof.
  intros cursor r.
  assert (Hstep : forall v : Viewport,
             ComputeCursorPosition_collector to_coord GTP_INVALID w store v = r ->
             cursor v
             = if found r
                  && (negb (pf_xvoxel r =? xvoxel v)
                      || negb (pf_yvoxel r =? yvoxel v)
                      || negb (pf_zvoxel r =? zvoxel v))
               then MarkDirty (set_voxel v (pf_xvoxel r) (pf_yvoxel r)
                                         (pf_zvoxel r))
               else v).
  { intros v Hv. unfold cursor, ComputeCursorPosition. cbv zeta.
    rewrite Hv. reflexivity. }
  rewrite (Hstep vp eq_refl).
  destruct (found r) eqn:Hfound; cbn [andb].
  - destruct (negb (pf_xvoxel r =? xvoxel vp)
              || negb (pf_yvoxel r =? yvoxel vp)
              || negb (pf_zvoxel r =? zvoxel vp)) eqn:Hchanged.
    + split; [intros _; cbn; auto |].
      split; [intros Hf; discriminate |].
      split; [right; reflexivity |].
      split.
      * intros Heq. exfalso. injection Heq as Hx Hy Hz.
        rewrite Hx, Hy, Hz, !Z.eqb_refl in Hchanged. discriminate.
      * rewrite Hstep by apply ComputeCursorPosition_collector_reads.
        cbn [xvoxel yvoxel zvoxel MarkDirty set_voxel andb].
        rewrite !Z.eqb_refl. reflexivity.
    + apply orb_false_iff in Hchanged. destruct Hchanged as [Hxy Hz].
      apply orb_false_iff in Hxy. destruct Hxy as [Hx Hy].
      apply negb_false_iff, Z.eqb_eq in Hx, Hy, Hz.
      split; [intros _; auto |].
      split; [intros Hf; discriminate |].
      split; [left; reflexivity |].
      split; [reflexivity |].
      rewrite (Hstep vp eq_refl), <- Hx, <- Hy, <- Hz, !Z.eqb_refl.
      reflexivity.
  - split; [intros Hf; discriminate |].
    split; [reflexivity |]. split; [left; reflexivity |].
    split; [reflexivity |].
    rewrite (Hstep vp eq_refl). reflexivity.
Qed.

(** ** The viewport as a state machine *)

Lemma land_MB_CURRENT (state : Z) :
  Z.land state MB_CURRENT = state mod 8.
Proof.
  unfold MB_CURRENT. change 7 with (Z.ones 3).
  rewrite Z.land_ones by lia. reflexivity.
Qed.

Lemma uint8_small (v : Z) : 0 <= v < 256 -> uint8 v = v.
Proof. intros Hv. unfold uint8. apply Z.mod_small. exact Hv. Qed.

Lemma uint8_range (v : Z) : 0 <= uint8 v < 2 ^ 8.
Proof. unfold uint8. apply Z.mod_pos_bound. reflexivity. Qed.

Lemma uint16_range (v : Z) : 0 <= uint16 v < 2 ^ 16.
Proof. unfold uint16. apply Z.mod_pos_bound. reflexivity. Qed.

Lemma Clamp_inside (a lo hi : Z) : lo <= a <= hi -> Clamp a lo hi = a.
Proof.
  intros Ha. unfold Clamp.
  destruct (Z.leb_spec a lo); [lia |].
  destruct (a >=? hi) eqn:Hge; [| reflexivity].
  rewrite Z.geb_leb in Hge. apply Z.leb_le in Hge. lia.
Qed.

(** [MoveViewport] writes the view center and the redraw signal only. *)
Lemma MoveViewport_frame (w : World) (vp : Viewport) (dx dy : Z) :
  frame_of (MoveViewport w vp dx dy) = frame_of vp /\
  mouse_of (MoveViewport w vp dx dy) = mouse_of vp /\
  tracked_of (MoveViewport w vp dx dy) = tracked_of vp /\
  orientation (MoveViewport w vp dx dy) = orientation vp.
Proof.
  unfold MoveViewport.
  destruct (MoveViewport_target vp dx dy) as [new_x new_y].
  destruct (negb _ || negb _); repeat split; reflexivity.
Qed.

Lemma MoveViewport_in_world (w : World) (vp : Viewport) (dx dy : Z) :
  world_fits w -> center_in_world w (MoveViewport w vp dx dy).
Proof.
  intros [Hx Hy]. unfold center_in_world.
  pose proof (MoveViewport_center w vp dx dy) as Hc.
  unfold MoveViewport_clamped, mul32 in Hc.
  rewrite !int32_small in Hc
    by (unfold in_int32, INT32_MIN, INT32_MAX in *; lia).
  injection Hc as -> ->.
  split; apply Clamp_range; lia.
Qed.

Section Machine.
Variable to_coord : Z -> Z.
Variable GTP_INVALID : Z.
Variable w : World.
Variable store : SpriteStore.

Let cursor := ComputeCursorPosition to_coord GTP_INVALID w store.
Let rotate := Rotate to_coord GTP_INVALID w store.
Let mouse_move := OnMouseMoveEvent to_coord GTP_INVALID w store.

(** [ComputeCursorPosition] writes the tracked voxel and the redraw signal
    only. *)
Lemma ComputeCursorPosition_frame (vp : Viewport) :
  frame_of (cursor vp) = frame_of vp /\
  mouse_of (cursor vp) = mouse_of vp /\
  (vp_xview (cursor vp), vp_yview (cursor vp)) = (vp_xview vp, vp_yview vp) /\
  orientation (cursor vp) = orientation vp.
Proof.
  unfold cursor, ComputeCursorPosition.
  destruct (found _ && _); repeat split; reflexivity.
Qed.

(** The tracked voxel after [ComputeCursorPosition] is the old one or a
    position the finder recorded. *)
Lemma ComputeCursorPosition_tracked (vp : Viewport) :
  tracked_of (cursor vp) = tracked_of vp \/
  exists v : Visit,
    tracked_of (cursor vp)
    = (uint16 (v_xpos v), uint16 (v_ypos v), uint8 (v_zpos v)).
Proof.
  unfold cursor, ComputeCursorPosition. cbv zeta.
  destruct (found _) eqn:Hfound; cbn [andb]; [| now left].
  destruct (negb _ || negb _ || negb _); [| now left].
  right.
  destruct (ComputeCursorPosition_pick to_coord GTP_INVALID w store vp)
    as (_ & [(Hnone & _) | (v & _ & Hrec)]); [congruence |].
  destruct Hrec as (_ & _ & Hx & Hy & Hz & _).
  exists v. unfold tracked_of. cbn [xvoxel yvoxel zvoxel MarkDirty set_voxel].
  rewrite Hx, Hy, Hz. reflexivity.
Qed.

(** [Rotate] writes the orientation, the tracked voxel and the redraw
    signal only. *)
Lemma Rotate_frame (vp : Viewport) (direction : Z) :
  frame_of (rotate vp direction) = frame_of vp /\
  mouse_of (rotate vp direction) = mouse_of vp /\
  (vp_xview (rotate vp direction), vp_yview (rotate vp direction))
  = (vp_xview vp, vp_yview vp).
Proof.
  unfold rotate, Rotate. cbv zeta.
  set (vp1 := set_orientation vp _).
  destruct (ComputeCursorPosition_frame vp1) as (Hf & Hm & Hc & _).
  unfold cursor in Hf, Hm, Hc.
  unfold frame_of, mouse_of in *. cbn [MarkDirty win_x win_y win_width
    win_height vp_zview vp_tile_width vp_tile_height mouse_mode mouse_pos
    mouse_state vp_xview vp_yview].
  rewrite Hf, Hm, Hc. repeat split; reflexivity.
Qed.

Lemma Rotate_tracked (vp : Viewport) (direction : Z) :
  tracked_of (rotate vp direction) = tracked_of vp \/
  exists v : Visit,
    tracked_of (rotate vp direction)
    = (uint16 (v_xpos v), uint16 (v_ypos v), uint8 (v_zpos v)).
Proof.
  unfold rotate, Rotate. cbv zeta.
  set (vp1 := set_orientation vp _).
  destruct (ComputeCursorPosition_tracked vp1) as [Hsame | (v & Hv)].
  - left. unfold cursor in Hsame. unfold tracked_of in *.
    cbn [MarkDirty xvoxel yvoxel zvoxel]. rewrite Hsame. reflexivity.
  - right. exists v. unfold cursor in Hv. unfold tracked_of in *.
    cbn [MarkDirty xvoxel yvoxel zvoxel]. exact Hv.
Qed.

End Machine.

(** X8. Only the sign of the direction counts for [Viewport::Rotate], and
    zero counts as negative: a direction that is not positive turns the
    orientation like -1, a positive one like +1.  A turn one way undoes a
    turn the other way.  [Rotate] leaves the window, the view center, the
    tile size and the mouse state as they are. *)
Theorem Rotate_sign_inverse_frame
        (to_coord : Z -> Z) (GTP_INVALID : Z) (w : World) (store : SpriteStore)
        (vp : Viewport) (direction : Z) :
  let rotate := Rotate to_coord GTP_INVALID w store in
  (direction <= 0 ->
   orientation (rotate vp direction) = orientation (rotate vp (-1))) /\
  (0 < direction ->
   orientation (rotate vp direction) = orientation (rotate vp 1)) /\
  orientation (rotate (rotate vp 1) (-1)) = orientation vp /\
  orientation (rotate (rotate vp (-1)) 1) = orientation vp /\
  orientation (rotate vp 0) = orientation (rotate vp (-1)) /\
  frame_of (rotate vp direction) = frame_of vp /\
  mouse_of (rotate vp direction) = mouse_of vp /\
  (vp_xview (rotate vp direction), vp_yview (rotate vp direction))
  = (vp_xview vp, vp_yview vp).
Proof.
  intros rotate. unfold rotate.
  split; [| split; [| split; [| split; [| split]]]].
  - intros Hd. rewrite !Rotate_orientation. unfold Rotate_val.
    replace (direction >? 0) with false; [reflexivity |].
    symmetry. rewrite Z.gtb_ltb. apply Z.ltb_ge. exact Hd.
  - intros Hd. rewrite !Rotate_orientation. unfold Rotate_val.
    replace (direction >? 0) with true; [reflexivity |].
    symmetry. rewrite Z.gtb_ltb. apply Z.ltb_lt. exact Hd.
  - rewrite !Rotate_orientation. destruct (orientation vp); reflexivity.
  - rewrite !Rotate_orientation. destruct (orientation vp); reflexivity.
  - rewrite !Rotate_orientation. reflexivity.
  - apply Rotate_frame.
Qed.

(** X9. [Viewport::MoveViewport] with a zero delta leaves a viewport whose
    center lies in the world exactly as it is, without a redraw signal; and
    whatever the delta, [MoveViewport] leaves the orientation, the window,
    the tile size, the mouse state and the tracked voxel alone. *)
Theorem MoveViewport_zero_delta_and_frame
        (w : World) (vp : Viewport) (dx dy : Z) :
  world_fits w -> center_in_world w vp ->
  MoveViewport w vp 0 0 = vp /\
  frame_of (MoveViewport w vp dx dy) = frame_of vp /\
  mouse_of (MoveViewport w vp dx dy) = mouse_of vp /\
  tracked_of (MoveViewport w vp dx dy) = tracked_of vp /\
  orientation (MoveViewport w vp dx dy) = orientation vp.
Proof.
  intros [Hwx Hwy] [Hx Hy]. split; [| apply MoveViewport_frame].
  assert (Htarget : MoveViewport_target vp 0 0 = (vp_xview vp, vp_yview vp)).
  { unfold MoveViewport_target. cbv zeta.
    assert (Hzero : forall c : Z, div32 (mul32 0 c) (vp_tile_width vp) = 0).
    { intros c. unfold div32, mul32. rewrite Z.mul_0_l.
      change (int32 0) with 0. destruct (vp_tile_width vp); reflexivity. }
    rewrite !Hzero. unfold add32, sub32.
    rewrite !Z.add_0_r, !Z.sub_0_r, !int32_idem.
    rewrite !int32_small
      by (unfold in_int32, INT32_MIN, INT32_MAX in *; lia).
    destruct (orientation vp); reflexivity. }
  unfold MoveViewport. rewrite Htarget. unfold mul32.
  rewrite !int32_small
    by (unfold in_int32, INT32_MIN, INT32_MAX in *; lia).
  rewrite !Clamp_inside by lia. rewrite !Z.eqb_refl. reflexivity.
Qed.

Lemma MoveViewport_zero_delta_and_frame_witness :
  MoveViewport sample_world (sample_viewport VOR_SOUTH) 0 0
  = sample_viewport VOR_SOUTH.
Proof.
  assert (Hw : world_fits sample_world)
    by (vm_compute; repeat split; discriminate).
  assert (Hc : center_in_world sample_world (sample_viewport VOR_SOUTH))
    by (vm_compute; repeat split; discriminate).
  exact (proj1 (MoveViewport_zero_delta_and_frame
                  sample_world (sample_viewport VOR_SOUTH) 0 0 Hw Hc)).
Defined.

(** The invariant passes to a viewport with the same frame, button state
    and view center, whose tracked voxel is the same or a recorded one. *)
Lemma viewport_invariant_transfer (w : World) (v v' : Viewport) :
  frame_of v' = frame_of v ->
  mouse_of v' = mouse_of v ->
  (vp_xview v', vp_yview v') = (vp_xview v, vp_yview v) ->
  (tracked_of v' = tracked_of v \/
   exists u : Visit,
     tracked_of v' = (uint16 (v_xpos u), uint16 (v_ypos u), uint8 (v_zpos u))) ->
  viewport_invariant w v -> viewport_invariant w v'.
Proof.
  unfold frame_of, mouse_of, tracked_of, viewport_invariant, center_in_world.
  intros Hf Hm Hc Ht (Hcen & Hz & Htw & Hth & Hms & Hxv & Hyv & Hzv).
  injection Hf as _ _ _ _ Hfz Hftw Hfth. injection Hm as _ _ Hmst.
  injection Hc as Hcx Hcy.
  rewrite Hfz, Hftw, Hfth, Hmst, Hcx, Hcy.
  split; [exact Hcen |]. repeat (split; [assumption |]).
  destruct Ht as [Hsame | (u & Hu)].
  - injection Hsame as -> -> ->. auto.
  - injection Hu as -> -> ->.
    split; [apply uint16_range |]. split; [apply uint16_range |].
    apply uint8_range.
Qed.

Section Invariant.
Variable to_coord : Z -> Z.
Variable GTP_INVALID : Z.
Variable w : World.
Variable store : SpriteStore.
Hypothesis Hworld : world_fits w.

Lemma new_Viewport_invariant (x y wd ht : Z) :
  viewport_invariant w (new_Viewport w x y wd ht).
Proof.
  destruct Hworld as [Hx Hy].
  unfold viewport_invariant, center_in_world, new_Viewport, MB_CURRENT.
  cbn [vp_xview vp_yview vp_zview vp_tile_width vp_tile_height mouse_state
       xvoxel yvoxel zvoxel].
  unfold div32, mul32.
  rewrite !(int32_small (_ * 256))
    by (unfold in_int32, INT32_MIN, INT32_MAX in *; lia).
  assert (Hhalf : forall a : Z, 0 <= a <= INT32_MAX ->
                                int32 (Z.quot a 2) = Z.quot a 2
                                /\ 0 <= Z.quot a 2 <= a).
  { intros a Ha.
    pose proof (quot_bound a 2 a ltac:(lia) ltac:(lia)) as Hq.
    assert (0 <= Z.quot a 2) by (apply Z.quot_pos; lia).
    split; [| lia]. apply int32_small.
    unfold in_int32, INT32_MIN, INT32_MAX in *. lia. }
  destruct (Hhalf _ Hx) as [-> Hqx]. destruct (Hhalf _ Hy) as [-> Hqy].
  repeat split; try lia; reflexivity.
Qed.

(** Every call keeps the invariant. *)
Lemma run_call_invariant (vp : Viewport) (call : ViewportCall) :
  viewport_invariant w vp ->
  viewport_invariant w (run_call to_coord GTP_INVALID w store vp call).
Proof.
  intros (Hc & Hz & Htw & Hth & Hms & Hxv & Hyv & Hzv).
  assert (Hcursor : forall v : Viewport,
             viewport_invariant w v ->
             viewport_invariant w
               (ComputeCursorPosition to_coord GTP_INVALID w store v)).
  { intros v Hv.
    destruct (ComputeCursorPosition_frame to_coord GTP_INVALID w store v)
      as (Hf & Hm & Hcen & _).
    apply (viewport_invariant_transfer w v _ Hf Hm Hcen); [| exact Hv].
    apply ComputeCursorPosition_tracked. }
  assert (Hmove : forall (v : Viewport) (dx dy : Z),
             viewport_invariant w v ->
             viewport_invariant w (MoveViewport w v dx dy)).
  { intros v dx dy (Hc' & Hz' & Htw' & Hth' & Hms' & Hxv' & Hyv' & Hzv').
    destruct (MoveViewport_frame w v dx dy) as (Hf & Hm & Ht & _).
    unfold frame_of, mouse_of, tracked_of in Hf, Hm, Ht.
    injection Hf as _ _ _ _ Hfz Hftw Hfth. injection Hm as _ _ Hmst.
    injection Ht as Htx Hty Htz.
    unfold viewport_invariant.
    rewrite Hfz, Hftw, Hfth, Hmst, Htx, Hty, Htz.
    split; [apply MoveViewport_in_world; exact Hworld |].
    repeat (split; [assumption |]). assumption. }
  assert (Hmouse : forall (v : Viewport) (mode : MouseMode) (pos : Point)
                          (state : Z),
             viewport_invariant w v -> 0 <= state <= MB_CURRENT ->
             viewport_invariant w (set_mouse v mode pos state)).
  { intros v mode pos state (Hc' & Hrest) Hstate.
    unfold viewport_invariant, center_in_world in *.
    cbn [set_mouse vp_xview vp_yview vp_zview vp_tile_width vp_tile_height
         mouse_state xvoxel yvoxel zvoxel].
    split; [exact Hc' |].
    destruct Hrest as (Hz' & Htw' & Hth' & _ & Htr). auto. }
  assert (Hinv : viewport_invariant w vp).
  { unfold viewport_invariant. auto 10. }
  destruct call as [direction | dx dy | mode | pos | state | | |];
    cbn [run_call].
  - (* Rotate *)
    destruct (Rotate_frame to_coord GTP_INVALID w store vp direction)
      as (Hf & Hm & Hcen).
    apply (viewport_invariant_transfer w vp _ Hf Hm Hcen); [| exact Hinv].
    apply Rotate_tracked.
  - apply Hmove. exact Hinv.
  - apply Hmouse; [exact Hinv | unfold MB_CURRENT; lia].
  - (* OnMouseMoveEvent *)
    unfold OnMouseMoveEvent.
    destruct (mouse_mode vp); [exact Hinv |].
    destruct (Point_eqb pos (mouse_pos vp)); [exact Hinv |].
    destruct (negb (Z.land (mouse_state vp) MB_RIGHT =? 0)).
    + cbv zeta.
      set (vp1 := MoveViewport w vp _ _).
      assert (H1 : viewport_invariant w vp1) by (apply Hmove; exact Hinv).
      apply Hmouse; [exact H1 |].
      destruct H1 as (_ & _ & _ & _ & Hms1 & _). exact Hms1.
    + apply Hcursor. apply Hmouse; [exact Hinv | exact Hms].
  - (* OnMouseButtonEvent *)
    unfold OnMouseButtonEvent.
    destruct (mouse_mode vp); [exact Hinv |].
    apply Hmouse; [exact Hinv |].
    rewrite land_MB_CURRENT.
    pose proof (Z.mod_pos_bound state 8 eq_refl) as Hb.
    rewrite uint8_small by lia. unfold MB_CURRENT. lia.
  - apply Hmouse; [exact Hinv | unfold MB_CURRENT; lia].
  - apply Hmouse; [exact Hinv | unfold MB_CURRENT; lia].
  - apply Hcursor. exact Hinv.
Qed.

Lemma run_calls_invariant (calls : list ViewportCall) :
  forall vp : Viewport,
    viewport_invariant w vp ->
    viewport_invariant w
      (fold_left (run_call to_coord GTP_INVALID w store) calls vp).
Proof.
  induction calls as [| call calls IH]; intros vp Hinv; simpl.
  - exact Hinv.
  - apply IH, run_call_invariant, Hinv.
Qed.

End Invariant.

(** X10. On a world whose extent fits in an [int32], a viewport keeps its
    invariants through every sequence of calls of [Rotate], [MoveViewport],
    [SetMouseMode], the mouse event handlers and [ComputeCursorPosition],
    from its construction on: the view center lies in the world, the height
    of the view and the tile size stay 2048 and 64 by 16, the button state
    stays within the mask [MB_CURRENT], and the tracked voxel fits its
    16, 16 and 8 bits. *)
Theorem viewport_invariant_always
        (to_coord : Z -> Z) (GTP_INVALID : Z) (w : World) (store : SpriteStore)
        (x y wd ht : Z) (calls : list ViewportCall) :
  world_fits w ->
  viewport_invariant w
    (fold_left (run_call to_coord GTP_INVALID w store) calls
               (new_Viewport w x y wd ht)).
Proof.
  intros Hworld. apply run_calls_invariant; [exact Hworld |].
  apply new_Viewport_invariant. exact Hworld.
Qed.

Lemma viewport_invariant_always_witness :
  viewport_invariant sample_world
    (fold_left (run_call int32 sample_GTP_INVALID sample_world sample_store)
               [CallSetMouseMode MM_TILE_TERRAFORM; CallOnMouseButtonEvent 4;
                CallOnMouseMoveEvent (mkPoint 30 (-20)); CallRotate 1]
               (new_Viewport sample_world 0 0 640 480)).
Proof.
  assert (Hw : world_fits sample_world)
    by (vm_compute; repeat split; discriminate).
  exact (viewport_invariant_always int32 sample_GTP_INVALID sample_world
           sample_store 0 0 640 480 _ Hw).
Defined.

(** X11. [Viewport::OnMouseMoveEvent] moves the view only in a drag: the
    view center changes only in the mode [MM_TILE_TERRAFORM] with the right
    button down, and in a drag the tracked voxel is not touched; with the
    right button up the new pointer position is stored and the view center
    stays.  The mode [MM_INACTIVE] and an event at the stored position
    change nothing.  The orientation, the window, the tile size, the mode and
    the button state are never changed. *)
Theorem OnMouseMoveEvent_drags_or_tracks
        (to_coord : Z -> Z) (GTP_INVALID : Z) (w : World) (store : SpriteStore)
        (vp : Viewport) (pos : Point) :
  let vp' := OnMouseMoveEvent to_coord GTP_INVALID w store vp pos in
  let dragging := negb (Z.land (mouse_state vp) MB_RIGHT =? 0) in
  (mouse_mode vp = MM_INACTIVE -> vp' = vp) /\
  (Point_eqb pos (mouse_pos vp) = true -> vp' = vp) /\
  ((vp_xview vp', vp_yview vp') <> (vp_xview vp, vp_yview vp) ->
   mouse_mode vp = MM_TILE_TERRAFORM /\ dragging = true) /\
  (mouse_mode vp = MM_TILE_TERRAFORM -> Point_eqb pos (mouse_pos vp) = false ->
   mouse_pos vp' = pos /\
   (dragging = true ->
    tracked_of vp' = tracked_of vp /\
    (vp_xview vp', vp_yview vp')
    = MoveViewport_clamped w vp (px pos - px (mouse_pos vp))%i32
                           (py pos - py (mouse_pos vp))%i32)) /\
  orientation vp' = orientation vp /\
  frame_of vp' = frame_of vp /\
  mouse_mode vp' = mouse_mode vp /\
  mouse_state vp' = mouse_state vp.
Proof.
  intros vp' dragging. unfold vp', dragging, OnMouseMoveEvent.
  destruct (mouse_mode vp) eqn:Hmode.
  - split; [intros _; reflexivity |]. split; [intros _; reflexivity |].
    split; [intros Hne; exfalso; apply Hne; reflexivity |].
    split; [intros Hm; discriminate Hm |].
    repeat split; first [reflexivity | assumption].
  - destruct (Point_eqb pos (mouse_pos vp)) eqn:Hpos.
    + split; [intros _; reflexivity |]. split; [intros _; reflexivity |].
      split; [intros Hne; exfalso; apply Hne; reflexivity |].
      split; [intros _ Hp; discriminate Hp |].
      repeat split; first [reflexivity | assumption].
    + destruct (negb (Z.land (mouse_state vp) MB_RIGHT =? 0)) eqn:Hdrag.
      * cbv zeta.
        set (dx := (px pos - px (mouse_pos vp))%i32).
        set (dy := (py pos - py (mouse_pos vp))%i32).
        destruct (MoveViewport_frame w vp dx dy) as (Hf & Hm & Ht & Ho).
        pose proof (MoveViewport_center w vp dx dy) as Hc.
        unfold mouse_of in Hm. injection Hm as Hmm _ Hms.
        cbn [set_mouse vp_xview vp_yview mouse_pos orientation mouse_mode
             mouse_state].
        split; [discriminate |]. split; [discriminate |].
        split; [intros _; split; reflexivity |].
        split; [intros _ _; split; [reflexivity |]; intros _;
                split; [exact Ht | exact Hc] |].
        split; [exact Ho |]. split; [exact Hf |].
        split; [rewrite Hmm; exact Hmode | exact Hms].
      * set (vp1 := set_mouse vp MM_TILE_TERRAFORM pos (mouse_state vp)).
        destruct (ComputeCursorPosition_frame to_coord GTP_INVALID w store vp1)
          as (Hf & Hm & Hc & Ho).
        unfold mouse_of in Hm. injection Hm as Hmm Hmp Hms.
        split; [discriminate |]. split; [discriminate |].
        split; [intros Hne; exfalso; apply Hne; rewrite Hc; reflexivity |].
        split; [intros _ _; split; [exact Hmp | discriminate] |].
        split; [exact Ho |]. split; [exact Hf |].
        split; [exact Hmm | exact Hms].
Qed.

(** ** Tile corners *)

Lemma comb_x_scale (o : ViewOrientation) (i j : Z) :
  spec_comb_x o (256 * i) (256 * j) = 256 * spec_comb_x o i j.
Proof. unfold spec_comb_x. destruct o; lia. Qed.

Lemma comb_y_scale (o : ViewOrientation) (i j : Z) :
  spec_comb_y o (256 * i) (256 * j) = 256 * spec_comb_y o i j.
Proof. unfold spec_comb_y. destruct o; lia. Qed.

(** X12. Tile corners are projected without rounding: for a position whose
    coordinates are whole tiles, [(256*i, 256*j, 256*k)], projected without
    overflow, an even tile width gives the screen X
    [comb_x(i, j) * (tile_width / 2)] and a tile width divisible by 4 gives
    the screen Y [comb_y(i, j) * (tile_width / 4) - k * tile_height], so
    neighbouring tiles are exactly half a tile width apart. *)
Theorem tile_corners_project_exactly
        (vc : VoxelCollector) (i j k half quarter : Z) :
  projection_fits vc (256 * i) (256 * j) (256 * k) ->
  (tile_width vc = 2 * half ->
   ComputeX vc (256 * i) (256 * j) = spec_comb_x (orient vc) i j * half) /\
  (tile_width vc = 4 * quarter ->
   ComputeY vc (256 * i) (256 * j) (256 * k)
   = spec_comb_y (orient vc) i j * quarter - k * tile_height vc).
Proof.
  intros Hfits. split.
  - intros Htw.
    rewrite (ComputeX_exact vc _ _ _ Hfits). unfold spec_screenX.
    rewrite comb_x_scale, Htw.
    replace (256 * spec_comb_x (orient vc) i j * (2 * half))
      with (spec_comb_x (orient vc) i j * half * 256 * 2) by lia.
    rewrite Z.quot_mul by discriminate.
    apply Z.div_mul. discriminate.
  - intros Htw.
    rewrite (ComputeY_exact vc _ _ _ Hfits). unfold spec_screenY.
    rewrite comb_y_scale, Htw.
    replace (256 * spec_comb_y (orient vc) i j * (4 * quarter))
      with (spec_comb_y (orient vc) i j * quarter * 256 * 4) by lia.
    rewrite Z.quot_mul by discriminate.
    replace (spec_comb_y (orient vc) i j * quarter * 256
             - 256 * k * tile_height vc)
      with ((spec_comb_y (orient vc) i j * quarter - k * tile_height vc) * 256)
      by lia.
    apply Z.div_mul. discriminate.
Qed.

Lemma tile_corners_project_exactly_witness :
  ComputeX (sample_collector VOR_SOUTH) (256 * 7) (256 * 3)
  = spec_comb_x VOR_SOUTH 7 3 * 32 /\
  ComputeY (sample_collector VOR_SOUTH) (256 * 7) (256 * 3) (256 * 2)
  = spec_comb_y VOR_SOUTH 7 3 * 16 - 2 * 16.
Proof.
  assert (Hfits : projection_fits (sample_collector VOR_SOUTH)
                                  (256 * 7) (256 * 3) (256 * 2))
    by (vm_compute; repeat split; discriminate).
  split.
  - exact (proj1 (tile_corners_project_exactly (sample_collector VOR_SOUTH)
                    7 3 2 32 16 Hfits) eq_refl).
  - exact (proj2 (tile_corners_project_exactly (sample_collector VOR_SOUTH)
                    7 3 2 32 16 Hfits) eq_refl).
Defined.

(** ** Loading coaster data *)

Lemma set_nth_length {A : Type} (i : nat) (x : A) (a : list A) :
  List.length (set_nth i x a) = List.length a.
Proof.
  revert i. induction a as [| y a IH]; intros i; destruct i; simpl;
    try reflexivity.
  rewrite IH. reflexivity.
Qed.

Lemma set_nth_same {A : Type} (i : nat) (x d : A) (a : list A) :
  (i < List.length a)%nat -> nth i (set_nth i x a) d = x.
Proof.
  revert i. induction a as [| y a IH]; intros i Hi; destruct i; simpl in *;
    try lia; try reflexivity.
  apply IH. lia.
Qed.

Lemma set_nth_other {A : Type} (i k : nat) (x d : A) (a : list A) :
  i <> k -> nth k (set_nth i x a) d = nth k a d.
Proof.
  revert i k. induction a as [| y a IH]; intros i k Hne; destruct i, k;
    simpl; try reflexivity; try lia.
  apply IH. lia.
Qed.

Section Loading.
Context `{RcdEnv}.
Variable pos : RcdFile -> Z.
Hypothesis Hreaders : readers_advance pos.

Lemma load_sprites_ok (sprites : ImageMap) (n : nat) :
  forall (i : nat) (f : RcdFile) (a : list (option ImageData)),
    List.length (snd (fst (load_sprites n i f sprites a))) = List.length a /\
    (fst (fst (load_sprites n i f sprites a)) = true ->
     pos (snd (load_sprites n i f sprites a)) = pos f + 4 * Z.of_nat n).
Proof.
  destruct Hreaders as (_ & _ & _ & _ & Hspr & _).
  induction n as [| n IH]; intros i f a; cbn [load_sprites].
  - split; [reflexivity | intros _; simpl; lia].
  - specialize (Hspr f sprites (nth i a None)).
    destruct (LoadSpriteFromFile f sprites (nth i a None)) as [[ok spr] f1].
    cbn [fst snd] in Hspr. destruct ok.
    + destruct (IH (Datatypes.S i) f1 (set_nth i spr a)) as [Hlen Hpos].
      rewrite set_nth_length in Hlen. split; [exact Hlen |].
      intros Hok. rewrite (Hpos Hok), (Hspr eq_refl). lia.
    + cbn [fst snd]. split; [apply set_nth_length | discriminate].
Qed.

(** What [TrackVoxel::Load] returns. *)
Lemma TrackVoxel_Load_result (this : TrackVoxel) (f : RcdFile) (length : Z)
      (sprites : ImageMap) :
  (length <> 36 -> TrackVoxel_Load this f length sprites = (false, this, f)) /\
  (fst (fst (TrackVoxel_Load this f length sprites)) = true ->
   length = 36 /\
   pos (snd (TrackVoxel_Load this f length sprites)) = pos f + 36 /\
   List.length (back (snd (fst (TrackVoxel_Load this f length sprites))))
   = List.length (back this) /\
   List.length (front (snd (fst (TrackVoxel_Load this f length sprites))))
   = List.length (front this)).
Proof.
  destruct Hreaders as (Hu8 & Hi8 & _ & _ & _ & _).
  unfold TrackVoxel_Load. change (4 * 4 + 4 * 4 + 3 + 1) with 36.
  destruct (Z.eqb_spec length 36) as [Hlen | Hlen]; cbn [negb].
  - split; [intros Hne; contradiction |].
    destruct (load_sprites_ok sprites 4 0 f (back this)) as [Hbl Hbp].
    destruct (load_sprites 4 0 f sprites (back this)) as [[ok1 back'] f1].
    cbn [fst snd] in Hbl, Hbp. cbn [front back tv_dx tv_dy tv_dz space].
    destruct ok1; cbn [negb]; [| discriminate].
    destruct (load_sprites_ok sprites 4 0 f1 (front this)) as [Hfl Hfp].
    destruct (load_sprites 4 0 f1 sprites (front this)) as [[ok2 front'] f2].
    cbn [fst snd] in Hfl, Hfp. cbn [front back tv_dx tv_dy tv_dz space].
    destruct ok2; cbn [negb]; [| discriminate].
    pose proof (Hi8 f2) as H1.
    destruct (GetInt8 f2) as [dx f3]. cbn [snd] in H1.
    pose proof (Hi8 f3) as H2.
    destruct (GetInt8 f3) as [dy f4]. cbn [snd] in H2.
    pose proof (Hi8 f4) as H3.
    destruct (GetInt8 f4) as [dz f5]. cbn [snd] in H3.
    pose proof (Hu8 f5) as H4.
    destruct (GetUInt8 f5) as [sp f6]. cbn [snd] in H4.
    cbn [fst snd back front]. intros _.
    split; [exact Hlen |]. split; [| split; assumption].
    rewrite H4, H3, H2, H1, (Hfp eq_refl), (Hbp eq_refl). lia.
  - split; [intros _; reflexivity | discriminate].
Qed.

Lemma load_voxels_ok (sprites : ImageMap) (n : nat) :
  forall (i : nat) (f : RcdFile) (a : list TrackVoxel),
    List.length (snd (fst (load_voxels n i f sprites a))) = List.length a /\
    (fst (fst (load_voxels n i f sprites a)) = true ->
     pos (snd (load_voxels n i f sprites a)) = pos f + 36 * Z.of_nat n).
Proof.
  induction n as [| n IH]; intros i f a; cbn [load_voxels].
  - split; [reflexivity | intros _; simpl; lia].
  - destruct (TrackVoxel_Load_result (nth i a new_TrackVoxel) f 36 sprites)
      as [_ Hok].
    destruct (TrackVoxel_Load (nth i a new_TrackVoxel) f 36 sprites)
      as [[ok tv] f1].
    cbn [fst snd] in Hok. destruct ok.
    + destruct (IH (Datatypes.S i) f1 (set_nth i tv a)) as [Hlen Hpos].
      rewrite set_nth_length in Hlen. split; [exact Hlen |].
      intros Hall. destruct (Hok eq_refl) as (_ & Hp & _).
      rewrite (Hpos Hall), Hp. lia.
    + cbn [fst snd]. split; [apply set_nth_length | discriminate].
Qed.

End Loading.

Section LoadingPieces.
Context `{RcdEnv}.
Variable pos : RcdFile -> Z.
Hypothesis Hreaders : readers_advance pos.
Hypothesis Hcount : GetUInt16_in_range.

Lemma uint32_small (v : Z) : 0 <= v < 2 ^ 32 -> uint32 v = v.
Proof. intros Hv. unfold uint32. apply Z.mod_small. exact Hv. Qed.

(** X14.  [TrackPiece::Load] and the length of its block: a block shorter
    than the 13 bytes of the header is refused before anything is read or
    written; a block that is accepted has the length 13 + 36 * voxel_count,
    the file has advanced by exactly that length, and [track_voxels] holds
    [voxel_count] voxels.  The readers are assumed to advance by the width
    in their name, a sprite reference to take four bytes, and the length to
    be a [uint32]. *)
Theorem TrackPiece_Load_consumes_its_length (this : TrackPiece) (f : RcdFile) (length : Z)
      (sprites : ImageMap) :
  0 <= length < 2 ^ 32 ->
  (length < 13 -> TrackPiece_Load this f length sprites = (false, this, f)) /\
  (fst (fst (TrackPiece_Load this f length sprites)) = true ->
   let this' := snd (fst (TrackPiece_Load this f length sprites)) in
   0 <= voxel_count this' < 2 ^ 16 /\
   length = 13 + 36 * voxel_count this' /\
   pos (snd (TrackPiece_Load this f length sprites)) = pos f + length /\
   exists voxels_ : list TrackVoxel,
     track_voxels this' = Some voxels_ /\
     Z.of_nat (List.length voxels_) = voxel_count this').
Proof.
  intros Hlength.
  destruct Hreaders as (Hu8 & Hi8 & Hu16 & Hu32 & _ & _).
  unfold TrackPiece_Load. change (2 + 3 + 1 + 1 + 4 + 2) with 13.
  destruct (Z.ltb_spec length 13) as [Hshort | Hlong].
  - split; [intros _; reflexivity | discriminate].
  - split; [intros Hlt; lia |].
    cbv zeta.
    pose proof (Hu8 f) as P1. destruct (GetUInt8 f) as [entry f1].
    pose proof (Hu8 f1) as P2. destruct (GetUInt8 f1) as [exit_ f2].
    pose proof (Hi8 f2) as P3. destruct (GetInt8 f2) as [dx f3].
    pose proof (Hi8 f3) as P4. destruct (GetInt8 f3) as [dy f4].
    pose proof (Hi8 f4) as P5. destruct (GetInt8 f4) as [dz f5].
    pose proof (Hi8 f5) as P6. destruct (GetInt8 f5) as [spd f6].
    pose proof (Hu8 f6) as P7. destruct (GetUInt8 f6) as [flags f7].
    pose proof (Hu32 f7) as P8. destruct (GetUInt32 f7) as [cst f8].
    pose proof (Hu16 f8) as P9. pose proof (Hcount f8) as Hc.
    destruct (GetUInt16 f8) as [count f9].
    cbn [fst snd] in *. change (2 ^ 16) with 65536 in Hc.
    change (2 ^ 32) with 4294967296 in Hlength.
    rewrite (uint32_small (length - 13))
      by (change (2 ^ 32) with 4294967296; lia).
    rewrite (uint32_small (36 * count))
      by (change (2 ^ 32) with 4294967296; lia).
    destruct (Z.eqb_spec (length - 13) (36 * count)) as [Hlen | Hlen];
      cbn [negb]; [| discriminate].
    destruct (load_voxels_ok pos Hreaders sprites (Z.to_nat count) 0 f9
                (repeat new_TrackVoxel (Z.to_nat count))) as [Hvl Hvp].
    destruct (load_voxels (Z.to_nat count) 0 f9 sprites
                (repeat new_TrackVoxel (Z.to_nat count)))
      as [[ok voxels_] f10].
    cbn [fst snd] in *. intros Hok.
    cbn [voxel_count track_voxels].
    split; [change (2 ^ 16) with 65536; lia |]. split; [lia |]. split.
    + rewrite (Hvp Hok), P9, P8, P7, P6, P5, P4, P3, P2, P1. lia.
    + exists voxels_. split; [reflexivity |].
      rewrite Hvl, repeat_length. lia.
Qed.

Lemma load_pieces_ok (piece_map : Z -> option TrackPieceRef) (n : nat) :
  forall (i : nat) (f : RcdFile) (a : list (option TrackPieceRef)),
    List.length (snd (fst (load_pieces n i f piece_map a))) = List.length a /\
    (fst (fst (load_pieces n i f piece_map a)) = true ->
     pos (snd (load_pieces n i f piece_map a)) = pos f + 4 * Z.of_nat n /\
     (forall k : nat,
         (k < i)%nat ->
         nth k (snd (fst (load_pieces n i f piece_map a))) None = nth k a None)
     /\
     (forall k : nat,
         (i <= k < i + n)%nat -> (k < List.length a)%nat ->
         exists (val : Z) (piece : TrackPieceRef),
           val <> 0 /\ piece_map val = Some piece /\
           nth k (snd (fst (load_pieces n i f piece_map a))) None
           = Some piece)).
Proof.
  destruct Hreaders as (_ & _ & _ & Hu32 & _ & _).
  induction n as [| n IH]; intros i f a; cbn [load_pieces].
  - split; [reflexivity |]. intros _. cbn [fst snd].
    split; [simpl; lia |]. split; [reflexivity |]. intros k Hk. lia.
  - pose proof (Hu32 f) as P. destruct (GetUInt32 f) as [val f1].
    cbn [snd] in P.
    destruct (Z.eqb_spec val 0) as [Hz | Hnz];
      [split; [reflexivity | discriminate] |].
    destruct (piece_map val) as [piece |] eqn:Hfind;
      [| split; [reflexivity | discriminate]].
    destruct (IH (Datatypes.S i) f1 (set_nth i (Some piece) a))
      as [Hlen Hrest].
    rewrite set_nth_length in Hlen. split; [exact Hlen |].
    intros Hok. destruct (Hrest Hok) as (Hp & Hbelow & Hfrom).
    split; [rewrite Hp, P; lia |]. split.
    + intros k Hk. rewrite Hbelow by lia. apply set_nth_other. lia.
    + intros k Hk Hka.
      destruct (Nat.eq_dec k i) as [-> | Hne].
      * exists val, piece. split; [exact Hnz |]. split; [exact Hfind |].
        rewrite Hbelow by lia. apply set_nth_same. exact Hka.
      * apply Hfrom; [lia |]. rewrite set_nth_length. exact Hka.
Qed.

(** X15.  [CoasterType::Load] accepts only well-formed blocks: a block
    shorter than the 9 bytes of the header is refused with the file, the
    coaster type and the language untouched; after a load that succeeds the
    kind and the platform are not 0 and below [CST_COUNT] and [CPT_COUNT],
    the length was 9 + 4 * piece_count, the file has advanced by exactly
    that length, and every entry of [pieces] is the track piece that
    [piece_map] has for a number other than 0. *)
Theorem CoasterType_Load_accepts_only_valid_blocks (this : CoasterType) (f : RcdFile) (length : Z)
      (texts : TextMap) (piece_map : Z -> option TrackPieceRef)
      (lang : Language) :
  0 <= length < 2 ^ 32 ->
  (length < 9 ->
   CoasterType_Load this f length texts piece_map lang
   = (false, this, f, lang)) /\
  (fst (fst (fst (CoasterType_Load this f length texts piece_map lang))) = true
   ->
   let this' :=
     snd (fst (fst (CoasterType_Load this f length texts piece_map lang))) in
   (coaster_kind this' <> 0 /\ coaster_kind this' < CST_COUNT) /\
   (platform_type this' <> 0 /\ platform_type this' < CPT_COUNT) /\
   length = 9 + 4 * piece_count this' /\
   pos (snd (fst (CoasterType_Load this f length texts piece_map lang)))
   = pos f + length /\
   exists pieces_ : list (option TrackPieceRef),
     pieces this' = Some pieces_ /\
     Z.of_nat (List.length pieces_) = piece_count this' /\
     forall k : nat,
       (k < List.length pieces_)%nat ->
       exists (val : Z) (piece : TrackPieceRef),
         val <> 0 /\ piece_map val = Some piece /\
         nth k pieces_ None = Some piece).
Proof.
  intros Hlength.
  destruct Hreaders as (Hu8 & _ & Hu16 & _ & _ & Htext).
  unfold CoasterType_Load. change (2 + 1 + 4 + 2) with 9.
  destruct (Z.ltb_spec length 9) as [Hshort | Hlong].
  - split; [intros _; reflexivity | discriminate].
  - split; [intros Hlt; lia |].
    cbv zeta.
    pose proof (Hu16 f) as P1. pose proof (Hcount f) as Hk.
    destruct (GetUInt16 f) as [kind f1].
    pose proof (Hu8 f1) as P2. destruct (GetUInt8 f1) as [platform f2].
    cbn [fst snd] in P1, P2, Hk.
    destruct (Z.eqb_spec kind 0) as [Hk0 | Hk0]; cbn [orb];
      [discriminate |].
    destruct (kind >=? CST_COUNT) eqn:Hkc; [discriminate |].
    destruct (Z.eqb_spec platform 0) as [Hp0 | Hp0]; cbn [orb];
      [discriminate |].
    destruct (platform >=? CPT_COUNT) eqn:Hpc; [discriminate |].
    rewrite Z.geb_leb in Hkc, Hpc. apply Z.leb_gt in Hkc, Hpc.
    specialize (Htext f2 texts).
    destruct (LoadTextFromFile f2 texts) as [[text_data |] f3];
      [| discriminate].
    cbn [fst snd] in Htext. specialize (Htext text_data eq_refl).
    destruct (RegisterStrings lang text_data) as [base_ lang1].
    pose proof (Hu16 f3) as P3. pose proof (Hcount f3) as Hc.
    destruct (GetUInt16 f3) as [count f4].
    cbn [fst snd] in P3, Hc. change (2 ^ 16) with 65536 in Hc, Hk.
    change (2 ^ 32) with 4294967296 in Hlength.
    rewrite (uint32_small (length - 9))
      by (change (2 ^ 32) with 4294967296; lia).
    rewrite (uint32_small (4 * count))
      by (change (2 ^ 32) with 4294967296; lia).
    destruct (Z.eqb_spec (length - 9) (4 * count)) as [Hlen | Hlen];
      cbn [negb]; [| discriminate].
    destruct (load_pieces_ok piece_map (Z.to_nat count) 0 f4
                (repeat None (Z.to_nat count))) as [Hpl Hpp].
    destruct (load_pieces (Z.to_nat count) 0 f4 piece_map
                (repeat None (Z.to_nat count))) as [[ok pieces_] f5].
    cbn [fst snd] in *. intros Hok.
    cbn [coaster_kind platform_type piece_count pieces].
    destruct (Hpp Hok) as (Hp & _ & Hall).
    split; [split; [exact Hk0 | exact Hkc] |].
    split; [split; [exact Hp0 | exact Hpc] |]. split; [lia |]. split.
    + rewrite Hp, P3, Htext, P2, P1. lia.
    + exists pieces_. split; [reflexivity |].
      rewrite Hpl, repeat_length. split; [lia |].
      intros k Hk'. apply Hall; [lia |]. rewrite repeat_length. exact Hk'.
Qed.

End LoadingPieces.

(** X13.  [TrackVoxel::Load] and the length of its block: any length but
    36 is refused before anything is read or written; a block that is
    accepted has made the file advance by exactly its length, and the two
    sprite arrays have kept their sizes.  The readers are assumed to advance
    by the width in their name and a sprite reference to take four bytes. *)
Theorem TrackVoxel_Load_consumes_its_length `{RcdEnv} (pos : RcdFile -> Z)
        (this : TrackVoxel) (f : RcdFile) (length : Z) (sprites : ImageMap) :
  readers_advance pos ->
  (length <> 36 -> TrackVoxel_Load this f length sprites = (false, this, f)) /\
  (fst (fst (TrackVoxel_Load this f length sprites)) = true ->
   pos (snd (TrackVoxel_Load this f length sprites)) = pos f + length /\
   List.length (back (snd (fst (TrackVoxel_Load this f length sprites))))
   = List.length (back this) /\
   List.length (front (snd (fst (TrackVoxel_Load this f length sprites))))
   = List.length (front this)).
Proof.
  intros Hreaders.
  destruct (TrackVoxel_Load_result pos Hreaders this f length sprites)
    as [Hrefuse Haccept].
  split; [exact Hrefuse |].
  intros Hok. destruct (Haccept Hok) as (-> & Hpos & Hback & Hfront).
  split; [exact Hpos |]. split; assumption.
Qed.

Lemma sample_readers_advance :
  @readers_advance sample_RcdEnv (fun f : Z => f).
Proof.
  unfold readers_advance. cbn.
  repeat split; intros; reflexivity.
Qed.

Lemma sample_GetUInt16_in_range : @GetUInt16_in_range sample_RcdEnv.
Proof. intros f. cbn. split; [discriminate | reflexivity]. Qed.

Lemma TrackVoxel_Load_consumes_its_length_witness :
  snd (@TrackVoxel_Load sample_RcdEnv new_TrackVoxel 0 36 tt) = 36.
Proof.
  exact (proj1
           (proj2 (@TrackVoxel_Load_consumes_its_length sample_RcdEnv
                     (fun f : Z => f) new_TrackVoxel 0 36 tt
                     sample_readers_advance)
                  eq_refl)).
Defined.

Lemma TrackPiece_Load_consumes_its_length_witness :
  snd (@TrackPiece_Load sample_RcdEnv new_TrackPiece 0 49 tt) = 49.
Proof.
  assert (Hlength : 0 <= 49 < 2 ^ 32)
    by (split; [discriminate | reflexivity]).
  destruct (proj2 (@TrackPiece_Load_consumes_its_length sample_RcdEnv
                     (fun f : Z => f) sample_readers_advance
                     sample_GetUInt16_in_range new_TrackPiece 0 49 tt
                     Hlength)
                  eq_refl) as (_ & _ & Hpos & _).
  exact Hpos.
Defined.

Lemma CoasterType_Load_accepts_only_valid_blocks_witness :
  snd (fst (@CoasterType_Load sample_RcdEnv
              (@mkCoasterType sample_RcdEnv tt 0 0 0 None) 0 13 tt
              (fun val : Z => Some val) 0%nat)) = 13.
Proof.
  assert (Hlength : 0 <= 13 < 2 ^ 32)
    by (split; [discriminate | reflexivity]).
  destruct (proj2 (@CoasterType_Load_accepts_only_valid_blocks sample_RcdEnv
                     (fun f : Z => f) sample_readers_advance
                     sample_GetUInt16_in_range
                     (@mkCoasterType sample_RcdEnv tt 0 0 0 None) 0 13 tt
                     (fun val : Z => Some val) 0%nat Hlength)
                  eq_refl) as (_ & _ & _ & Hpos & _).
  exact Hpos.
Defined.

(** X16.  [CoasterType::Load] and the global [_language]: the strings of
    the coaster are registered exactly when the block has at least 9 bytes,
    the kind and the platform pass their checks and the text is found, and
    then they stay registered also when the load fails afterwards, on the
    number of pieces or on a piece that is missing; in every other case the
    language is as it was. *)
Theorem CoasterType_Load_registers_strings `{RcdEnv} (this : CoasterType)
        (f : RcdFile) (length : Z) (texts : TextMap)
        (piece_map : Z -> option TrackPieceRef) (lang : Language) :
  let kind := fst (GetUInt16 f) in
  let platform := fst (GetUInt8 (snd (GetUInt16 f))) in
  let text := fst (LoadTextFromFile (snd (GetUInt8 (snd (GetUInt16 f)))) texts)
  in
  let header_ok :=
    negb (length <? 9)
    && negb ((kind =? 0) || (kind >=? CST_COUNT))
    && negb ((platform =? 0) || (platform >=? CPT_COUNT)) in
  snd (CoasterType_Load this f length texts piece_map lang)
  = match header_ok, text with
    | true, Some text_data => snd (RegisterStrings lang text_data)
    | _, _ => lang
    end /\
  (fst (fst (fst (CoasterType_Load this f length texts piece_map lang))) = true
   -> header_ok = true /\ text <> None).
Proof.
  cbv zeta. unfold CoasterType_Load. change (2 + 1 + 4 + 2) with 9.
  destruct (length <? 9); cbn [negb andb fst snd];
    [split; [reflexivity | discriminate] |].
  destruct (GetUInt16 f) as [kind f1]. cbn [fst snd].
  destruct (GetUInt8 f1) as [platform f2]. cbn [fst snd].
  destruct ((kind =? 0) || (kind >=? CST_COUNT)); cbn [negb andb fst snd];
    [split; [reflexivity | discriminate] |].
  destruct ((platform =? 0) || (platform >=? CPT_COUNT));
    cbn [negb andb fst snd]; [split; [reflexivity | discriminate] |].
  destruct (LoadTextFromFile f2 texts) as [[text_data |] f3];
    cbn [fst snd]; [| split; [reflexivity | discriminate]].
  destruct (RegisterStrings lang text_data) as [base_ lang1].
  destruct (GetUInt16 f3) as [count f4]. cbn [fst snd].
  destruct (negb (uint32 (length - 9) =? uint32 (4 * count)));
    cbn [fst snd]; [split; [reflexivity | discriminate] |].
  destruct (load_pieces (Z.to_nat count) 0 f4 piece_map
              (repeat None (Z.to_nat count))) as [[ok pieces_] f5].
  cbn [fst snd]. split; [reflexivity |].
  intros _. split; [reflexivity | discriminate].
Qed.
